(** * binance-di: the streaming ingestion pipeline

    A shallow embedding of [binance-di.py]: the payload projectors, the
    feed producer, the ingestion queue, the sink dispatcher, the file
    writer subsystem and the shutdown sequence of [main], followed by the
    properties of the specification that concern them.

    Conventions of the embedding.
    - Python [int]s are [Z]; [str]s are [string], of ASCII text (see
      [PyStr]); a [dict] whose iteration
      order is observable is an association list in insertion order; the
      file system is a finite map from paths to contents.
    - Every call that leaves the process (a file operation, a Redis
      append, a print, a columnar write) goes through [io]: it is recorded
      in the trace of the [World], and an [Oracle] decides whether the call
      raises.  Log records and the suspension points of the tasks are
      recorded in the same trace, so the trace is the chronological
      history of a run.
    - A Python exception is the [Raise] outcome of the monad [M]; state
      changes made before the exception stay visible, as they do for the
      mutable objects of the source. *)

From Stdlib Require Import ZArith List Lia Ascii String Bool.
From stdpp Require Import base option strings gmap list pretty.
Import ListNotations.
Open Scope Z_scope.

(** ** Python strings

    A [str] is a [string] of 8-bit characters, and the text of a run is
    taken to be ASCII: the stream keys and the format names are ASCII
    literals of the source, and the symbols, the options and the paths of
    the command line are taken to be ASCII, as the symbols of the
    exchange are.  On such text [lower], [upper] and [strip] are
    [str.lower], [str.upper] and [str.strip].  They leave every character
    above 127 as it is; the case mapping and the white space of Unicode,
    which Python applies there, are outside the embedding. *)

Module PyStr.

Definition lower_ascii (c : ascii) : ascii :=
  let n := N_of_ascii c in
  if ((65 <=? n) && (n <=? 90))%N then ascii_of_N (n + 32) else c.

Definition upper_ascii (c : ascii) : ascii :=
  let n := N_of_ascii c in
  if ((97 <=? n) && (n <=? 122))%N then ascii_of_N (n - 32) else c.

(** [str.lower] and [str.upper] on ASCII text: the letters [A] to [Z]
    and [a] to [z] change case, every other character stays. *)
Fixpoint lower (s : string) : string :=
  match s with
  | EmptyString => EmptyString
  | String c s' => String (lower_ascii c) (lower s')
  end.

Fixpoint upper (s : string) : string :=
  match s with
  | EmptyString => EmptyString
  | String c s' => String (upper_ascii c) (upper s')
  end.

(** [s.endswith(suffix)]. *)
Definition endswith (s suffix : string) : bool :=
  let n := String.length s in
  let k := String.length suffix in
  if (k <=? n)%nat then String.eqb (String.substring (n - k) k s) suffix
  else false.

(** [s.rfind(c)]: the index of the last occurrence of [c]. *)
Fixpoint rfind (c : ascii) (s : string) : option nat :=
  match s with
  | EmptyString => None
  | String a s' =>
      match rfind c s' with
      | Some i => Some (S i)
      | None => if Ascii.eqb a c then Some 0%nat else None
      end
  end.

(** [s.rsplit(sep, 1)] for a one-character separator. *)
Definition rsplit1 (c : ascii) (s : string) : list string :=
  match rfind c s with
  | Some i =>
      [String.substring 0 i s;
       String.substring (S i) (String.length s - S i) s]
  | None => [s]
  end.

(** [s.rsplit(sep, 2)] for a one-character separator. *)
Definition rsplit2 (c : ascii) (s : string) : list string :=
  match rsplit1 c s with
  | [a; b] => rsplit1 c a ++ [b]
  | l => l
  end.

(** The decimal text of an [int], as an f-string renders it. *)
Definition of_int (z : Z) : string := pretty z.

(** [s.split(sep)] for a one-character separator: never empty, the
    empty string gives one empty field. *)
Fixpoint split (c : ascii) (s : string) : list string :=
  match s with
  | EmptyString => [EmptyString]
  | String a s' =>
      if Ascii.eqb a c then EmptyString :: split c s'
      else
        match split c s' with
        | x :: xs => String a x :: xs
        | [] => [String a EmptyString]
        end
  end.

(** [sep.join(l)] for a one-character separator. *)
Fixpoint join (c : ascii) (l : list string) : string :=
  match l with
  | [] => EmptyString
  | [x] => x
  | x :: l' => x +:+ String c (join c l')
  end.

(** The characters below 128 that [str.isspace] accepts: tab to
    carriage return, the four separators 28 to 31, and the space. *)
Definition is_space (c : ascii) : bool :=
  let n := N_of_ascii c in
  ((9 <=? n) && (n <=? 13) || (28 <=? n) && (n <=? 32))%N.

Fixpoint lstrip (s : string) : string :=
  match s with
  | EmptyString => EmptyString
  | String c s' => if is_space c then lstrip s' else s
  end.

Fixpoint rstrip (s : string) : string :=
  match s with
  | EmptyString => EmptyString
  | String c s' =>
      match rstrip s' with
      | EmptyString => if is_space c then EmptyString else String c EmptyString
      | r => String c r
      end
  end.

(** [s.strip()] on ASCII text. *)
Definition strip (s : string) : string := rstrip (lstrip s).

End PyStr.

(** ** Decoded messages and records *)

(** What [json.loads] returns. *)
#[local] Unset Elimination Schemes.
Inductive Json : Type :=
| JNull
| JBool (b : bool)
| JInt (n : Z)
| JFloat (literal : string)
| JStr (s : string)
| JList (l : list Json)
| JDict (d : list (string * Json)).
#[local] Set Elimination Schemes.

(** A field of a record: a decoded value as it is, the text
    [json.dumps] gives for one, or the text [str] gives for one. *)
Inductive PyVal : Type :=
| PyRaw (j : Json)
| PyDumps (j : Json)
| PyStrOf (j : Json).

(** A record: the ordered field mapping built by a projector. *)
Definition Payload : Type := list (string * PyVal).

(** [d.get(k, default)] on a decoded object. *)
Fixpoint jget (d : list (string * Json)) (k : string) (default : Json) : Json :=
  match d with
  | [] => default
  | (k', v) :: d' => if String.eqb k' k then v else jget d' k default
  end.

(** [list(payload.keys())]. *)
Definition keys (p : Payload) : list string := map fst p.

(** [payload.get(h)]: [None] for an absent field. *)
Fixpoint pget (p : Payload) (h : string) : PyVal :=
  match p with
  | [] => PyRaw JNull
  | (k, v) :: p' => if String.eqb k h then v else pget p' h
  end.

(** ** Payload processing functions

    [None] stands for the [AttributeError] of calling [.get] on a decoded
    value that is not an object. *)

Definition process_ticker_payload (data : Json) : option Payload :=
  match data with
  | JDict d =>
      Some [("price_change", PyRaw (jget d "p" JNull));
            ("price_change_percent", PyRaw (jget d "P" JNull));
            ("last_price", PyRaw (jget d "c" JNull));
            ("high_price", PyRaw (jget d "h" JNull));
            ("low_price", PyRaw (jget d "l" JNull));
            ("total_volume_asset", PyRaw (jget d "v" JNull));
            ("total_volume_quote", PyRaw (jget d "q" JNull));
            ("event_time", PyRaw (jget d "E" JNull))]
  | _ => None
  end.

Definition process_order_book_payload (data : Json) : option Payload :=
  match data with
  | JDict d =>
      Some [("lastUpdateId", PyRaw (jget d "u" JNull));
            ("bids", PyDumps (jget d "b" (JList [])));
            ("asks", PyDumps (jget d "a" (JList [])))]
  | _ => None
  end.

Definition process_trade_payload (data : Json) : option Payload :=
  match data with
  | JDict d =>
      Some [("event_time", PyRaw (jget d "E" JNull));
            ("price", PyRaw (jget d "p" JNull));
            ("quantity", PyRaw (jget d "q" JNull));
            ("trade_time", PyRaw (jget d "T" JNull));
            ("is_buyer_maker", PyStrOf (jget d "m" JNull))]
  | _ => None
  end.

Definition process_kline_payload (data : Json) : option Payload :=
  match data with
  | JDict d =>
      match jget d "k" (JDict []) with
      | JDict k =>
          Some [("event_time", PyRaw (jget d "E" JNull));
                ("kline_start_time", PyRaw (jget k "t" JNull));
                ("kline_close_time", PyRaw (jget k "T" JNull));
                ("symbol", PyRaw (jget k "s" JNull));
                ("interval", PyRaw (jget k "i" JNull));
                ("open_price", PyRaw (jget k "o" JNull));
                ("close_price", PyRaw (jget k "c" JNull));
                ("high_price", PyRaw (jget k "h" JNull));
                ("low_price", PyRaw (jget k "l" JNull));
                ("base_asset_volume", PyRaw (jget k "v" JNull));
                ("number_of_trades", PyRaw (jget k "n" JNull));
                ("is_kline_closed", PyStrOf (jget k "x" JNull));
                ("quote_asset_volume", PyRaw (jget k "q" JNull))]
      | _ => None
      end
  | _ => None
  end.

(** ** Configuration *)

Definition PROD_BASE_URL : string := "wss://stream.binance.com:9443/ws".
Definition TESTNET_BASE_URL : string := "wss://stream.testnet.binance.vision/ws".

Definition BATCH_SIZE_FOR_COLUMNAR : Z := 10000.
Definition FILE_ROTATION_LINE_COUNT : Z := 100000.

(** The fields of [args] the pipeline reads.  [samples] is [None] when
    [--samples] is absent; [output] is the empty list when [--output] is
    absent or cleared by [--print-only]. *)
Record Args : Type := mkArgs {
  samples : option Z;
  print : bool;
  print_only : bool;
  silent : bool;
  output : list string;
  output_dir : string;
  interval : string;
  testnet : bool
}.

(** Python truthiness of [args.samples]. *)
Definition samples_truthy (a : Args) : bool :=
  match samples a with
  | Some n => negb (n =? 0)
  | None => false
  end.

Definition samples_value (a : Args) : Z := default 0 (samples a).

(** ** The outside world *)

(** One tuple of the queue: [(stream_key, symbol, payload)]. *)
Record Item : Type := mkItem {
  item_stream : string;
  item_symbol : string;
  item_payload : Payload
}.

(** What a file holds: text lines in the order written, or the table of
    a columnar file. *)
Inductive Chunk : Type :=
| CsvHeader (cols : list string)
| CsvRow (cells : list PyVal)
| JsonLine (p : Payload)
| Table (fmt : string) (rows : list Payload).

(** What [print] is given. *)
Inductive Printed : Type :=
| PrintEnvelope (stream symbol : string) (data : Payload)
| PrintBanner (stream_upper symbol : string)
| PrintPretty (data : Payload).

(** The calls that leave the process. *)
Inductive IOCall : Type :=
| Xadd (stream : string) (fields : Payload)
| PrintCall (t : Printed)
| OpenAppend (path : string)
| WriteChunk (path : string) (c : Chunk)
| FlushHandle (path : string)
| CloseHandle (path : string)
| WriteTable (path : string) (fmt : string) (rows : list Payload).

Inductive Exn : Type :=
| IOFailure (c : IOCall)
| BrokenPipeError
| KeyError (key : string)
| ValueError (what : string).

Inductive ErrorKind : Type :=
| DecodeFailure
| ProjectionFailure
| ConnectionFailure.

Inductive LogMsg : Type :=
| MsgProducerStarting (tag url : string)
| MsgConnected (tag : string)
| MsgSampleLimit (tag : string) (n : Z)
| MsgProducerError (tag : string) (e : ErrorKind)
| MsgPipeClosed
| MsgRotated (writer_key : string)
| MsgWroteBatch (path : string)
| MsgWriteError (path : string)
| MsgCleanupStart
| MsgCleanupDone
| MsgShutdownStart
| MsgShutdownComplete.

(** The steps of the shutdown sequence of [main]. *)
Inductive MainStep : Type :=
| CancelProducers
| QueueJoined
| CancelConsumer
| ConsumerAwaited
| FlushAllBuffers.

Inductive Event : Type :=
| Did (c : IOCall)
| Failed (c : IOCall)
| LogInfo (m : LogMsg)
| LogError (m : LogMsg)
| Connect (url : string) (ok : bool)
| Sleep (seconds : Z)
| Enqueued (it : Item)
| TaskDone
| CancelAllTasks
| Step (s : MainStep).

(** The file system and the history of the run. *)
Record World : Type := mkWorld {
  files : gmap string (list Chunk);
  trace : list Event
}.

(** What the outside does to the calls of a run: whether the call made
    after [n] events raises and, for a [print] that raises, whether its
    exception is the [BrokenPipeError] of a closed pipe, the one
    exception the dispatcher tells apart from the others. *)
Record Oracle : Type := mkOracle {
  raises :> nat -> IOCall -> bool;
  pipe_closed : nat -> bool
}.

Definition no_faults : Oracle := mkOracle (fun _ _ => false) (fun _ => false).

(** The exception of a call that raises after [n] events. *)
Definition failure (oracle : Oracle) (n : nat) (c : IOCall) : Exn :=
  match c with
  | PrintCall _ => if pipe_closed oracle n then BrokenPipeError else IOFailure c
  | _ => IOFailure c
  end.

Definition record (e : Event) (w : World) : World :=
  mkWorld (files w) (trace w ++ [e]).

(** The effect of a call that succeeds.  [open(path, 'a')] creates the
    file when it is missing and keeps what it holds otherwise; a
    columnar write replaces the file. *)
Definition effect (c : IOCall) (fs : gmap string (list Chunk))
  : gmap string (list Chunk) :=
  match c with
  | OpenAppend path => <[path := default [] (fs !! path)]> fs
  | WriteChunk path ch => <[path := default [] (fs !! path) ++ [ch]]> fs
  | WriteTable path fmt rows => <[path := [Table fmt rows]]> fs
  | _ => fs
  end.

(** ** The monad of the embedding: state and exceptions *)

Inductive Result (A : Type) : Type :=
| Ok (a : A)
| Raise (e : Exn).
Arguments Ok {A} a.
Arguments Raise {A} e.

Definition M (S A : Type) : Type := S -> Result A * S.

Definition ret {S A} (a : A) : M S A := fun s => (Ok a, s).

Definition bind {S A B} (m : M S A) (k : A -> M S B) : M S B :=
  fun s =>
    match m s with
    | (Ok a, s') => k a s'
    | (Raise e, s') => (Raise e, s')
    end.

Definition raise {S A} (e : Exn) : M S A := fun s => (Raise e, s).

Definition gets {S A} (f : S -> A) : M S A := fun s => (Ok (f s), s).

Definition modify {S} (f : S -> S) : M S unit := fun s => (Ok tt, f s).

(** [try: m except Exception: h]. *)
Definition try_except {S A} (m : M S A) (h : Exn -> M S A) : M S A :=
  fun s =>
    match m s with
    | (Ok a, s') => (Ok a, s')
    | (Raise e, s') => h e s'
    end.

Declare Scope py_scope.
Delimit Scope py_scope with py.
Notation "'let!' x := m 'in' k" := (bind m (fun x => k))
  (at level 10, x name, m at level 100, k at level 200) : py_scope.
Notation "m1 ;; m2" := (bind m1 (fun _ => m2))
  (at level 100, m2 at level 200, right associativity) : py_scope.
Open Scope py_scope.

(** ** Insertion-ordered dictionaries

    [file_writers] is iterated by [flush_all_buffers], so its order is
    kept: assigning to a present key keeps its place, assigning to a new
    key appends it. *)

Module Dict.

Definition t (V : Type) : Type := list (string * V).

Fixpoint get {V} (d : t V) (k : string) : option V :=
  match d with
  | [] => None
  | (k', v) :: d' => if String.eqb k' k then Some v else get d' k
  end.

Fixpoint set {V} (d : t V) (k : string) (v : V) : t V :=
  match d with
  | [] => [(k, v)]
  | (k', v') :: d' =>
      if String.eqb k' k then (k', v) :: d' else (k', v') :: set d' k v
  end.

End Dict.

(** ** The writer states

    One Python [dict] per writer key.  A field is [None] when its key is
    absent from the dict or bound to [None]; the source reads ['handle']
    and ['buffer'] through [state.get], which does not tell the two
    apart, and reads the other keys only after they are bound. *)
Record WriterState : Type := mkState {
  buffer : option (list Payload);
  part : option Z;
  handle : option string;
  lines : option Z;
  writer : option string;
  header : option (list string)
}.

Definition empty_state : WriterState :=
  mkState None None None None None None.

Definition set_buffer (b : option (list Payload)) (s : WriterState) :=
  mkState b (part s) (handle s) (lines s) (writer s) (header s).
Definition set_part (p : option Z) (s : WriterState) :=
  mkState (buffer s) p (handle s) (lines s) (writer s) (header s).
Definition set_handle (h : option string) (s : WriterState) :=
  mkState (buffer s) (part s) h (lines s) (writer s) (header s).
Definition set_lines (n : option Z) (s : WriterState) :=
  mkState (buffer s) (part s) (handle s) n (writer s) (header s).
Definition set_writer (h : option string) (s : WriterState) :=
  mkState (buffer s) (part s) (handle s) (lines s) h (header s).
Definition set_header (h : option (list string)) (s : WriterState) :=
  mkState (buffer s) (part s) (handle s) (lines s) (writer s) h.

(** The state of the file writer while one writer state is in hand. *)
Definition WS : Type := (WriterState * World)%type.

Section FileWriter.

Variable oracle : Oracle.
Variable args : Args.

(** A call to the outside: recorded, and raising when the oracle says so. *)
Definition io {S} (getw : S -> World) (setw : World -> S -> S) (c : IOCall)
  : M S unit :=
  fun s =>
    let w := getw s in
    if oracle (length (trace w)) c
    then (Raise (failure oracle (length (trace w)) c), setw (record (Failed c) w) s)
    else (Ok tt, setw (mkWorld (effect c (files w)) (trace w ++ [Did c])) s).

Definition log {S} (getw : S -> World) (setw : World -> S -> S) (e : Event)
  : M S unit :=
  modify (fun s => setw (record e (getw s)) s).

Definition ws_io (c : IOCall) : M WS unit :=
  io snd (fun w (s : WS) => (fst s, w)) c.
Definition ws_log (e : Event) : M WS unit :=
  log snd (fun w (s : WS) => (fst s, w)) e.
Definition ws_get {A} (f : WriterState -> A) : M WS A :=
  gets (fun s : WS => f (fst s)).
Definition ws_set (f : WriterState -> WriterState) : M WS unit :=
  modify (fun s : WS => (f (fst s), snd s)).

(** [state[key]] for a key that must be bound. *)
Definition ws_item {A} (key : string) (f : WriterState -> option A) : M WS A :=
  let! v := ws_get f in
  match v with
  | Some a => ret a
  | None => raise (KeyError key)
  end.

Definition columnar_path (stream_key symbol : string) (p : Z) (fmt : string)
  : string :=
  output_dir args +:+ "/" +:+ stream_key +:+ "_" +:+ PyStr.lower symbol
    +:+ "_" +:+ PyStr.of_int p +:+ "." +:+ fmt.

Definition line_ext (fmt : string) : string :=
  if String.eqb fmt "csv" then fmt else "jsonl".

Definition line_path (stream_key symbol : string) (p : Z) (fmt : string)
  : string :=
  output_dir args +:+ "/" +:+ stream_key +:+ "_" +:+ PyStr.lower symbol
    +:+ "_" +:+ PyStr.of_int p +:+ "." +:+ line_ext fmt.

Definition nonempty {A} (o : option (list A)) : bool :=
  match o with
  | Some (_ :: _) => true
  | _ => false
  end.

Definition flush_buffer (stream_key symbol fmt : string) : M WS unit :=
  let! b := ws_get buffer in
  if negb (nonempty b) then ret tt
  else
    let df := default [] b in
    ws_set (set_buffer (Some [])) ;;
    let! p := ws_item "part" part in
    ws_set (set_part (Some (p + 1))) ;;
    let filename := columnar_path stream_key symbol (p + 1) fmt in
    try_except
      ((if String.eqb fmt "parquet" then ws_io (WriteTable filename fmt df)
        else if String.eqb fmt "orc" then ws_io (WriteTable filename fmt df)
        else ret tt) ;;
       ws_log (LogInfo (MsgWroteBatch filename)))
      (fun _ => ws_log (LogError (MsgWriteError filename))).

Definition is_columnar (fmt : string) : bool :=
  String.eqb fmt "parquet" || String.eqb fmt "orc".

Definition is_line (fmt : string) : bool :=
  String.eqb fmt "json" || String.eqb fmt "csv".

Definition writer_key_of (stream_key symbol fmt : string) : string :=
  stream_key +:+ "_" +:+ PyStr.lower symbol +:+ "_" +:+ fmt.

(** The body of [write_to_file] between the lookup of the state and
    the final [writers[writer_key] = state]. *)
Definition write_body (stream_key symbol : string) (payload : Payload)
    (fmt : string) : M WS unit :=
  if is_columnar fmt then
    let! b := ws_get buffer in
    (if negb (bool_decide (is_Some b)) then
       ws_set (set_buffer (Some [])) ;; ws_set (set_part (Some 0))
     else ret tt) ;;
    let! b := ws_item "buffer" buffer in
    ws_set (set_buffer (Some (b ++ [payload]))) ;;
    let! b := ws_item "buffer" buffer in
    if Z.of_nat (length b) >=? BATCH_SIZE_FOR_COLUMNAR
    then flush_buffer stream_key symbol fmt
    else ret tt
  else if is_line fmt then
    let! h := ws_get handle in
    (if negb (bool_decide (is_Some h)) then
       let! p := ws_get part in
       let p' := default 0 p + 1 in
       ws_set (set_part (Some p')) ;;
       let filename := line_path stream_key symbol p' fmt in
       ws_io (OpenAppend filename) ;;
       ws_set (set_handle (Some filename)) ;;
       ws_set (set_lines (Some 0)) ;;
       if String.eqb fmt "csv" then
         ws_set (set_writer (Some filename)) ;;
         ws_set (set_header (Some (keys payload))) ;;
         ws_io (WriteChunk filename (CsvHeader (keys payload))) ;;
         let! n := ws_item "lines" lines in
         ws_set (set_lines (Some (n + 1)))
       else ret tt
     else ret tt) ;;
    let! h := ws_item "handle" handle in
    (if String.eqb fmt "json" then
       ws_io (WriteChunk h (JsonLine payload))
     else if String.eqb fmt "csv" then
       let! wr := ws_item "writer" writer in
       let! hd := ws_item "header" header in
       ws_io (WriteChunk wr (CsvRow (map (pget payload) hd)))
     else ret tt) ;;
    ws_io (FlushHandle h) ;;
    let! n := ws_item "lines" lines in
    ws_set (set_lines (Some (n + 1))) ;;
    let! n := ws_item "lines" lines in
    if n >=? FILE_ROTATION_LINE_COUNT then
      ws_io (CloseHandle h) ;;
      ws_set (set_handle None) ;;
      ws_set (set_writer None) ;;
      ws_log (LogInfo (MsgRotated (writer_key_of stream_key symbol fmt)))
    else ret tt
  else ret tt.

End FileWriter.

(** ** The file writer subsystem over the writer map *)

Definition Writers : Type := Dict.t WriterState.

(** The state of the dispatcher's sinks: the writer map and the world. *)
Definition FS : Type := (Writers * World)%type.

Section Sinks.

Variable oracle : Oracle.
Variable args : Args.

(** [write_to_file].  [state] is the dict found under the key, or a
    fresh one that only the final assignment stores: when the body
    raises, its changes survive in the first case and are lost in the
    second. *)
Definition write_to_file (stream_key symbol : string) (payload : Payload)
    (fmt : string) : M FS unit :=
  fun s =>
    let writer_key := writer_key_of stream_key symbol fmt in
    let existing := Dict.get (fst s) writer_key in
    let state := default empty_state existing in
    match write_body oracle args stream_key symbol payload fmt (state, snd s) with
    | (Ok _, (state', w')) =>
        (Ok tt, (Dict.set (fst s) writer_key state', w'))
    | (Raise e, (state', w')) =>
        (Raise e,
         (match existing with
          | Some _ => Dict.set (fst s) writer_key state'
          | None => fst s
          end, w'))
    end.

(** The loop of [flush_all_buffers] over [file_writers.items()]. *)
Fixpoint flush_each (d : Writers) (w : World) : Result unit * FS :=
  match d with
  | [] => (Ok tt, ([], w))
  | (k, st) :: d' =>
      if PyStr.endswith k "parquet" || PyStr.endswith k "orc" then
        match PyStr.rsplit2 "_" k with
        | [stream_key; symbol; fmt] =>
            match flush_buffer oracle args stream_key symbol fmt (st, w) with
            | (Ok _, (st', w')) =>
                let r := flush_each d' w' in
                (fst r, ((k, st') :: fst (snd r), snd (snd r)))
            | (Raise e, (st', w')) => (Raise e, ((k, st') :: d', w'))
            end
        | _ => (Raise (ValueError "unpack"), (d, w))
        end
      else
        let r := flush_each d' w in
        (fst r, ((k, st) :: fst (snd r), snd (snd r)))
  end.

Definition fs_log (e : Event) : M FS unit :=
  log snd (fun w (s : FS) => (fst s, w)) e.
Definition fs_io (c : IOCall) : M FS unit :=
  io oracle snd (fun w (s : FS) => (fst s, w)) c.

Definition flush_all_buffers : M FS unit :=
  fs_log (LogInfo MsgCleanupStart) ;;
  (fun s => flush_each (fst s) (snd s)) ;;
  fs_log (LogInfo MsgCleanupDone).

(** How one pass of the dispatcher loop leaves the loop body. *)
Inductive IterExit : Type :=
| Continue
| Break.

Fixpoint write_formats (stream_key symbol : string) (payload : Payload)
    (fmts : list string) : M FS unit :=
  match fmts with
  | [] => ret tt
  | fmt :: rest =>
      write_to_file stream_key symbol payload fmt ;;
      write_formats stream_key symbol payload rest
  end.

(** The console sink.  The handler catches the [BrokenPipeError] of a
    closed pipe and nothing else: it logs, cancels every other task and
    leaves the loop.  Any other exception of a [print] leaves the loop
    body as it is. *)
Definition console_sink (it : Item) : M FS IterExit :=
  if print args || print_only args then
    try_except
      ((if silent args then
          fs_io (PrintCall (PrintEnvelope (item_stream it) (item_symbol it)
                              (item_payload it)))
        else
          fs_io (PrintCall (PrintBanner (PyStr.upper (item_stream it))
                              (item_symbol it))) ;;
          fs_io (PrintCall (PrintPretty (item_payload it)))) ;;
       ret Continue)
      (fun e =>
         match e with
         | BrokenPipeError =>
             fs_log (LogInfo MsgPipeClosed) ;;
             fs_log CancelAllTasks ;;
             ret Break
         | _ => raise e
         end)
  else ret Continue.

Definition redis_stream_name (it : Item) : string :=
  "binance:" +:+ item_stream it +:+ ":" +:+ PyStr.lower (item_symbol it).

(** The body of the dispatcher loop between [data_queue.get()] and
    [data_queue.task_done()]. *)
Definition dispatch (redis_client : bool) (it : Item) : M FS IterExit :=
  let! c := console_sink it in
  match c with
  | Break => ret Break
  | Continue =>
      (if redis_client
       then fs_io (Xadd (redis_stream_name it) (item_payload it))
       else ret tt) ;;
      (match output args with
       | [] => ret tt
       | fmts =>
           write_formats (item_stream it) (item_symbol it) (item_payload it) fmts
       end) ;;
      ret Continue
  end.

End Sinks.

(** ** The ingestion queue and the tasks *)

(** [asyncio.Queue()], unbounded: the waiting items and the count of
    items put and not yet marked done. *)
Record Queue : Type := mkQueue {
  items : list Item;
  unfinished : Z
}.

Definition empty_queue : Queue := mkQueue [] 0.

Definition put (it : Item) (q : Queue) : Queue :=
  mkQueue (items q ++ [it]) (unfinished q + 1).

(** The state of a task.  A task that has not ended is [Running]; the
    dispatcher is [Storing it] while its pass for the tuple [it] is
    suspended in [await redis_client.xadd], the one place of the loop body
    where it gives way to the other tasks: the console sink of the pass
    is behind it, the outcome of the append, the file sink and
    [task_done] are ahead. *)
Inductive TaskStatus : Type :=
| Running
| Storing (it : Item)
| Finished
| Crashed (e : Exn)
| Cancelled.

(** [task.cancel()]: a task that has ended is left as it is. *)
Definition cancel (t : TaskStatus) : TaskStatus :=
  match t with
  | Running | Storing _ => Cancelled
  | t => t
  end.

Record Pipeline : Type := mkPipeline {
  queue : Queue;
  writers : Writers;
  world : World;
  consumer : TaskStatus;
  producers : list TaskStatus
}.

Definition pipe_record (e : Event) (p : Pipeline) : Pipeline :=
  mkPipeline (queue p) (writers p) (record e (world p)) (consumer p) (producers p).

Section Dispatcher.

Variable oracle : Oracle.
Variable args : Args.
Variable redis_client : bool.

(** One pass of the loop of [data_consumer] on the item [get] returned.
    [task_done] is reached only when the body neither raises nor
    breaks; an exception other than a cancellation ends the task. *)
Definition consume (it : Item) (rest : list Item) (p : Pipeline) : Pipeline :=
  match dispatch oracle args redis_client it (writers p, world p) with
  | (Ok Continue, (ws, w)) =>
      if unfinished (queue p) <=? 0 then
        mkPipeline (mkQueue rest (unfinished (queue p))) ws w
          (Crashed (ValueError "task_done() called too many times"))
          (producers p)
      else
        mkPipeline (mkQueue rest (unfinished (queue p) - 1)) ws
          (record TaskDone w) Running (producers p)
  | (Ok Break, (ws, w)) =>
      mkPipeline (mkQueue rest (unfinished (queue p))) ws w Finished
        (map cancel (producers p))
  | (Raise e, (ws, w)) =>
      mkPipeline (mkQueue rest (unfinished (queue p))) ws w (Crashed e)
        (producers p)
  end.

(** The pass that is suspended in [await redis_client.xadd] for [it],
    from the point where the append completes: it returns or raises, then
    the file sink and [task_done] follow as in any pass.  The tuple was
    taken from the queue when the pass began. *)
Definition resume (it : Item) (p : Pipeline) : Pipeline :=
  match (fs_io oracle (Xadd (redis_stream_name it) (item_payload it)) ;;
         match output args with
         | [] => ret tt
         | fmts =>
             write_formats oracle args (item_stream it) (item_symbol it)
               (item_payload it) fmts
         end) (writers p, world p) with
  | (Ok _, (ws, w)) =>
      if unfinished (queue p) <=? 0 then
        mkPipeline (queue p) ws w
          (Crashed (ValueError "task_done() called too many times"))
          (producers p)
      else
        mkPipeline (mkQueue (items (queue p)) (unfinished (queue p) - 1)) ws
          (record TaskDone w) Running (producers p)
  | (Raise e, (ws, w)) => mkPipeline (queue p) ws w (Crashed e) (producers p)
  end.

(** The pipeline once the pass in flight, if there is one, has come to
    its end. *)
Definition settled (p : Pipeline) : Pipeline :=
  match consumer p with
  | Storing it => resume it p
  | _ => p
  end.

(** How [await data_queue.join()] ends in [main]: the count of
    unfinished items reached zero, or nobody is left to bring it there,
    or the dispatcher cancelled [main] from its closed-pipe handler. *)
Inductive JoinExit : Type :=
| Joined
| Hung
| MainCancelled.

(** [await data_queue.join()] with the producers cancelled: the
    dispatcher is the only task left to run.  It first brings the pass in
    flight to its end, if there is one, then takes the waiting tuples one
    pass each; [join] returns as soon as no item is unfinished. *)
Fixpoint join_loop (its : list Item) (p : Pipeline) : JoinExit * Pipeline :=
  if unfinished (queue p) <=? 0 then (Joined, p)
  else
    let p := settled p in
    if unfinished (queue p) <=? 0 then (Joined, p)
    else
      match consumer p, its with
      | Running, it :: rest =>
          let p' := consume it rest p in
          match consumer p' with
          | Finished => (MainCancelled, p')
          | _ => join_loop rest p'
          end
      | _, _ => (Hung, p)
      end.

Definition join (p : Pipeline) : JoinExit * Pipeline :=
  join_loop (items (queue p)) p.

Inductive ShutdownExit : Type :=
| Completed
| NeverReturns
| AbortedByCancel
| AbortedBy (e : Exn).

(** The [finally] block of [main]. *)
Definition shutdown (p : Pipeline) : ShutdownExit * Pipeline :=
  let p := pipe_record (LogInfo MsgShutdownStart) p in
  let p := mkPipeline (queue p) (writers p) (record (Step CancelProducers) (world p))
             (consumer p) (map cancel (producers p)) in
  match join p with
  | (Hung, p) => (NeverReturns, p)
  | (MainCancelled, p) => (AbortedByCancel, p)
  | (Joined, p) =>
      let p := pipe_record (Step QueueJoined) p in
      let p := mkPipeline (queue p) (writers p)
                 (record (Step CancelConsumer) (world p))
                 (cancel (consumer p)) (producers p) in
      match consumer p with
      | Crashed e => (AbortedBy e, p)
      | _ =>
          let p := pipe_record (Step ConsumerAwaited) p in
          match output args with
          | [] => (Completed, pipe_record (LogInfo MsgShutdownComplete) p)
          | _ =>
              let p := pipe_record (Step FlushAllBuffers) p in
              match flush_all_buffers oracle args (writers p, world p) with
              | (Ok _, (ws, w)) =>
                  (Completed,
                   mkPipeline (queue p) ws
                     (record (LogInfo MsgShutdownComplete) w)
                     (consumer p) (producers p))
              | (Raise e, (ws, w)) =>
                  (AbortedBy e,
                   mkPipeline (queue p) ws w (consumer p) (producers p))
              end
          end
      end
  end.

End Dispatcher.

(** ** The feed producer *)

(** An inbound message, by what [json.loads] does with it. *)
Inductive Message : Type :=
| Undecodable
| Decoded (data : Json).

(** How the iteration over a connection ends once its messages are
    read: the peer closes normally, the connection drops, or nothing more
    has arrived yet. *)
Inductive Closing : Type :=
| ClosedOK
| ClosedError
| StillOpen.

(** One attempt of [websockets.connect]. *)
Inductive Session : Type :=
| ConnectFails
| Connects (msgs : list Message) (closing : Closing).

Record PState : Type := mkPState {
  sample_count : Z;
  pqueue : Queue;
  pworld : World
}.

Definition p_record (e : Event) (s : PState) : PState :=
  mkPState (sample_count s) (pqueue s) (record e (pworld s)).

Section Producer.

Variable symbol stream_type base_url : string.
Variable process_func : Json -> option Payload.
Variable stream_key : string.
Variable args : Args.

Definition websocket_url : string :=
  base_url +:+ "/" +:+ PyStr.lower symbol +:+ stream_type.

Definition tag : string := PyStr.upper stream_key +:+ "/" +:+ symbol.

(** How the body of the [try] is left. *)
Inductive LoopExit : Type :=
| Returned
| IterationEnded
| Raised (k : ErrorKind).

(** [async for message in websocket: ...] on the messages that
    arrive. *)
Fixpoint receive (msgs : list Message) (s : PState) : LoopExit * PState :=
  match msgs with
  | [] => (IterationEnded, s)
  | Undecodable :: _ => (Raised DecodeFailure, s)
  | Decoded data :: rest =>
      match process_func data with
      | None => (Raised ProjectionFailure, s)
      | Some payload =>
          let it := mkItem stream_key symbol payload in
          let s := mkPState (sample_count s) (put it (pqueue s))
                     (record (Enqueued it) (pworld s)) in
          if samples_truthy args then
            let s := mkPState (sample_count s + 1) (pqueue s) (pworld s) in
            if sample_count s >=? samples_value args then
              (Returned,
               p_record (LogInfo (MsgSampleLimit tag (samples_value args))) s)
            else receive rest s
          else receive rest s
      end
  end.

Definition reconnect_wait (k : ErrorKind) (s : PState) : PState :=
  p_record (Sleep 5) (p_record (LogError (MsgProducerError tag k)) s).

(** The [while True] loop, on the connections the feed offers.  The
    task is still running when the feed has nothing more to offer. *)
Fixpoint produce (feed : list Session) (s : PState) : TaskStatus * PState :=
  match feed with
  | [] => (Running, s)
  | ConnectFails :: feed' =>
      produce feed'
        (reconnect_wait ConnectionFailure
           (p_record (Connect websocket_url false) s))
  | Connects msgs closing :: feed' =>
      let s := p_record (LogInfo (MsgConnected tag))
                 (p_record (Connect websocket_url true) s) in
      match receive msgs s with
      | (Returned, s) => (Finished, s)
      | (Raised k, s) => produce feed' (reconnect_wait k s)
      | (IterationEnded, s) =>
          match closing with
          | ClosedOK => produce feed' s
          | ClosedError => produce feed' (reconnect_wait ConnectionFailure s)
          | StillOpen => (Running, s)
          end
      end
  end.

Definition stream_producer (feed : list Session) (q : Queue) (w : World)
  : TaskStatus * PState :=
  produce feed
    (mkPState 0 q (record (LogInfo (MsgProducerStarting tag websocket_url)) w)).

End Producer.

(** The producers [main] starts for one symbol: stream suffix,
    projector and stream key, by the entries of [--load]. *)
Definition producers_for (load : list string) (args : Args)
  : list (string * (Json -> option Payload) * string) :=
  (if bool_decide ("ticker" ∈ load)
   then [("@ticker", process_ticker_payload, "ticker")] else []) ++
  (if bool_decide ("order-book" ∈ load)
   then [("@depth", process_order_book_payload, "order-book")] else []) ++
  (if bool_decide ("trades" ∈ load)
   then [("@aggTrade", process_trade_payload, "trades")] else []) ++
  (if bool_decide ("klines" ∈ load)
   then [("@kline_" +:+ interval args, process_kline_payload, "klines")] else []).

(** ** Vocabulary of the statements *)

(** [args] with another value of [--samples]. *)
Definition with_samples (o : option Z) (a : Args) : Args :=
  mkArgs o (print a) (print_only a) (silent a) (output a) (output_dir a)
    (interval a) (testnet a).

(** A log record of a producer error, with the kind of the error
    forgotten: what remains is how the error was handled. *)
Definition forget_kind (e : Event) : Event :=
  match e with
  | LogError (MsgProducerError t _) => LogError (MsgProducerError t ConnectionFailure)
  | e => e
  end.

(** Two producer states that differ at most in the kinds of the errors
    logged. *)
Definition same_pstate (a b : PState) : Prop :=
  sample_count a = sample_count b /\
  pqueue a = pqueue b /\
  files (pworld a) = files (pworld b) /\
  map forget_kind (trace (pworld a)) = map forget_kind (trace (pworld b)).

(** Two runs of a producer that end alike and differ at most in the
    kinds of the errors logged. *)
Definition same_handling (a b : TaskStatus * PState) : Prop :=
  fst a = fst b /\ same_pstate (snd a) (snd b).

(** The samples a feed offers, in the words of the specification.  A
    message is accepted when it decodes and the projector takes it; on a
    connection, the samples are the projections of the messages that
    arrive before the first one that is not accepted, which ends the
    connection: [accepted] gives them, and whether every message was
    accepted. *)
Fixpoint accepted (process_func : Json -> option Payload) (msgs : list Message)
  : list Payload * bool :=
  match msgs with
  | [] => ([], true)
  | Undecodable :: _ => ([], false)
  | Decoded data :: rest =>
      match process_func data with
      | Some p =>
          let r := accepted process_func rest in
          (p :: fst r, snd r)
      | None => ([], false)
      end
  end.

(** The samples of a feed, connection after connection; a connection
    that stays open once its messages are read is the last one. *)
Fixpoint offered (process_func : Json -> option Payload) (feed : list Session)
  : list Payload :=
  match feed with
  | [] => []
  | ConnectFails :: feed' => offered process_func feed'
  | Connects msgs closing :: feed' =>
      let r := accepted process_func msgs in
      fst r ++
        match snd r, closing with
        | true, StillOpen => []
        | _, _ => offered process_func feed'
        end
  end.

(** The tuples put on the queue since it held [q0]. *)
Definition enqueued_since (q0 : Queue) (s : PState) : list Item :=
  drop (length (items q0)) (items (pqueue s)).

(** What a file holds after [cs] is appended to it, the file being
    created when it is missing. *)
Definition append_to (path : string) (cs : list Chunk)
    (fs : gmap string (list Chunk)) : gmap string (list Chunk) :=
  <[path := default [] (fs !! path) ++ cs]> fs.

(** The file sink on the records of one stream, symbol and format, in
    arrival order: on the writer state alone, and on the writer map. *)
Fixpoint write_seq (oracle : Oracle) (args : Args) (stream_key symbol fmt : string)
    (ps : list Payload) : M WS unit :=
  match ps with
  | [] => ret tt
  | p :: ps' =>
      write_body oracle args stream_key symbol p fmt ;;
      write_seq oracle args stream_key symbol fmt ps'
  end.

Fixpoint write_all (oracle : Oracle) (args : Args) (stream_key symbol fmt : string)
    (ps : list Payload) : M FS unit :=
  match ps with
  | [] => ret tt
  | p :: ps' =>
      write_to_file oracle args stream_key symbol p fmt ;;
      write_all oracle args stream_key symbol fmt ps'
  end.

(** The row the delimited-text writer emits for a record under a header. *)
Definition csv_row (hd : list string) (p : Payload) : Chunk :=
  CsvRow (map (pget p) hd).

(** The header lines and the rows a trace records as written to
    delimited-text files, in the order they were written. *)
Definition headers_written (tr : list Event) : list (list string) :=
  omap (fun e =>
          match e with
          | Did (WriteChunk _ (CsvHeader cols)) => Some cols
          | _ => None
          end) tr.

Definition rows_written (tr : list Event) : list Chunk :=
  omap (fun e =>
          match e with
          | Did (WriteChunk _ (CsvRow cells)) => Some (CsvRow cells)
          | _ => None
          end) tr.

(** The state of a delimited-text writer whose records have the columns
    [hd]: whenever it holds a header, it is [hd]; and while a part is
    open, the row writer writes to its handle under that header and the
    line count is kept. *)
Definition csv_state_ok (hd : list string) (st : WriterState) : Prop :=
  (forall h, header st = Some h -> h = hd) /\
  (forall f, handle st = Some f ->
             writer st = Some f /\ header st = Some hd /\ is_Some (lines st)).

(** The steps of the shutdown sequence recorded in a trace, in the
    order they were taken; and the order the specification gives them. *)
Definition main_steps (tr : list Event) : list MainStep :=
  omap (fun e => match e with Step s => Some s | _ => None end) tr.

Definition shutdown_order : list MainStep :=
  [CancelProducers; QueueJoined; CancelConsumer; ConsumerAwaited; FlushAllBuffers].

(** The part files a trace allocates: the paths opened by a line-format
    writer and the paths written by a columnar flush, attempts that
    failed included. *)
Definition allocations (tr : list Event) : list string :=
  omap (fun e =>
          match e with
          | Did (OpenAppend f) | Failed (OpenAppend f) => Some f
          | Did (WriteTable f _ _) | Failed (WriteTable f _ _) => Some f
          | _ => None
          end) tr.

(** No writer state holds rows that were not flushed. *)
Definition no_pending_rows (d : Writers) : Prop :=
  Forall (fun e => nonempty (buffer (snd e)) = false) d.

(** The dispatcher taking the tuples [its] one after the other, each
    exactly once, in queue order. *)
Fixpoint consume_all (oracle : Oracle) (args : Args) (redis_client : bool)
    (its : list Item) (p : Pipeline) : Pipeline :=
  match its with
  | [] => p
  | it :: rest => consume_all oracle args redis_client rest
                    (consume oracle args redis_client it rest p)
  end.

(** Every tuple of [its] leaves the loop body of the dispatcher
    normally: no sink raises and the console pipe is open. *)
Fixpoint dispatches_cleanly (oracle : Oracle) (args : Args) (redis_client : bool)
    (its : list Item) (p : Pipeline) : Prop :=
  match its with
  | [] => True
  | it :: rest =>
      match dispatch oracle args redis_client it (writers p, world p) with
      | (Ok Continue, _) =>
          dispatches_cleanly oracle args redis_client rest
            (consume oracle args redis_client it rest p)
      | _ => False
      end
  end.

(** The pipeline once the shutdown has logged its start and requested
    the cancellation of the producers. *)
Definition begun (p : Pipeline) : Pipeline :=
  mkPipeline (queue p) (writers p)
    (record (Step CancelProducers) (record (LogInfo MsgShutdownStart) (world p)))
    (consumer p) (map cancel (producers p)).

(** What holds of the writer map at any time: every key was built by
    [write_to_file], and a state that has a buffer is the state of a
    columnar writer and has its part counter. *)
Definition writer_entry_ok (e : string * WriterState) : Prop :=
  (exists sk sym fmt, fst e = writer_key_of sk sym fmt) /\
  (is_Some (buffer (snd e)) ->
   is_Some (part (snd e)) /\
   exists sk sym fmt, fst e = writer_key_of sk sym fmt /\ is_columnar fmt = true).

Definition writers_ok (d : Writers) : Prop := Forall writer_entry_ok d.

(** The keys of a [dict] are distinct. *)
Definition distinct_keys (d : Writers) : Prop := NoDup (map fst d).

(** A task that has ended, in whichever way. *)
Definition has_ended (t : TaskStatus) : bool :=
  match t with
  | Running | Storing _ => false
  | _ => true
  end.

(** A pipeline in the middle of a run whose dispatcher is alive: it
    waits for the next tuple and every item put and not yet marked done is
    waiting in the queue, or it is inside the pass for a tuple, suspended
    in the append to Redis, and that tuple is the one unfinished item
    that is not in the queue. *)
Definition alive (p : Pipeline) : Prop :=
  match consumer p with
  | Running => unfinished (queue p) = Z.of_nat (length (items (queue p)))
  | Storing _ => unfinished (queue p) = Z.of_nat (length (items (queue p))) + 1
  | _ => False
  end /\
  writers_ok (writers p) /\ distinct_keys (writers p).

(** The pass in flight, if there is one, and then every queued tuple
    leave the loop body of the dispatcher normally. *)
Definition drains_cleanly (oracle : Oracle) (args : Args) (redis_client : bool)
    (p : Pipeline) : Prop :=
  consumer (settled oracle args p) = Running /\
  dispatches_cleanly oracle args redis_client (items (queue p))
    (settled oracle args p).

(** The batch a columnar writer holds when its buffer has rows: the
    call that writes these rows as the next part of the writer. *)
Definition batch_call (args : Args) (stream_key symbol fmt : string)
    (st : WriterState) : option IOCall :=
  match buffer st, part st with
  | Some (r :: rows), Some q =>
      Some (WriteTable (columnar_path args stream_key symbol (q + 1) fmt) fmt
              (r :: rows))
  | _, _ => None
  end.

(** What became of a call in a run that added the events [tl] and left
    the files [fs]: it was made once and succeeded, and the file holds
    what it wrote; or it raised, and the error was logged. *)
Definition written_or_reported (c : IOCall) (tl : list Event)
    (fs : gmap string (list Chunk)) : Prop :=
  match c with
  | WriteTable f fmt rows =>
      Did c ∈ tl /\ fs !! f = Some [Table fmt rows] \/
      Failed c ∈ tl /\ LogError (MsgWriteError f) ∈ tl
  | _ => False
  end.

(** A computation of the sinks that keeps a property of the writer
    map. *)
Definition keeps {A} (P : Writers -> Prop) (m : M FS A) : Prop :=
  forall s, P (fst s) -> P (fst (snd (m s))).

(** The events a run added to a trace. *)
Definition events_since (w0 : World) (w : World) : list Event :=
  drop (length (trace w0)) (trace w).

(** A computation of the sinks that keeps the writer map in order and
    adds no step of the shutdown sequence to the trace. *)
Definition quiet {A} (m : M FS A) : Prop :=
  forall s,
    (writers_ok (fst s) -> writers_ok (fst (snd (m s)))) /\
    exists tl, trace (snd (snd (m s))) = trace (snd s) ++ tl /\ main_steps tl = [].

(** What can happen to the writer map during a run: a record is
    written for a stream, a symbol and a format, or the buffers are
    flushed at shutdown. *)
Inductive WriterOp : Type :=
| OpWrite (stream_key symbol fmt : string) (p : Payload)
| OpFlushAll.

Definition run_op (oracle : Oracle) (args : Args) (op : WriterOp) : M FS unit :=
  match op with
  | OpWrite stream_key symbol fmt p =>
      write_to_file oracle args stream_key symbol p fmt
  | OpFlushAll => flush_all_buffers oracle args
  end.

(** A sequence of such operations.  It ends at the first exception:
    the dispatcher task ends there, and the queue join of the shutdown
    then does not return, so that the final flush is not reached. *)
Fixpoint run_ops (oracle : Oracle) (args : Args) (ops : list WriterOp)
  : M FS unit :=
  match ops with
  | [] => ret tt
  | op :: rest => run_op oracle args op ;; run_ops oracle args rest
  end.

(** The part counter of the writer state under a key, 0 before the
    state or the counter exists. *)
Definition part_of (key : string) (d : Writers) : Z :=
  match Dict.get d key with
  | Some st => default 0 (part st)
  | None => 0
  end.

(** The path of part [q] of a writer, by its format. *)
Definition part_path (args : Args) (stream_key symbol fmt : string) (q : Z)
  : string :=
  if is_columnar fmt then columnar_path args stream_key symbol q fmt
  else line_path args stream_key symbol q fmt.

(** ** The command line

    What [parser.parse_args()] returns, with the defaults of the parser
    filled in by [argparse], and what [parse_arguments] makes of it. *)
Record Parsed : Type := mkParsed {
  p_symbol : string;
  p_load : string;
  p_interval : string;
  p_testnet : bool;
  p_output_dir : string;
  p_output : option string;
  p_samples : option Z;
  p_log : option string;
  p_silent : bool;
  p_print : bool;
  p_print_only : bool
}.

(** The namespace for a command line that gives [--symbol] alone. *)
Definition parser_defaults (symbol : string) : Parsed :=
  mkParsed symbol "ticker,trades,order-book" "1m" false "data" None None None
    false false false.

(** The namespace [parse_arguments] returns.  [ns_output] is the empty
    set when [args.output] is falsy ([None], or the empty text of
    [--output ""]): the program only ever tests it for truth or iterates
    it. *)
Record Namespace : Type := mkNamespace {
  ns_symbol : string;
  ns_load : gset string;
  ns_interval : string;
  ns_testnet : bool;
  ns_output_dir : string;
  ns_output : gset string;
  ns_samples : option Z;
  ns_log : option string;
  ns_silent : bool;
  ns_print : bool;
  ns_print_only : bool
}.

(** [set(text.lower().split(','))]. *)
Definition option_set (text : string) : gset string :=
  list_to_set (PyStr.split "," (PyStr.lower text)).

Definition parse_arguments (a : Parsed) : Namespace :=
  let load := option_set (p_load a) in
  let output :=
    match p_output a with
    | Some text => if String.eqb text "" then ∅ else option_set text
    | None => ∅
    end in
  let output := if p_print_only a then ∅ else output in
  mkNamespace (p_symbol a) load (p_interval a) (p_testnet a) (p_output_dir a)
    output (p_samples a) (p_log a) (p_silent a) (p_print a) (p_print_only a).

(** The arguments as the pipeline reads them, [fmts] being the order
    in which the set [args.output] is iterated; Python leaves that order
    open, so any duplicate-free listing of the set is one. *)
Definition pipeline_args (ns : Namespace) (fmts : list string) : Args :=
  mkArgs (ns_samples ns) (ns_print ns) (ns_print_only ns) (ns_silent ns) fmts
    (ns_output_dir ns) (ns_interval ns) (ns_testnet ns).

Definition iterates (fmts : list string) (X : gset string) : Prop :=
  NoDup fmts /\ list_to_set fmts = X.

(** ** Logging *)

Definition DEBUG : Z := 10.
Definition INFO : Z := 20.
Definition WARNING : Z := 30.
Definition ERROR : Z := 40.
Definition CRITICAL : Z := 50.

Inductive LogStream : Type :=
| Stderr
| LogFile (path : string).

Record Handler : Type := mkHandler {
  h_stream : LogStream;
  h_level : Z;
  h_format : string
}.

Record Logger : Type := mkLogger {
  l_level : Z;
  l_handlers : list Handler
}.

(** The root logger of a fresh interpreter. *)
Definition root_logger : Logger := mkLogger WARNING [].

(** [setup_logging], once the log file could be opened. *)
Definition setup_logging (ns : Namespace) (logger : Logger) : Logger :=
  let log_level := if ns_silent ns then CRITICAL + 1 else INFO in
  let stream_handler := mkHandler Stderr log_level "%(message)s" in
  let handlers := l_handlers logger ++ [stream_handler] in
  let handlers :=
    match ns_log ns with
    | Some path =>
        if String.eqb path "" then handlers
        else handlers ++ [mkHandler (LogFile path) INFO "%(asctime)s - %(message)s"]
    | None => handlers
    end in
  mkLogger INFO handlers.

(** Where a record of level [lvl] is written: the logger drops it below
    its own level, each handler below the handler's. *)
Definition emitted (logger : Logger) (lvl : Z) : list LogStream :=
  if lvl >=? l_level logger then
    map h_stream (List.filter (fun h => lvl >=? h_level h) (l_handlers logger))
  else [].

(** ** The start of [main]

    Everything [main] does before it waits for the producers: the output
    directory, the environment file, the Redis connection, the dispatcher
    task and the producer tasks. *)

(** How [await r.ping()] ends: an answer, the [ConnectionError] of a
    server that cannot be reached, or another exception. *)
Inductive PingOutcome : Type :=
| Pong
| PingConnectionError
| PingRaises.

(** What [main] finds around it.  [getenv] is the environment once the
    environment file is loaded; [int_of] is what [int] makes of the text
    of a variable, [None] for its [ValueError]. *)
Record Env : Type := mkEnv {
  mkdir_ok : string -> bool;
  path_exists : string -> bool;
  dotenv_ok : string -> bool;
  getenv : string -> option string;
  int_of : string -> option Z;
  ping : string -> Z -> PingOutcome
}.

(** A producer task: the arguments of [stream_producer] that [main]
    chooses. *)
Record ProducerSpec : Type := mkProducerSpec {
  ps_symbol : string;
  ps_stream_type : string;
  ps_base_url : string;
  ps_process : Json -> option Payload;
  ps_stream_key : string
}.

Inductive BootMsg : Type :=
| MsgOutputDir (dir : string)
| MsgEnvMissing (file : string)
| MsgEnvLoaded (file : string)
| MsgRedisConnected (host : string) (port : Z)
| MsgRedisCritical
| MsgPreparing (load : gset string) (symbols : list string)
| MsgNoValidLoad.

Inductive BootEvent : Type :=
| Mkdir (path : string) (ok : bool)
| Logged (level : Z) (m : BootMsg)
| LoadDotenv (file : string) (ok : bool)
| Ping (host : string) (port : Z) (r : PingOutcome)
| CreateConsumer (redis_client : bool)
| CreateProducer (spec : ProducerSpec)
| CancelConsumerTask.

Inductive BootExn : Type :=
| MkdirError (path : string)
| DotenvError (file : string)
| PortError (text : string)
| AttributeError (name : string).

(** How the start of [main] ends: [main] returns, an exception leaves
    it, or the pipeline runs, with or without a Redis client. *)
Inductive Boot : Type :=
| Exits
| Crashes (e : BootExn)
| Starts (redis_client : bool) (tasks : list ProducerSpec).

(** [get_redis_connection]: the client, or the exception that leaves
    the function.  The name [redis] is bound to the module
    [redis.asyncio] (line 22), which has no attribute [exceptions]; so
    when the body of the [try] raises, the expression
    [redis.exceptions.ConnectionError] of the [except] clause, evaluated
    to match the exception, raises [AttributeError] itself, whatever the
    exception was.  The handler is never entered: nothing is logged and
    [None] is never returned. *)
Definition get_redis_connection (env : Env) (redis_host : string) (redis_port : Z)
  : (BootExn + bool) * list BootEvent :=
  match ping env redis_host redis_port with
  | Pong =>
      (inr true,
       [Ping redis_host redis_port Pong;
        Logged INFO (MsgRedisConnected redis_host redis_port)])
  | failed =>
      (inl (AttributeError "exceptions"), [Ping redis_host redis_port failed])
  end.

Definition env_file (ns : Namespace) : string :=
  if ns_testnet ns then ".env_testnet" else ".env".

Definition base_url_of (ns : Namespace) : string :=
  if ns_testnet ns then TESTNET_BASE_URL else PROD_BASE_URL.

(** [[s.strip().upper() for s in args.symbol.split(',')]]. *)
Definition symbols_of (ns : Namespace) : list string :=
  map (fun s => PyStr.upper (PyStr.strip s)) (PyStr.split "," (ns_symbol ns)).

(** The producer tasks [main] creates, in creation order. *)
Definition producer_specs (ns : Namespace) : list ProducerSpec :=
  flat_map
    (fun symbol =>
       map (fun t => mkProducerSpec symbol (fst (fst t)) (base_url_of ns)
                       (snd (fst t)) (snd t))
         (producers_for (elements (ns_load ns)) (pipeline_args ns [])))
    (symbols_of ns).

(** [int(os.getenv("REDIS_PORT", 31111))]. *)
Definition redis_port (env : Env) : BootExn + Z :=
  match getenv env "REDIS_PORT" with
  | Some text =>
      match int_of env text with
      | Some n => inr n
      | None => inl (PortError text)
      end
  | None => inr 31111
  end.

(** The Redis client of the run: whether there is one, or the
    exception that leaves [main].  With [--print-only] no connection is
    attempted. *)
Definition connect_redis (env : Env) (ns : Namespace)
  : (BootExn + bool) * list BootEvent :=
  if ns_print_only ns then (inr false, [])
  else
    let redis_host := default "localhost" (getenv env "REDIS_HOST") in
    match redis_port env with
    | inl e => (inl e, [])
    | inr port => get_redis_connection env redis_host port
    end.

(** The tasks of [main]: the dispatcher, then the producers; without a
    producer the dispatcher is cancelled and [main] returns. *)
Definition create_tasks (ns : Namespace) (redis_client : bool)
  : Boot * list BootEvent :=
  let specs := producer_specs ns in
  let evs :=
    [CreateConsumer redis_client;
     Logged INFO (MsgPreparing (ns_load ns) (symbols_of ns))] ++
    map CreateProducer specs in
  match specs with
  | [] => (Exits, evs ++ [Logged ERROR MsgNoValidLoad; CancelConsumerTask])
  | _ => (Starts redis_client specs, evs)
  end.

Definition main_startup (env : Env) (ns : Namespace) : Boot * list BootEvent :=
  let has_output := negb (bool_decide (ns_output ns = ∅)) in
  let made :=
    if has_output then
      if mkdir_ok env (ns_output_dir ns)
      then (true, [Mkdir (ns_output_dir ns) true;
                   Logged INFO (MsgOutputDir (ns_output_dir ns))])
      else (false, [Mkdir (ns_output_dir ns) false])
    else (true, []) in
  if negb (fst made) then (Crashes (MkdirError (ns_output_dir ns)), snd made)
  else if negb (path_exists env (env_file ns)) then
    (Exits, snd made ++ [Logged ERROR (MsgEnvMissing (env_file ns))])
  else if negb (dotenv_ok env (env_file ns)) then
    (Crashes (DotenvError (env_file ns)),
     snd made ++ [LoadDotenv (env_file ns) false])
  else
    let evs :=
      snd made ++ [LoadDotenv (env_file ns) true;
                   Logged INFO (MsgEnvLoaded (env_file ns))] in
    match connect_redis env ns with
    | (inl e, evs') => (Crashes e, evs ++ evs')
    | (inr redis_client, evs') =>
        if negb redis_client && negb (ns_print_only ns) && negb has_output then
          (Exits, evs ++ evs' ++ [Logged CRITICAL MsgRedisCritical])
        else
          let r := create_tasks ns redis_client in
          (fst r, evs ++ evs' ++ snd r)
    end.

(** [main] from the command line to its tasks. *)
Definition main_boot (env : Env) (a : Parsed) : Boot * list BootEvent :=
  main_startup env (parse_arguments a).

(** ** The stream readers of the test directory

    The name of the stream each reader listens on, for the symbol its
    [main] passes: [args.symbol.upper()]. *)
Module TestReaders.

(** [test_redis-data.py] and [test_redis-data-full.py]. *)
Definition order_book_stream_name (symbol : string) : string :=
  "binance:orderbook:" +:+ PyStr.lower symbol.

(** [test_redis-ticker.py]. *)
Definition ticker_stream_name (symbol : string) : string :=
  "binance:ticker:" +:+ PyStr.lower symbol.

Definition reader_symbol (arg : string) : string := PyStr.upper arg.

End TestReaders.

(** An event of the console sink: a [print], or what the handler of a
    closed pipe records. *)
Definition console_event (e : Event) : bool :=
  match e with
  | Did (PrintCall _) | Failed (PrintCall _) => true
  | LogInfo MsgPipeClosed | CancelAllTasks => true
  | _ => false
  end.

(** An event of the start of [main] that reaches outside the process
    for a sink: the output directory or the Redis server. *)
Definition sink_setup_event (e : BootEvent) : bool :=
  match e with
  | Mkdir _ _ | Ping _ _ _ => true
  | _ => false
  end.

(** The tasks the start of [main] leaves behind: those created and
    not cancelled. *)
Definition tasks_left (evs : list BootEvent) : Z :=
  fold_left
    (fun n e =>
       match e with
       | CreateConsumer _ | CreateProducer _ => n + 1
       | CancelConsumerTask => n - 1
       | _ => n
       end) evs 0.

(** The streams [main] knows, in the order it creates their producers:
    the entry of [--load], then the suffix of the feed, the projector
    and the stream key. *)
Definition known_streams (ns : Namespace)
  : list (string * (string * (Json -> option Payload) * string)) :=
  [("ticker", ("@ticker", process_ticker_payload, "ticker"));
   ("order-book", ("@depth", process_order_book_payload, "order-book"));
   ("trades", ("@aggTrade", process_trade_payload, "trades"));
   ("klines", ("@kline_" +:+ ns_interval ns, process_kline_payload, "klines"))].

Definition requested_streams (ns : Namespace)
  : list (string * (string * (Json -> option Payload) * string)) :=
  List.filter (fun t => bool_decide (fst t ∈ ns_load ns)) (known_streams ns).

(** The tuples a trace records as put on the queue, in order. *)
Definition enqueued_in (tr : list Event) : list Item :=
  omap (fun e => match e with Enqueued it => Some it | _ => None end) tr.

(** A decoded message that is a JSON object. *)
Definition is_object (j : Json) : bool :=
  match j with
  | JDict _ => true
  | _ => false
  end.

(** What a producer for [stream_key] and [symbol] does to its state
    from [s] to [s'] when it puts the tuples [new]: the queue grows by
    them at its end, the count of unfinished items by their number, the
    trace records each put, and no file changes. *)
Definition puts (stream_key symbol : string) (s s' : PState) (new : list Item)
  : Prop :=
  items (pqueue s') = items (pqueue s) ++ new /\
  unfinished (pqueue s') = unfinished (pqueue s) + Z.of_nat (length new) /\
  files (pworld s') = files (pworld s) /\
  (exists tl, trace (pworld s') = trace (pworld s) ++ tl /\ enqueued_in tl = new) /\
  Forall (fun it => item_stream it = stream_key /\ item_symbol it = symbol) new.

(** Every file of [fs] is still a file of [fs'], and what it held is
    the beginning of what it holds. *)
Definition files_extend (fs fs' : gmap string (list Chunk)) : Prop :=
  forall f old, fs !! f = Some old -> exists new, fs' !! f = Some (old ++ new).

(** The file a call works on. *)
Definition call_path (c : IOCall) : option string :=
  match c with
  | OpenAppend f | WriteChunk f _ | FlushHandle f | CloseHandle f => Some f
  | WriteTable f _ _ => Some f
  | Xadd _ _ | PrintCall _ => None
  end.

(** The state of a line-format writer is in order when its open handle
    is the file of its current part and, for the delimited-text format,
    its row writer writes to that handle. *)
Definition line_state_ok (args : Args) (stream_key symbol fmt : string)
    (st : WriterState) : Prop :=
  (forall h, handle st = Some h ->
             h = line_path args stream_key symbol (default 0 (part st)) fmt) /\
  (fmt = "csv" -> forall x, writer st = Some x -> handle st = Some x).

(** A computation of the sinks that only appends to files: whatever
    it does, every file is still there afterwards and begins with what it
    held. *)
Definition appends {A} (m : M FS A) : Prop :=
  forall s, files_extend (files (snd s)) (files (snd (snd (m s)))).

(** An event of the final flush: a columnar write, done or failed, or
    one of the log records around it. *)
Definition flush_event (e : Event) : bool :=
  match e with
  | Did (WriteTable _ _ _) | Failed (WriteTable _ _ _) => true
  | LogInfo (MsgWroteBatch _) | LogError (MsgWriteError _) => true
  | LogInfo MsgCleanupStart | LogInfo MsgCleanupDone => true
  | _ => false
  end.

(** What the final flush may do to a writer state: it keeps the key and
    everything of a line-format writer, the handle included, and leaves a
    state without buffered rows as it is. *)
Definition flushed_from (e e' : string * WriterState) : Prop :=
  fst e' = fst e /\
  handle (snd e') = handle (snd e) /\ lines (snd e') = lines (snd e) /\
  writer (snd e') = writer (snd e) /\ header (snd e') = header (snd e) /\
  (nonempty (buffer (snd e)) = false -> e' = e).

(** One of the four formats the file writer knows. *)
Definition known_format (fmt : string) : bool := is_columnar fmt || is_line fmt.

(** The extension of the part files of a format. *)
Definition part_ext (fmt : string) : string :=
  if is_columnar fmt then fmt else line_ext fmt.

(** What holds of the part counter of a writer state at any time: it
    is not negative, and under the key of a columnar writer a state that
    has its counter has its buffer, so that the counter is never set
    back to 0. *)
Definition counter_ok (e : string * WriterState) : Prop :=
  0 <= default 0 (part (snd e)) /\
  forall sk sym fmt,
    fst e = writer_key_of sk sym fmt -> is_columnar fmt = true ->
    is_Some (part (snd e)) -> is_Some (buffer (snd e)).

(** A path is a numbered part of a writer of the map: part [q] of a
    writer whose counter has reached [q]. *)
Definition is_part (args : Args) (d : Writers) (f : string) : Prop :=
  exists sk sym fmt q,
    known_format fmt = true /\ f = part_path args sk sym fmt q /\
    1 <= q <= part_of (writer_key_of sk sym fmt) d.

(** The parts of every writer are allocated in the order of their
    numbers: when a part is allocated, the parts before it have been. *)
Definition in_order (args : Args) (allocs : list string) : Prop :=
  forall pre f post sk sym fmt q q',
    allocs = pre ++ f :: post ->
    known_format fmt = true -> f = part_path args sk sym fmt q ->
    1 <= q' < q -> part_path args sk sym fmt q' ∈ pre.

(** The parts of the writers are numbered: the part files allocated so
    far are, for every writer, its parts 1 to [n], [n] being its part
    counter, each allocated once and in this order. *)
Definition parts_numbered (args : Args) (s : FS) : Prop :=
  writers_ok (fst s) /\ Forall counter_ok (fst s) /\ distinct_keys (fst s) /\
  NoDup (allocations (trace (snd s))) /\
  in_order args (allocations (trace (snd s))) /\
  forall f, f ∈ allocations (trace (snd s)) <-> is_part args (fst s) f.

(** An event of the file sink: a call on a file, done or failed, or a
    log record of the file writer. *)
Definition file_event (e : Event) : bool :=
  match e with
  | Did c | Failed c =>
      match c with
      | Xadd _ _ | PrintCall _ => false
      | _ => true
      end
  | LogInfo (MsgRotated _) | LogInfo (MsgWroteBatch _) => true
  | LogError (MsgWriteError _) => true
  | _ => false
  end.

(** A computation of the sinks that adds only events accepted by [P]
    to the trace, whatever its outcome. *)
Definition adds_only {A} (P : Event -> bool) (m : M FS A) : Prop :=
  forall s,
    exists tl,
      trace (snd (snd (m s))) = trace (snd s) ++ tl /\
      Forall (fun e => P e = true) tl.

(** The entries appended to Redis streams that a trace records, in
    order: the name of the stream and the fields. *)
Definition appended_to_redis (tr : list Event) : list (string * Payload) :=
  omap (fun e => match e with Did (Xadd s p) => Some (s, p) | _ => None end) tr.

(** The number of tuples a trace records as marked done. *)
Definition marked_done (tr : list Event) : nat :=
  length (List.filter (fun e => match e with TaskDone => true | _ => false end) tr).

(** * Properties *)

(** Closes a goal [exists tl, l ++ ... = l ++ tl] once the trace on the
    left is written out. *)
Ltac extends_trace :=
  simpl; eexists; rewrite <- ?app_assoc; simpl; reflexivity.

(** ** The feed producer *)

Section ProducerFacts.

Variable symbol stream_type base_url : string.
Variable process_func : Json -> option Payload.
Variable stream_key : string.

Local Notation "'receive''" := (receive symbol process_func stream_key).
Local Notation "'produce''" :=
  (produce symbol stream_type base_url process_func stream_key).

Lemma receive_app args pre rest s :
  receive' args (pre ++ rest) s =
  match receive' args pre s with
  | (IterationEnded, s1) => receive' args rest s1
  | r => r
  end.
Proof.
  revert s. induction pre as [|m pre IH]; intros s; simpl.
  - by destruct (receive' args rest s) as [[] ?].
  - destruct m as [|data]; [done|].
    destruct (process_func data); [|done].
    destruct (samples_truthy args); [|apply IH].
    case_match; [done|apply IH].
Qed.

Lemma produce_step_raised args pre rest closing feed s :
  produce' args (Connects (pre ++ Undecodable :: rest) closing :: feed) s =
  match receive' args pre
          (p_record (LogInfo (MsgConnected (tag symbol stream_key)))
             (p_record (Connect (websocket_url symbol stream_type base_url) true) s)) with
  | (IterationEnded, s1) =>
      produce' args feed (reconnect_wait symbol stream_key DecodeFailure s1)
  | (Returned, s1) => (Finished, s1)
  | (Raised k, s1) => produce' args feed (reconnect_wait symbol stream_key k s1)
  end.
Proof.
  simpl. rewrite receive_app.
  by destruct (receive' args pre _) as [[] ?].
Qed.

Lemma same_pstate_record e1 e2 a b :
  forget_kind e1 = forget_kind e2 -> same_pstate a b ->
  same_pstate (p_record e1 a) (p_record e2 b).
Proof.
  intros He (Hc & Hq & Hf & Ht). repeat split; simpl; try done.
  rewrite !map_app. simpl. by rewrite He, Ht.
Qed.

Lemma same_pstate_reconnect k1 k2 a b :
  same_pstate a b ->
  same_pstate (reconnect_wait symbol stream_key k1 a)
    (reconnect_wait symbol stream_key k2 b).
Proof.
  intros H. unfold reconnect_wait.
  by repeat apply same_pstate_record.
Qed.

Lemma receive_same args msgs a b :
  same_pstate a b ->
  fst (receive' args msgs a) = fst (receive' args msgs b) /\
  same_pstate (snd (receive' args msgs a)) (snd (receive' args msgs b)).
Proof.
  revert a b. induction msgs as [|m msgs IH]; intros a b Hab; simpl; [done|].
  destruct m as [|data]; [done|].
  destruct (process_func data) as [payload|]; [|done].
  destruct Hab as (Hc & Hq & Hf & Ht).
  set (it := mkItem stream_key symbol payload).
  assert (Hput : same_pstate
            (mkPState (sample_count a) (put it (pqueue a)) (record (Enqueued it) (pworld a)))
            (mkPState (sample_count b) (put it (pqueue b)) (record (Enqueued it) (pworld b)))).
  { repeat split; simpl; try congruence. rewrite !map_app. by rewrite Ht. }
  destruct (samples_truthy args); [|by apply IH].
  simpl. rewrite Hc. case_match.
  - split; [done|].
    destruct Hput as (_ & Hq' & Hf' & Ht'). simpl in *.
    repeat split; simpl; try congruence.
    rewrite !map_app in *. simpl in *. congruence.
  - apply IH. destruct Hput as (_ & Hq' & Hf' & Ht'). simpl in *.
    repeat split; simpl; congruence.
Qed.

Lemma produce_same args feed a b :
  same_pstate a b -> same_handling (produce' args feed a) (produce' args feed b).
Proof.
  revert a b. induction feed as [|sess feed IH]; intros a b Hab; simpl.
  - by split.
  - destruct sess as [|msgs closing].
    + apply IH. apply same_pstate_reconnect. by apply same_pstate_record.
    + match goal with
      | |- context [receive' args msgs ?x] => set (a1 := x)
      end.
      match goal with
      | |- context [receive' args msgs (p_record ?e1 (p_record ?e2 b))] =>
          set (b1 := p_record e1 (p_record e2 b))
      end.
      assert (H1 : same_pstate a1 b1) by (by repeat apply same_pstate_record).
      destruct (receive_same args msgs a1 b1 H1) as [He Hs].
      destruct (receive' args msgs a1) as [ea sa], (receive' args msgs b1) as [eb sb].
      simpl in *. subst eb. destruct ea.
      * by split.
      * destruct closing; [by apply IH| |by split].
        apply IH. by apply same_pstate_reconnect.
      * apply IH. by apply same_pstate_reconnect.
Qed.

Lemma receive_trace_extends args msgs s :
  exists tl, trace (pworld (snd (receive' args msgs s))) = trace (pworld s) ++ tl.
Proof.
  revert s. induction msgs as [|m msgs IH]; intros s; simpl.
  - exists []. by rewrite app_nil_r.
  - destruct m as [|data]; [exists []; by rewrite app_nil_r|].
    destruct (process_func data) as [payload|]; [|exists []; by rewrite app_nil_r].
    destruct (samples_truthy args).
    + case_match.
      * eexists. simpl. by rewrite <- app_assoc.
      * edestruct IH as [tl ->]. eexists. simpl. by rewrite <- app_assoc.
    + edestruct IH as [tl ->]. eexists. simpl. by rewrite <- app_assoc.
Qed.

Lemma produce_trace_extends args feed s :
  exists tl, trace (pworld (snd (produce' args feed s))) = trace (pworld s) ++ tl.
Proof.
  revert s. induction feed as [|sess feed IH]; intros s; simpl.
  - exists []. by rewrite app_nil_r.
  - destruct sess as [|msgs closing].
    + edestruct IH as [tl ->]. extends_trace.
    + match goal with
      | |- context [receive' args msgs ?x] =>
          destruct (receive_trace_extends args msgs x) as [tl0 H0];
          destruct (receive' args msgs x) as [e s1]
      end.
      simpl in H0.
      destruct e; [|destruct closing|];
        try (edestruct IH as [tl ->]); simpl; rewrite ?H0; extends_trace.
Qed.

Lemma produce_first_connects args sess feed s :
  exists ok tl,
    trace (pworld (snd (produce' args (sess :: feed) s))) =
    trace (pworld s) ++
      Connect (websocket_url symbol stream_type base_url) ok :: tl.
Proof.
  simpl. destruct sess as [|msgs closing].
  - edestruct produce_trace_extends as [tl ->]. exists false. extends_trace.
  - match goal with
    | |- context [receive' args msgs ?x] =>
        destruct (receive_trace_extends args msgs x) as [tl0 H0];
        destruct (receive' args msgs x) as [e s1]
    end.
    simpl in H0. exists true.
    destruct e; [|destruct closing|];
      try (edestruct produce_trace_extends as [tl ->]);
      simpl; rewrite ?H0; extends_trace.
Qed.

Lemma samples_truthy_cap K args :
  samples args = Some K -> 0 < K ->
  samples_truthy args = true /\ samples_value args = K.
Proof.
  intros H ?. unfold samples_truthy, samples_value. rewrite H. simpl.
  split; [|done]. apply negb_true_iff. lia.
Qed.

(** Without a cap the loop never returns, and it only appends to the
    queue. *)
Lemma receive_uncapped args msgs s :
  samples_truthy args = false ->
  fst (receive' args msgs s) <> Returned /\
  sample_count (snd (receive' args msgs s)) = sample_count s /\
  exists new,
    items (pqueue (snd (receive' args msgs s))) = items (pqueue s) ++ new /\
    unfinished (pqueue (snd (receive' args msgs s))) =
    unfinished (pqueue s) + Z.of_nat (length new).
Proof.
  intros Hno. revert s. induction msgs as [|m msgs IH]; intros s; simpl.
  - repeat split; [done|]. exists []. rewrite app_nil_r. simpl. split; [done|lia].
  - destruct m as [|data].
    { repeat split; [done|]. exists []. rewrite app_nil_r. simpl. split; [done|lia]. }
    destruct (process_func data) as [payload|].
    2:{ repeat split; [done|]. exists []. rewrite app_nil_r. simpl. split; [done|lia]. }
    rewrite Hno.
    match goal with |- context [receive' args msgs ?x] => specialize (IH x) end.
    destruct IH as (He & Hc & new & Hi & Hu). simpl in *.
    repeat split; [done..|].
    eexists (_ :: new). rewrite Hi, Hu, <- app_assoc. simpl. split; [done|lia].
Qed.

Lemma produce_uncapped args feed s :
  samples_truthy args = false ->
  fst (produce' args feed s) = Running /\
  exists new,
    items (pqueue (snd (produce' args feed s))) = items (pqueue s) ++ new.
Proof.
  intros Hno. revert s. induction feed as [|sess feed IH]; intros s; simpl.
  - split; [done|]. exists []. by rewrite app_nil_r.
  - destruct sess as [|msgs closing].
    { match goal with
      | |- context [produce' args feed ?x] => destruct (IH x) as (Hs & new & Hi)
      end.
      split; [done|]. by exists new. }
    match goal with
    | |- context [receive' args msgs ?x] =>
        destruct (receive_uncapped args msgs x Hno) as (He & _ & new & Hi & _);
        destruct (receive' args msgs x) as [e s1]
    end.
    simpl in *.
    destruct e; [done|destruct closing|];
      try (match goal with
           | |- context [produce' args feed ?x] =>
               destruct (IH x) as (Hs & new' & Hi')
           end;
           split; [done|]; exists (new ++ new'); rewrite Hi'; simpl;
           rewrite Hi; by rewrite <- app_assoc).
    split; [done|]. by exists new.
Qed.

(** The loop under a cap [K], against the same loop without a cap: it
    enqueues the same tuples until the [K]th, and returns there. *)
Lemma receive_capped K args msgs s su :
  samples args = Some K -> 0 < K ->
  pqueue su = pqueue s -> 0 <= sample_count s < K ->
  let r := receive' args msgs s in
  let ru := receive' (with_samples None args) msgs su in
  exists new,
    items (pqueue (snd ru)) = items (pqueue s) ++ new /\
    if decide (K - sample_count s <= Z.of_nat (length new)) then
      fst r = Returned /\
      items (pqueue (snd r)) =
        items (pqueue s) ++ take (Z.to_nat (K - sample_count s)) new /\
      sample_count (snd r) = K
    else
      fst r = fst ru /\ fst r <> Returned /\
      pqueue (snd r) = pqueue (snd ru) /\
      sample_count (snd r) = sample_count s + Z.of_nat (length new).
Proof.
  intros HK Hpos. destruct (samples_truthy_cap K args HK Hpos) as [Ht Hv].
  revert s su. induction msgs as [|m msgs IH]; intros s su Hq Hc; simpl.
  - exists []. rewrite app_nil_r. simpl. split; [by rewrite Hq|].
    case_decide; [lia|]. repeat split; try done. lia.
  - destruct m as [|data].
    { exists []. rewrite app_nil_r. simpl. split; [by rewrite Hq|].
      case_decide; [lia|]. repeat split; try done. lia. }
    destruct (process_func data) as [payload|].
    2:{ exists []. rewrite app_nil_r. simpl. split; [by rewrite Hq|].
        case_decide; [lia|]. repeat split; try done. lia. }
    rewrite Ht, Hv. simpl.
    set (it := mkItem stream_key symbol payload).
    set (su1 := mkPState (sample_count su) (put it (pqueue su))
                  (record (Enqueued it) (pworld su))).
    destruct (Z.geb_spec (sample_count s + 1) K) as [Hge|Hlt].
    + destruct (receive_uncapped (with_samples None args) msgs su1 eq_refl)
        as (_ & _ & new & Hi & _).
      exists (it :: new). split.
      { rewrite Hi. simpl. rewrite Hq, <- app_assoc. done. }
      simpl. case_decide; [|lia].
      repeat split; simpl; [|lia].
      replace (Z.to_nat (K - sample_count s)) with 1%nat by lia. done.
    + set (s1 := mkPState (sample_count s + 1) (put it (pqueue s))
                   (record (Enqueued it) (pworld s))).
      destruct (IH s1 su1) as (new & Hi & Hcase).
      { simpl. by rewrite Hq. }
      { simpl. lia. }
      exists (it :: new). split.
      { rewrite Hi. simpl. by rewrite <- app_assoc. }
      simpl in Hcase |- *.
      case_decide as Hd1; case_decide as Hd2; try lia.
      * destruct Hcase as (He & Hit & Hcnt). repeat split; [done| |done].
        rewrite Hit, <- app_assoc. simpl.
        replace (Z.to_nat (K - sample_count s))
          with (S (Z.to_nat (K - (sample_count s + 1)))) by lia.
        done.
      * destruct Hcase as (He & Hne & Hqq & Hcnt). repeat split; try done. lia.
Qed.

Lemma produce_capped K args feed s su :
  samples args = Some K -> 0 < K ->
  pqueue su = pqueue s -> 0 <= sample_count s < K ->
  let r := produce' args feed s in
  let ru := produce' (with_samples None args) feed su in
  exists new,
    items (pqueue (snd ru)) = items (pqueue s) ++ new /\
    if decide (K - sample_count s <= Z.of_nat (length new)) then
      fst r = Finished /\
      items (pqueue (snd r)) =
        items (pqueue s) ++ take (Z.to_nat (K - sample_count s)) new /\
      sample_count (snd r) = K
    else
      fst r = Running /\
      pqueue (snd r) = pqueue (snd ru) /\
      sample_count (snd r) = sample_count s + Z.of_nat (length new).
Proof.
  intros HK Hpos.
  revert s su. induction feed as [|sess feed IH]; intros s su Hq Hc; simpl.
  - exists []. rewrite app_nil_r. simpl. split; [by rewrite Hq|].
    case_decide; [lia|]. repeat split; try done. lia.
  - destruct sess as [|msgs closing].
    { match goal with
      | |- context [produce' args feed ?x] => set (s1 := x)
      end.
      match goal with
      | |- context [produce' (with_samples None args) feed ?x] => set (su1 := x)
      end.
      destruct (IH s1 su1) as (new & Hi & Hcase); [done..|].
      exists new. by split. }
    cbn zeta.
    match goal with
    | |- context [receive' args msgs ?x] => set (s1 := x)
    end.
    match goal with
    | |- context [receive' (with_samples None args) msgs ?x] => set (su1 := x)
    end.
    destruct (receive_capped K args msgs s1 su1 HK Hpos) as (new & Hi & Hcase);
      [done..|].
    simpl in Hi, Hcase.
    destruct (receive' args msgs s1) as [e s2] eqn:Hr,
             (receive' (with_samples None args) msgs su1) as [eu su2] eqn:Hru.
    simpl in Hi, Hcase.
    case_decide as Hd.
    + (* the cap is reached on this connection *)
      destruct Hcase as (-> & Hit & Hcnt).
      assert (Hmore : exists more,
                 items (pqueue (snd
                   match eu with
                   | Returned => (Finished, su2)
                   | IterationEnded =>
                       match closing with
                       | ClosedOK => produce' (with_samples None args) feed su2
                       | ClosedError =>
                           produce' (with_samples None args) feed
                             (reconnect_wait symbol stream_key ConnectionFailure su2)
                       | StillOpen => (Running, su2)
                       end
                   | Raised k =>
                       produce' (with_samples None args) feed
                         (reconnect_wait symbol stream_key k su2)
                   end)) = items (pqueue su2) ++ more).
      { destruct eu; [exists []; by rewrite app_nil_r|destruct closing|];
          try (match goal with
               | |- context [produce' ?a feed ?x] =>
                   destruct (produce_uncapped a feed x eq_refl) as (_ & more & Hm)
               end; by exists more).
        exists []. by rewrite app_nil_r. }
      destruct Hmore as (more & Hm).
      exists (new ++ more). split.
      { rewrite Hm, Hi. by rewrite <- app_assoc. }
      rewrite length_app. case_decide; [|lia].
      repeat split; simpl; [|done].
      rewrite Hit. f_equal. rewrite take_app_le by lia. done.
    + destruct Hcase as (-> & Hne & Hqq & Hcnt).
      destruct eu; [done|destruct closing|].
      4:{ match goal with
          | |- context [produce' args feed ?x] => set (s3 := x)
          end.
          match goal with
          | |- context [produce' (with_samples None args) feed ?x] => set (su3 := x)
          end.
          destruct (IH s3 su3) as (new' & Hi' & Hcase').
          { simpl. by rewrite Hqq. }
          { simpl. lia. }
          simpl in Hi', Hcase'.
          exists (new ++ new'). split.
          { rewrite Hi', Hqq, Hi. by rewrite <- app_assoc. }
          rewrite length_app. rewrite Hcnt in Hcase'.
          case_decide as Hd1; case_decide as Hd2; try lia.
          - destruct Hcase' as (-> & Hit' & Hcnt'). repeat split; [|done].
            rewrite Hit', Hqq, Hi, <- app_assoc. f_equal.
            rewrite take_app_ge by lia. f_equal. f_equal. lia.
          - destruct Hcase' as (-> & Hqq' & Hcnt'). repeat split; [done|]. lia. }
      3:{ exists new. split; [done|]. case_decide; [lia|]. by repeat split. }
      * destruct (IH s2 su2) as (new' & Hi' & Hcase'); [done|lia|].
        exists (new ++ new'). split.
        { rewrite Hi', Hqq, Hi. by rewrite <- app_assoc. }
        rewrite length_app. rewrite Hcnt in Hcase'.
        case_decide as Hd1; case_decide as Hd2; try lia.
        -- destruct Hcase' as (-> & Hit' & Hcnt'). repeat split; [|done].
           rewrite Hit', Hqq, Hi, <- app_assoc. f_equal.
           rewrite take_app_ge by lia. f_equal. f_equal. lia.
        -- destruct Hcase' as (-> & Hqq' & Hcnt'). repeat split; [done|]. lia.
      * match goal with
        | |- context [produce' args feed ?x] => set (s3 := x)
        end.
        match goal with
        | |- context [produce' (with_samples None args) feed ?x] => set (su3 := x)
        end.
        destruct (IH s3 su3) as (new' & Hi' & Hcase').
        { simpl. by rewrite Hqq. }
        { simpl. lia. }
        simpl in Hi', Hcase'.
        exists (new ++ new'). split.
        { rewrite Hi', Hqq, Hi. by rewrite <- app_assoc. }
        rewrite length_app. rewrite Hcnt in Hcase'.
        case_decide as Hd1; case_decide as Hd2; try lia.
        -- destruct Hcase' as (-> & Hit' & Hcnt'). repeat split; [|done].
           rewrite Hit', Hqq, Hi, <- app_assoc. f_equal.
           rewrite take_app_ge by lia. f_equal. f_equal. lia.
        -- destruct Hcase' as (-> & Hqq' & Hcnt'). repeat split; [done|]. lia.
Qed.

(** Without a cap the loop takes every sample of the connection. *)
Lemma receive_uncapped_accepts args msgs s :
  samples_truthy args = false ->
  let r := receive' args msgs s in
  items (pqueue (snd r)) =
    items (pqueue s) ++
      map (mkItem stream_key symbol) (fst (accepted process_func msgs)) /\
  (fst r = IterationEnded <-> snd (accepted process_func msgs) = true).
Proof.
  intros Hno. revert s. induction msgs as [|m msgs IH]; intros s; simpl.
  - by rewrite app_nil_r.
  - destruct m as [|data]; [by rewrite app_nil_r|].
    destruct (process_func data) as [payload|]; [|by rewrite app_nil_r].
    rewrite Hno.
    match goal with |- context [receive' args msgs ?x] => specialize (IH x) end.
    cbv zeta in IH. destruct IH as (Hi & Hend). simpl in *.
    split; [|done]. by rewrite Hi, <- app_assoc.
Qed.

(** Without a cap the producer enqueues the samples the feed offers. *)
Lemma produce_uncapped_offered args feed s :
  samples_truthy args = false ->
  items (pqueue (snd (produce' args feed s))) =
  items (pqueue s) ++ map (mkItem stream_key symbol) (offered process_func feed).
Proof.
  intros Hno. revert s. induction feed as [|sess feed IH]; intros s; simpl.
  - by rewrite app_nil_r.
  - destruct sess as [|msgs closing]; [by rewrite IH|].
    match goal with
    | |- context [receive' args msgs ?x] =>
        pose proof (receive_uncapped_accepts args msgs x Hno) as Hr;
        pose proof (receive_uncapped args msgs x Hno) as (Hne & _)
    end.
    cbv zeta in Hr. destruct Hr as (Hi & Hend).
    destruct (receive' args msgs _) as [e s1]. simpl in *.
    rewrite map_app, app_assoc, <- Hi.
    destruct e; [done| |].
    + rewrite (proj1 Hend eq_refl).
      destruct closing; rewrite ?IH; unfold reconnect_wait, p_record; simpl;
        by rewrite ?app_nil_r.
    + destruct (snd (accepted process_func msgs)) eqn:Ha.
      { discriminate (proj2 Hend eq_refl). }
      rewrite IH. by unfold reconnect_wait, p_record.
Qed.

(** The loop returns right after the put of a tuple and the log record
    of the cap. *)
Lemma receive_returned args msgs s :
  fst (receive' args msgs s) = Returned ->
  exists it tr,
    trace (pworld (snd (receive' args msgs s))) =
      tr ++ [Enqueued it;
             LogInfo (MsgSampleLimit (tag symbol stream_key) (samples_value args))] /\
    last (items (pqueue (snd (receive' args msgs s)))) = Some it.
Proof.
  revert s. induction msgs as [|m msgs IH]; intros s; simpl; [done|].
  destruct m as [|data]; [done|].
  destruct (process_func data) as [payload|]; [|done].
  destruct (samples_truthy args); [|apply IH].
  case_match; [|apply IH].
  intros _. simpl. eexists _, _. rewrite <- app_assoc. split; [done|].
  by rewrite last_snoc.
Qed.

Lemma produce_finished args feed s :
  fst (produce' args feed s) = Finished ->
  exists it tr,
    trace (pworld (snd (produce' args feed s))) =
      tr ++ [Enqueued it;
             LogInfo (MsgSampleLimit (tag symbol stream_key) (samples_value args))] /\
    last (items (pqueue (snd (produce' args feed s)))) = Some it.
Proof.
  revert s. induction feed as [|sess feed IH]; intros s; simpl; [done|].
  destruct sess as [|msgs closing]; [apply IH|].
  match goal with
  | |- context [receive' args msgs ?x] =>
      pose proof (receive_returned args msgs x) as Hr;
      destruct (receive' args msgs x) as [e s1]
  end.
  simpl in Hr. destruct e; [intros _; by apply Hr|destruct closing|];
    try apply IH. done.
Qed.

(** C5. With a sample cap [K] of at least one, the producer enqueues
    exactly the first [K] samples the feed offers, as tuples of its stream
    key and symbol, in order: never more than [K]; the feed offers what
    the same producer enqueues without a cap.  It finishes exactly when
    the feed offers [K] samples or more, with its counter at [K], and the
    last things it does are the put of the [K]th tuple and the log record
    of the cap; with fewer samples it enqueues them all, counts them,
    and is still running. *)
Theorem sample_cap_exact K args feed q w :
  samples args = Some K -> 0 < K ->
  let r :=
    stream_producer symbol stream_type base_url process_func stream_key
      args feed q w in
  let free :=
    stream_producer symbol stream_type base_url process_func stream_key
      (with_samples None args) feed q w in
  let samples := map (mkItem stream_key symbol) (offered process_func feed) in
  enqueued_since q (snd free) = samples /\
  enqueued_since q (snd r) = take (Z.to_nat K) samples /\
  items (pqueue (snd r)) = items q ++ take (Z.to_nat K) samples /\
  sample_count (snd r) = Z.min K (Z.of_nat (length samples)) /\
  (fst r = Finished <-> K <= Z.of_nat (length samples)) /\
  (fst r = Running <-> Z.of_nat (length samples) < K) /\
  (fst r = Finished ->
   exists it tr,
     samples !! Z.to_nat (K - 1) = Some it /\
     trace (pworld (snd r)) =
       tr ++ [Enqueued it; LogInfo (MsgSampleLimit (tag symbol stream_key) K)]).
Proof.
  intros HK Hpos r free samples.
  assert (Hfree : items (pqueue (snd free)) = items q ++ samples).
  { unfold free, stream_producer. by rewrite produce_uncapped_offered. }
  pose proof (produce_finished args feed
                (mkPState 0 q
                   (record (LogInfo (MsgProducerStarting (tag symbol stream_key)
                                       (websocket_url symbol stream_type base_url)))
                      w))) as Hfin.
  fold (stream_producer symbol stream_type base_url process_func stream_key args
          feed q w) in Hfin. fold r in Hfin.
  destruct (samples_truthy_cap K args HK Hpos) as [_ Hv]. rewrite Hv in Hfin.
  revert Hfree Hfin. unfold r, free, stream_producer, enqueued_since.
  match goal with
  | |- context [produce' args feed ?x] => set (s0 := x)
  end.
  destruct (produce_capped K args feed s0 s0 HK Hpos) as (new & Hi & Hcase);
    [done|simpl; lia|].
  simpl in Hi, Hcase. rewrite Hi. intros Hnew%app_inv_head. subst new.
  rewrite drop_app_length.
  rewrite Z.sub_0_r in Hcase.
  case_decide as Hd.
  - destruct Hcase as (Hf & Hit & Hcnt). rewrite Hit, drop_app_length, Hf, Hcnt.
    intros Hfin. destruct (Hfin eq_refl) as (it & tr & Htr & Hlast).
    repeat split; try done; try lia.
    intros _. exists it, tr. split; [|done].
    rewrite last_app in Hlast.
    assert (Hlen : length (take (Z.to_nat K) samples) = Z.to_nat K)
      by (rewrite length_take; lia).
    destruct (last (take (Z.to_nat K) samples)) as [x|] eqn:Hl.
    + injection Hlast as ->. rewrite last_lookup, Hlen in Hl.
      rewrite lookup_take_lt in Hl by lia.
      rewrite <- Hl. f_equal. lia.
    + apply last_None in Hl. rewrite Hl in Hlen. simpl in Hlen. lia.
  - destruct Hcase as (Hf & Hqq & Hcnt). rewrite Hqq, Hi, drop_app_length, Hf.
    rewrite take_ge by lia. intros _.
    repeat split; try done; try lia.
Qed.

(** C10. A message that fails to decode is not skipped.  When the
    messages [pre] before it were all accepted, the run abandons the
    connection (the messages [rest] behind it and the way the connection
    would have closed play no part), logs the error, sleeps 5 and goes on
    with the next connection attempt of the feed; and the run ends in
    the same status, queue, sample count and trace (the kind of error in
    the log record apart) as the run in which the connection drops after
    [pre]. *)
Theorem decode_failure_reconnects args pre rest closing feed s s1 :
  receive' args pre
    (p_record (LogInfo (MsgConnected (tag symbol stream_key)))
       (p_record (Connect (websocket_url symbol stream_type base_url) true) s))
  = (IterationEnded, s1) ->
  let run :=
    produce' args (Connects (pre ++ Undecodable :: rest) closing :: feed) s in
  let waited :=
    mkPState (sample_count s1) (pqueue s1)
      (mkWorld (files (pworld s1))
         (trace (pworld s1) ++
            [LogError (MsgProducerError (tag symbol stream_key) DecodeFailure);
             Sleep 5])) in
  run = produce' args feed waited /\
  (forall sess feed', feed = sess :: feed' ->
     exists ok tl,
       trace (pworld (snd run)) =
       trace (pworld waited) ++
         Connect (websocket_url symbol stream_type base_url) ok :: tl) /\
  same_handling run (produce' args (Connects pre ClosedError :: feed) s).
Proof.
  intros Hpre run waited.
  assert (Hrun : run = produce' args feed waited).
  { unfold run. rewrite produce_step_raised, Hpre.
    unfold reconnect_wait, p_record, record, waited. simpl.
    by rewrite <- app_assoc. }
  split; [done|]. split.
  - intros sess feed' ->. rewrite Hrun. apply produce_first_connects.
  - rewrite Hrun. simpl. rewrite Hpre.
    apply produce_same. unfold waited, reconnect_wait, p_record, record.
    repeat split; simpl; try done.
    rewrite <- app_assoc. by rewrite !map_app.
Qed.

End ProducerFacts.

Lemma decode_failure_reconnects_witness :
  let a := mkArgs None false false false [] "data" "1m" false in
  let m := Decoded (JDict [("p", JStr "1")]) in
  let s0 := mkPState 0 empty_queue (mkWorld ∅ []) in
  same_handling
    (produce "BTCUSDT" "@aggTrade" PROD_BASE_URL process_trade_payload "trades" a
       [Connects ([m] ++ Undecodable :: [m]) StillOpen; Connects [] StillOpen] s0)
    (produce "BTCUSDT" "@aggTrade" PROD_BASE_URL process_trade_payload "trades" a
       [Connects [m] ClosedError; Connects [] StillOpen] s0).
Proof.
  intros a m s0.
  eapply (decode_failure_reconnects "BTCUSDT" "@aggTrade" PROD_BASE_URL
            process_trade_payload "trades" a [m] [m] StillOpen
            [Connects [] StillOpen] s0).
  vm_compute. reflexivity.
Defined.

Lemma sample_cap_exact_witness :
  let a := mkArgs (Some 2) false false false [] "data" "1m" false in
  let m (price : string) := Decoded (JDict [("p", JStr price)]) in
  let r :=
    stream_producer "BTCUSDT" "@aggTrade" PROD_BASE_URL process_trade_payload
      "trades" a
      [Connects [m "1"; Undecodable; m "2"] ClosedOK;
       Connects [m "3"; m "4"; m "5"] StillOpen]
      empty_queue (mkWorld ∅ []) in
  fst r = Finished /\
  map (fun it => pget (item_payload it) "price") (items (pqueue (snd r))) =
    [PyRaw (JStr "1"); PyRaw (JStr "3")].
Proof.
  intros a m r.
  assert (H1 : samples a = Some 2) by reflexivity.
  assert (H2 : 0 < 2) by lia.
  pose proof (sample_cap_exact "BTCUSDT" "@aggTrade" PROD_BASE_URL
                process_trade_payload "trades" 2 a
                [Connects [m "1"; Undecodable; m "2"] ClosedOK;
                 Connects [m "3"; m "4"; m "5"] StillOpen]
                empty_queue (mkWorld ∅ []) H1 H2) as H.
  cbv zeta in H. destruct H as (_ & _ & Hitems & _ & Hfin & _).
  split.
  - apply Hfin. vm_compute. discriminate.
  - unfold r. rewrite Hitems. reflexivity.
Defined.

(** ** Strings *)

Lemma string_app_cons (x : ascii) (a b : string) :
  String x a +:+ b = String x (a +:+ b).
Proof. reflexivity. Qed.

Lemma string_app_nil_l (b : string) : "" +:+ b = b.
Proof. reflexivity. Qed.

Lemma string_app_nil_r (s : string) : s +:+ "" = s.
Proof.
  induction s as [|a s IH]; [done|]. by rewrite string_app_cons, IH.
Qed.

Lemma string_app_assoc (a b c : string) : (a +:+ b) +:+ c = a +:+ b +:+ c.
Proof.
  induction a as [|x a IH]; [done|]. by rewrite !string_app_cons, IH.
Qed.

Lemma string_app_length (a b : string) :
  String.length (a +:+ b) = (String.length a + String.length b)%nat.
Proof.
  induction a as [|x a IH]; [done|]. rewrite string_app_cons. simpl. by rewrite IH.
Qed.

Lemma string_app_inj_r (a b c : string) : a +:+ c = b +:+ c -> a = b.
Proof.
  revert b. induction a as [|x a IH]; intros [|y b] H.
  - done.
  - apply (f_equal String.length) in H.
    rewrite string_app_nil_l, string_app_cons in H. simpl in H.
    rewrite string_app_length in H. lia.
  - apply (f_equal String.length) in H.
    rewrite string_app_nil_l, string_app_cons in H. simpl in H.
    rewrite string_app_length in H. lia.
  - rewrite !string_app_cons in H. injection H as -> H. f_equal. by apply IH.
Qed.

Lemma substring_all (b : string) : String.substring 0 (String.length b) b = b.
Proof. induction b as [|y b IH]; simpl; [done|by rewrite IH]. Qed.

Lemma substring_drop_prefix (a b : string) :
  String.substring (String.length a) (String.length b) (a +:+ b) = b.
Proof.
  induction a as [|x a IH].
  - rewrite string_app_nil_l. apply substring_all.
  - rewrite string_app_cons. simpl. apply IH.
Qed.

Lemma substring_take_prefix (a b : string) :
  String.substring 0 (String.length a) (a +:+ b) = a.
Proof.
  induction a as [|x a IH].
  - rewrite string_app_nil_l. simpl. by destruct b.
  - rewrite string_app_cons. simpl. by rewrite IH.
Qed.

Lemma endswith_app (a b : string) : PyStr.endswith (a +:+ b) b = true.
Proof.
  unfold PyStr.endswith. rewrite string_app_length.
  destruct (Nat.leb_spec (String.length b) (String.length a + String.length b));
    [|lia].
  replace (String.length a + String.length b - String.length b)%nat
    with (String.length a) by lia.
  rewrite substring_drop_prefix. apply String.eqb_refl.
Qed.

Lemma substring_skip_prefix (a b : string) (n m : nat) :
  String.substring (String.length a + n) m (a +:+ b) = String.substring n m b.
Proof.
  induction a as [|x a IH]; [done|]. rewrite string_app_cons. simpl. apply IH.
Qed.

Lemma rfind_app (c : ascii) (a b : string) :
  PyStr.rfind c (a +:+ b) =
  match PyStr.rfind c b with
  | Some i => Some (String.length a + i)%nat
  | None => PyStr.rfind c a
  end.
Proof.
  induction a as [|x a IH].
  - rewrite string_app_nil_l. by destruct (PyStr.rfind c b).
  - rewrite string_app_cons. simpl. rewrite IH.
    by destruct (PyStr.rfind c b).
Qed.

Lemma rfind_lt (c : ascii) (s : string) (i : nat) :
  PyStr.rfind c s = Some i -> (i < String.length s)%nat.
Proof.
  revert i. induction s as [|a s IH]; intros i; simpl; [done|].
  destruct (PyStr.rfind c s) as [j|].
  - intros [= <-]. specialize (IH j eq_refl). lia.
  - destruct (Ascii.eqb a c); [|done]. intros [= <-]. lia.
Qed.

Lemma rsplit1_join (c : ascii) (s : string) (i : nat) :
  PyStr.rfind c s = Some i ->
  s = String.substring 0 i s +:+
      String c (String.substring (S i) (String.length s - S i) s).
Proof.
  revert i. induction s as [|a s IH]; intros i; simpl; [done|].
  destruct (PyStr.rfind c s) as [j|] eqn:Hj.
  - intros [= <-]. rewrite string_app_cons. f_equal. by apply IH.
  - destruct (Ascii.eqb_spec a c) as [->|]; [|done]. intros [= <-].
    rewrite string_app_nil_l, Nat.sub_0_r. by rewrite substring_all.
Qed.

Lemma lower_ascii_idemp (c : ascii) :
  PyStr.lower_ascii (PyStr.lower_ascii c) = PyStr.lower_ascii c.
Proof. by destruct c as [[] [] [] [] [] [] [] []]. Qed.

Lemma lower_idemp (s : string) : PyStr.lower (PyStr.lower s) = PyStr.lower s.
Proof.
  induction s as [|a s IH]; simpl; [done|]. by rewrite lower_ascii_idemp, IH.
Qed.

Lemma lower_substring (n m : nat) (s : string) :
  PyStr.lower (String.substring n m s) = String.substring n m (PyStr.lower s).
Proof.
  revert n m.
  induction s as [|a s IH]; intros [|n] [|m]; simpl; rewrite ?IH; done.
Qed.

Lemma lower_length (s : string) : String.length (PyStr.lower s) = String.length s.
Proof. induction s as [|a s IH]; simpl; [done|by rewrite IH]. Qed.

Lemma lower_key (sk sym : string) :
  PyStr.lower (sk +:+ String "_" (PyStr.lower sym)) =
  PyStr.lower sk +:+ String "_" (PyStr.lower sym).
Proof.
  induction sk as [|x s IH].
  - rewrite !string_app_nil_l. simpl. by rewrite lower_idemp.
  - rewrite string_app_cons. simpl. rewrite string_app_cons. f_equal. apply IH.
Qed.

Lemma substring_lower_prefix (a b : string) (n m : nat) :
  String.substring (String.length a + n) m (PyStr.lower a +:+ b) =
  String.substring n m b.
Proof. rewrite <- (lower_length a). apply substring_skip_prefix. Qed.

(** The key of a columnar writer splits back into a stream key, a
    symbol and the format, and these rebuild the same file names. *)
Lemma rsplit2_writer_key (sk sym fmt : string) :
  PyStr.rfind "_" fmt = None ->
  exists a b,
    PyStr.rsplit2 "_" (writer_key_of sk sym fmt) = [a; b; fmt] /\
    a +:+ "_" +:+ PyStr.lower b = sk +:+ "_" +:+ PyStr.lower sym.
Proof.
  intros Hfmt. unfold writer_key_of.
  set (X := sk +:+ "_" +:+ PyStr.lower sym).
  replace (sk +:+ "_" +:+ PyStr.lower sym +:+ "_" +:+ fmt)
    with (X +:+ String "_" fmt).
  2:{ unfold X. by rewrite !string_app_assoc. }
  assert (H1 : PyStr.rsplit1 "_" (X +:+ String "_" fmt) = [X; fmt]).
  { unfold PyStr.rsplit1. rewrite rfind_app. simpl. rewrite Hfmt. simpl.
    rewrite Nat.add_0_r, substring_take_prefix. f_equal. f_equal.
    rewrite string_app_length. simpl.
    replace (S (String.length X)) with (String.length X + 1)%nat by lia.
    rewrite substring_skip_prefix. simpl.
    replace (String.length X + S (String.length fmt) - (String.length X + 1))%nat
      with (String.length fmt) by lia.
    apply substring_all. }
  unfold PyStr.rsplit2. rewrite H1.
  assert (H2 : exists j, PyStr.rfind "_" X = Some (String.length sk + j)%nat /\
                 PyStr.rfind "_" (String "_" (PyStr.lower sym)) = Some j).
  { unfold X. replace (sk +:+ "_" +:+ PyStr.lower sym)
      with (sk +:+ String "_" (PyStr.lower sym)) by done.
    rewrite rfind_app.
    destruct (PyStr.rfind "_" (String "_" (PyStr.lower sym))) as [j|] eqn:Hj.
    - by exists j.
    - simpl in Hj. by destruct (PyStr.rfind "_" (PyStr.lower sym)). }
  destruct H2 as (j & HX & Hj).
  unfold PyStr.rsplit1. rewrite HX. simpl.
  eexists _, _. split; [reflexivity|].
  pose proof (rsplit1_join _ _ _ HX) as Hjoin.
  rewrite lower_substring.
  (* the part behind the last underscore lies within the lowered symbol *)
  assert (HX' : X = sk +:+ String "_" (PyStr.lower sym)) by done.
  assert (Hb : String.substring (S (String.length sk + j))
                 (String.length X - S (String.length sk + j)) (PyStr.lower X) =
               String.substring (S (String.length sk + j))
                 (String.length X - S (String.length sk + j)) X).
  { replace (S (String.length sk + j)) with (String.length sk + S j)%nat by lia.
    generalize (String.length X - (String.length sk + S j))%nat. intros m.
    rewrite HX', lower_key, substring_lower_prefix, substring_skip_prefix.
    done. }
  rewrite Hb. symmetry. exact Hjoin.
Qed.

(** ** The file writer: one call *)

Lemma append_to_lookup (f : string) (cs : list Chunk) (fs : gmap string (list Chunk)) :
  append_to f cs fs !! f = Some (default [] (fs !! f) ++ cs).
Proof. unfold append_to. apply lookup_insert_eq. Qed.

Lemma append_to_present (f : string) (cs old : list Chunk)
    (fs : gmap string (list Chunk)) :
  fs !! f = Some old -> append_to f cs fs = <[f := old ++ cs]> fs.
Proof. intros H. unfold append_to. by rewrite H. Qed.

(** Unfolds the monad of the writer on a state given by its fields. *)
Ltac run_writer :=
  repeat
    (progress
       (unfold ws_get, ws_set, ws_io, ws_item, ws_log, bind, gets, modify, ret,
          raise, io, log, try_except, no_faults, record;
        cbn -[String.append PyStr.lower PyStr.of_int Z.add Z.geb Z.of_nat
              BATCH_SIZE_FOR_COLUMNAR FILE_ROTATION_LINE_COUNT length app])).

(** Brings the file system and the trace of the two sides to the same
    shape. *)
Ltac finish_writer :=
  unfold append_to, csv_row;
  repeat (rewrite ?lookup_insert_eq, ?insert_insert_eq; simpl);
  rewrite <- ?app_assoc; simpl; try done.

Section FileWriterFacts.

Variable args : Args.
Variable sk sym : string.

Local Notation "'body'" := (write_body no_faults args sk sym).

(** A line-JSON writer with no open handle opens the next part and
    writes its first line. *)
Lemma write_json_closed (st : WriterState) (w : World) (p : Payload) :
  handle st = None ->
  let n := default 0 (part st) + 1 in
  let f := line_path args sk sym n "json" in
  body p "json" (st, w) =
  (Ok tt,
   (mkState (buffer st) (Some n) (Some f) (Some 1) (writer st) (header st),
    mkWorld (append_to f [JsonLine p] (files w))
      (trace w ++ [Did (OpenAppend f); Did (WriteChunk f (JsonLine p));
                   Did (FlushHandle f)]))).
Proof.
  destruct st as [b pt h l wr hd]. simpl. intros ->.
  unfold write_body. run_writer.
  change (0 + 1 >=? FILE_ROTATION_LINE_COUNT) with false. run_writer.
  finish_writer.
Qed.

(** A line-JSON writer with an open handle appends a line, and closes
    the handle when the line count reaches the rotation threshold. *)
Lemma write_json_open (st : WriterState) (w : World) (p : Payload)
    (f : string) (n : Z) :
  handle st = Some f -> lines st = Some n ->
  body p "json" (st, w) =
  (Ok tt,
   if n + 1 >=? FILE_ROTATION_LINE_COUNT then
     (mkState (buffer st) (part st) None (Some (n + 1)) None (header st),
      mkWorld (append_to f [JsonLine p] (files w))
        (trace w ++ [Did (WriteChunk f (JsonLine p)); Did (FlushHandle f);
                     Did (CloseHandle f);
                     LogInfo (MsgRotated (writer_key_of sk sym "json"))]))
   else
     (mkState (buffer st) (part st) (Some f) (Some (n + 1)) (writer st) (header st),
      mkWorld (append_to f [JsonLine p] (files w))
        (trace w ++ [Did (WriteChunk f (JsonLine p)); Did (FlushHandle f)]))).
Proof.
  destruct st as [b pt h l wr hd]. simpl. intros -> ->.
  unfold write_body. run_writer.
  destruct (n + 1 >=? FILE_ROTATION_LINE_COUNT); run_writer; finish_writer.
Qed.

(** A delimited-text writer with no open handle opens the next part,
    takes the header from the record in hand, writes it and counts it as
    a line, then writes the record as the first row. *)
Lemma write_csv_closed (st : WriterState) (w : World) (p : Payload) :
  handle st = None ->
  let n := default 0 (part st) + 1 in
  let f := line_path args sk sym n "csv" in
  body p "csv" (st, w) =
  (Ok tt,
   (mkState (buffer st) (Some n) (Some f) (Some 2) (Some f) (Some (keys p)),
    mkWorld (append_to f [CsvHeader (keys p); csv_row (keys p) p] (files w))
      (trace w ++ [Did (OpenAppend f); Did (WriteChunk f (CsvHeader (keys p)));
                   Did (WriteChunk f (csv_row (keys p) p));
                   Did (FlushHandle f)]))).
Proof.
  destruct st as [b pt h l wr hd]. simpl. intros ->.
  unfold write_body. run_writer.
  change (0 + 1 + 1 >=? FILE_ROTATION_LINE_COUNT) with false. run_writer.
  finish_writer.
Qed.

Lemma write_csv_open (st : WriterState) (w : World) (p : Payload)
    (f : string) (n : Z) (hd : list string) :
  handle st = Some f -> lines st = Some n ->
  writer st = Some f -> header st = Some hd ->
  body p "csv" (st, w) =
  (Ok tt,
   if n + 1 >=? FILE_ROTATION_LINE_COUNT then
     (mkState (buffer st) (part st) None (Some (n + 1)) None (Some hd),
      mkWorld (append_to f [csv_row hd p] (files w))
        (trace w ++ [Did (WriteChunk f (csv_row hd p)); Did (FlushHandle f);
                     Did (CloseHandle f);
                     LogInfo (MsgRotated (writer_key_of sk sym "csv"))]))
   else
     (mkState (buffer st) (part st) (Some f) (Some (n + 1)) (Some f) (Some hd),
      mkWorld (append_to f [csv_row hd p] (files w))
        (trace w ++ [Did (WriteChunk f (csv_row hd p)); Did (FlushHandle f)]))).
Proof.
  destruct st as [b pt h l wr hd']. simpl. intros -> -> -> ->.
  unfold write_body. run_writer.
  destruct (n + 1 >=? FILE_ROTATION_LINE_COUNT); run_writer; finish_writer.
Qed.

Lemma is_columnar_cases (fmt : string) :
  is_columnar fmt = true -> fmt = "parquet" \/ fmt = "orc".
Proof.
  unfold is_columnar. intros [H|H]%orb_true_iff; apply String.eqb_eq in H; auto.
Qed.

(** [flush_buffer] on a buffer that holds rows: the buffer is emptied
    and the part number taken before the write is attempted; the write
    either lands in the part file or is logged as an error, and in both
    cases the call returns normally. *)
Lemma flush_buffer_rows (oracle : Oracle) (fmt : string) (st : WriterState)
    (w : World) (r : Payload) (rows : list Payload) (p : Z) :
  is_columnar fmt = true ->
  buffer st = Some (r :: rows) -> part st = Some p ->
  let f := columnar_path args sk sym (p + 1) fmt in
  let call := WriteTable f fmt (r :: rows) in
  flush_buffer oracle args sk sym fmt (st, w) =
  (Ok tt,
   (mkState (Some []) (Some (p + 1)) (handle st) (lines st) (writer st) (header st),
    if oracle (length (trace w)) call
    then mkWorld (files w) (trace w ++ [Failed call; LogError (MsgWriteError f)])
    else mkWorld (<[f := [Table fmt (r :: rows)]]> (files w))
           (trace w ++ [Did call; LogInfo (MsgWroteBatch f)]))).
Proof.
  destruct st as [b pt h l wr hd]. simpl. intros Hfmt -> ->.
  unfold flush_buffer.
  destruct (is_columnar_cases fmt Hfmt) as [-> | ->]; run_writer;
    destruct (oracle _ _); run_writer; finish_writer.
Qed.

Lemma flush_buffer_nothing (oracle : Oracle) (a b fmt : string)
    (st : WriterState) (w : World) :
  nonempty (buffer st) = false ->
  flush_buffer oracle args a b fmt (st, w) = (Ok tt, (st, w)).
Proof.
  intros H. unfold flush_buffer. run_writer. by rewrite H.
Qed.

(** A columnar writer appends the record to its buffer, which it
    creates with part number 0 when it is missing, and flushes when the
    buffer has reached the batch size. *)
Lemma write_columnar (oracle : Oracle) (fmt : string) (st : WriterState)
    (w : World) (p : Payload) :
  is_columnar fmt = true ->
  let b := default [] (buffer st) ++ [p] in
  let st' :=
    mkState (Some b) (match buffer st with Some _ => part st | None => Some 0 end)
      (handle st) (lines st) (writer st) (header st) in
  write_body oracle args sk sym p fmt (st, w) =
  if Z.of_nat (length b) >=? BATCH_SIZE_FOR_COLUMNAR
  then flush_buffer oracle args sk sym fmt (st', w)
  else (Ok tt, (st', w)).
Proof.
  destruct st as [b pt h l wr hd]. simpl. intros Hfmt.
  unfold write_body. rewrite Hfmt.
  destruct b as [b|]; run_writer;
    by destruct (Z.of_nat (length _) >=? BATCH_SIZE_FOR_COLUMNAR).
Qed.

(** C7. When the write of a columnar flush raises, [flush_buffer] still
    returns normally: the buffer is empty, the part number is spent, the
    file system is unchanged (the rows of the batch are in neither), the
    failed call is followed by an error record in the log; and the writer
    takes the next record into the emptied buffer. *)
Theorem flush_failure_loses_batch (oracle : Oracle) (fmt : string)
    (st : WriterState) (w : World) (r : Payload) (rows : list Payload) (p : Z)
    (next : Payload) :
  is_columnar fmt = true ->
  buffer st = Some (r :: rows) -> part st = Some p ->
  oracle (length (trace w))
    (WriteTable (columnar_path args sk sym (p + 1) fmt) fmt (r :: rows)) = true ->
  let f := columnar_path args sk sym (p + 1) fmt in
  let st' :=
    mkState (Some []) (Some (p + 1)) (handle st) (lines st) (writer st)
      (header st) in
  let w' :=
    mkWorld (files w)
      (trace w ++ [Failed (WriteTable f fmt (r :: rows));
                   LogError (MsgWriteError f)]) in
  flush_buffer oracle args sk sym fmt (st, w) = (Ok tt, (st', w')) /\
  write_body oracle args sk sym next fmt (st', w') =
    (Ok tt, (set_buffer (Some [next]) st', w')).
Proof.
  intros Hfmt Hb Hp Hfail f st' w'. split.
  - rewrite (flush_buffer_rows oracle fmt st w r rows p Hfmt Hb Hp).
    simpl. by rewrite Hfail.
  - by rewrite write_columnar.
Qed.

End FileWriterFacts.

Lemma flush_failure_loses_batch_witness :
  let a := mkArgs None false false false ["parquet"] "data" "1m" false in
  let disk_full : Oracle :=
    mkOracle (fun _ c => match c with WriteTable _ _ _ => true | _ => false end)
      (fun _ => false) in
  let r : Payload := [("price", PyRaw (JStr "1"))] in
  let st := mkState (Some [r]) (Some 0) None None None None in
  flush_buffer disk_full a "trades" "BTCUSDT" "parquet" (st, mkWorld ∅ []) =
  (Ok tt,
   (mkState (Some []) (Some 1) None None None None,
    mkWorld ∅
      [Failed (WriteTable "data/trades_btcusdt_1.parquet" "parquet" [r]);
       LogError (MsgWriteError "data/trades_btcusdt_1.parquet")])).
Proof.
  intros a disk_full r st.
  apply (flush_failure_loses_batch a "trades" "BTCUSDT" disk_full "parquet" st
           (mkWorld ∅ []) r [] 0 r); reflexivity.
Defined.

(** ** The file writer: a sequence of records *)

Section WriteSeqFacts.

Variable args : Args.
Variable sk sym : string.

Local Notation "'seq'" := (write_seq no_faults args sk sym).

Lemma write_seq_app (oracle : Oracle) (fmt : string) (ps qs : list Payload) (s : WS) :
  write_seq oracle args sk sym fmt (ps ++ qs) s =
  match write_seq oracle args sk sym fmt ps s with
  | (Ok _, s') => write_seq oracle args sk sym fmt qs s'
  | (Raise e, s') => (Raise e, s')
  end.
Proof.
  revert s. induction ps as [|p ps IH]; intros s; simpl; [done|].
  unfold bind. destruct (write_body _ _ _ _ _ _ s) as [[[]|e] s']; [apply IH|done].
Qed.

Lemma world_eta (w : World) : mkWorld (files w) (trace w) = w.
Proof. by destruct w. Qed.

(** An open line-JSON part takes records below the threshold one line
    each. *)
Lemma write_seq_json_fill (ps : list Payload) (st : WriterState) (w : World)
    (f : string) (n : Z) (old : list Chunk) :
  handle st = Some f -> lines st = Some n -> files w !! f = Some old ->
  n + Z.of_nat (length ps) < FILE_ROTATION_LINE_COUNT ->
  exists tr,
    seq "json" ps (st, w) =
    (Ok tt,
     (mkState (buffer st) (part st) (Some f) (Some (n + Z.of_nat (length ps)))
        (writer st) (header st),
      mkWorld (<[f := old ++ map JsonLine ps]> (files w)) (trace w ++ tr))).
Proof.
  revert st w n old. induction ps as [|p ps IH]; intros st w n old Hh Hl Hf Hn.
  - exists []. simpl. unfold ret. rewrite !app_nil_r, Z.add_0_r.
    rewrite insert_id by done. rewrite world_eta.
    destruct st; simpl in *; by subst.
  - simpl length in *. simpl. unfold bind.
    rewrite (write_json_open args sk sym st w p f n Hh Hl).
    destruct (Z.geb_spec (n + 1) FILE_ROTATION_LINE_COUNT) as [?|_]; [lia|].
    rewrite (append_to_present f _ old) by done.
    edestruct (IH (mkState (buffer st) (part st) (Some f) (Some (n + 1))
                     (writer st) (header st))
                 (mkWorld (<[f:=old ++ [JsonLine p]]> (files w))
                    (trace w ++ [Did (WriteChunk f (JsonLine p)); Did (FlushHandle f)]))
                 (n + 1) (old ++ [JsonLine p])) as [tr Htr];
      [done|done|apply lookup_insert_eq|lia|].
    rewrite Htr. simpl.
    replace (n + Z.of_nat (S (length ps))) with (n + 1 + Z.of_nat (length ps))
      by lia.
    eexists. rewrite insert_insert_eq, <- !app_assoc. simpl. reflexivity.
Qed.

(** The same for an open delimited-text part, every row laid out
    against the header of the part. *)
Lemma write_seq_csv_fill (ps : list Payload) (st : WriterState) (w : World)
    (f : string) (n : Z) (hd : list string) (old : list Chunk) :
  handle st = Some f -> lines st = Some n ->
  writer st = Some f -> header st = Some hd ->
  files w !! f = Some old ->
  n + Z.of_nat (length ps) < FILE_ROTATION_LINE_COUNT ->
  exists tr,
    seq "csv" ps (st, w) =
    (Ok tt,
     (mkState (buffer st) (part st) (Some f) (Some (n + Z.of_nat (length ps)))
        (Some f) (Some hd),
      mkWorld (<[f := old ++ map (csv_row hd) ps]> (files w)) (trace w ++ tr))).
Proof.
  revert st w n old. induction ps as [|p ps IH]; intros st w n old Hh Hl Hw Hd Hf Hn.
  - exists []. simpl. unfold ret. rewrite !app_nil_r, Z.add_0_r.
    rewrite insert_id by done. rewrite world_eta.
    destruct st; simpl in *; by subst.
  - simpl length in *. simpl. unfold bind.
    rewrite (write_csv_open args sk sym st w p f n hd Hh Hl Hw Hd).
    destruct (Z.geb_spec (n + 1) FILE_ROTATION_LINE_COUNT) as [?|_]; [lia|].
    rewrite (append_to_present f _ old) by done.
    edestruct (IH (mkState (buffer st) (part st) (Some f) (Some (n + 1))
                     (Some f) (Some hd))
                 (mkWorld (<[f:=old ++ [csv_row hd p]]> (files w))
                    (trace w ++ [Did (WriteChunk f (csv_row hd p)); Did (FlushHandle f)]))
                 (n + 1) (old ++ [csv_row hd p])) as [tr Htr];
      [done|done|done|done|apply lookup_insert_eq|lia|].
    rewrite Htr. simpl.
    replace (n + Z.of_nat (S (length ps))) with (n + 1 + Z.of_nat (length ps))
      by lia.
    eexists. rewrite insert_insert_eq, <- !app_assoc. simpl. reflexivity.
Qed.

(** The last record of a line-JSON part: the line count reaches the
    threshold and the handle is closed. *)
Lemma write_seq_json_rotate (ps : list Payload) (last : Payload)
    (st : WriterState) (w : World) (f : string) (n : Z) (old : list Chunk) :
  handle st = Some f -> lines st = Some n -> files w !! f = Some old ->
  n + Z.of_nat (length ps) + 1 = FILE_ROTATION_LINE_COUNT ->
  exists tr,
    seq "json" (ps ++ [last]) (st, w) =
    (Ok tt,
     (mkState (buffer st) (part st) None (Some FILE_ROTATION_LINE_COUNT) None
        (header st),
      mkWorld (<[f := old ++ map JsonLine (ps ++ [last])]> (files w))
        (trace w ++ tr))).
Proof.
  intros Hh Hl Hf Hn. rewrite write_seq_app.
  destruct (write_seq_json_fill ps st w f n old Hh Hl Hf) as [tr ->]; [lia|].
  simpl. unfold bind.
  rewrite (write_json_open args sk sym _ _ last f (n + Z.of_nat (length ps)))
    by done.
  destruct (Z.geb_spec (n + Z.of_nat (length ps) + 1) FILE_ROTATION_LINE_COUNT);
    [|lia].
  unfold ret. simpl.
  rewrite (append_to_present f _ (old ++ map JsonLine ps))
    by apply lookup_insert_eq.
  eexists. rewrite insert_insert_eq, map_app, <- !app_assoc. simpl.
  by rewrite Hn.
Qed.

Lemma write_seq_csv_rotate (ps : list Payload) (last : Payload)
    (st : WriterState) (w : World) (f : string) (n : Z) (hd : list string)
    (old : list Chunk) :
  handle st = Some f -> lines st = Some n ->
  writer st = Some f -> header st = Some hd ->
  files w !! f = Some old ->
  n + Z.of_nat (length ps) + 1 = FILE_ROTATION_LINE_COUNT ->
  exists tr,
    seq "csv" (ps ++ [last]) (st, w) =
    (Ok tt,
     (mkState (buffer st) (part st) None (Some FILE_ROTATION_LINE_COUNT) None
        (Some hd),
      mkWorld (<[f := old ++ map (csv_row hd) (ps ++ [last])]> (files w))
        (trace w ++ tr))).
Proof.
  intros Hh Hl Hw Hd Hf Hn. rewrite write_seq_app.
  destruct (write_seq_csv_fill ps st w f n hd old Hh Hl Hw Hd Hf) as [tr ->];
    [lia|].
  simpl. unfold bind.
  rewrite (write_csv_open args sk sym _ _ last f (n + Z.of_nat (length ps)) hd)
    by done.
  destruct (Z.geb_spec (n + Z.of_nat (length ps) + 1) FILE_ROTATION_LINE_COUNT);
    [|lia].
  unfold ret. simpl.
  rewrite (append_to_present f _ (old ++ map (csv_row hd) ps))
    by apply lookup_insert_eq.
  eexists. rewrite insert_insert_eq, map_app, <- !app_assoc. simpl.
  by rewrite Hn.
Qed.

(** On a writer map that holds only the state of this writer, the file
    sink is the body on that state. *)
Lemma write_all_single (oracle : Oracle) (fmt : string) (ps : list Payload)
    (st : WriterState) (w : World) :
  write_all oracle args sk sym fmt ps ([(writer_key_of sk sym fmt, st)], w) =
  let r := write_seq oracle args sk sym fmt ps (st, w) in
  (fst r, ([(writer_key_of sk sym fmt, fst (snd r))], snd (snd r))).
Proof.
  revert st w. induction ps as [|p ps IH]; intros st w; simpl; [done|].
  unfold bind. unfold write_to_file at 1. simpl.
  rewrite String.eqb_refl. simpl.
  destruct (write_body oracle args sk sym p fmt (st, w)) as [[[]|e] [st' w']].
  - rewrite IH. done.
  - done.
Qed.

Lemma write_all_from_empty (oracle : Oracle) (fmt : string) (p : Payload)
    (ps : list Payload) (w : World) (st' : WriterState) (w' : World) :
  write_seq oracle args sk sym fmt (p :: ps) (empty_state, w) = (Ok tt, (st', w')) ->
  write_all oracle args sk sym fmt (p :: ps) ([], w) =
  (Ok tt, ([(writer_key_of sk sym fmt, st')], w')).
Proof.
  simpl. unfold bind. unfold write_to_file at 1. simpl.
  destruct (write_body oracle args sk sym p fmt (empty_state, w))
    as [[[]|e] [st1 w1]]; [|done].
  intros H. rewrite write_all_single, H. done.
Qed.

(** Part files of one writer that differ in the part number differ
    in the path. *)
Lemma line_path_inj (fmt : string) (p q : Z) :
  line_path args sk sym p fmt = line_path args sk sym q fmt -> p = q.
Proof.
  unfold line_path, PyStr.of_int. intros H.
  do 6 apply (inj (String.append _)) in H.
  apply string_app_inj_r in H. by apply (inj pretty).
Qed.

Lemma columnar_path_inj (a b fmt : string) (p q : Z) :
  columnar_path args a b p fmt = columnar_path args a b q fmt -> p = q.
Proof.
  unfold columnar_path, PyStr.of_int. intros H.
  do 6 apply (inj (String.append _)) in H.
  apply string_app_inj_r in H. by apply (inj pretty).
Qed.

(** A whole line-JSON part, from the record that opens it to the record
    that closes it. *)
Lemma write_seq_json_part (ps : list Payload) (st : WriterState) (w : World) :
  handle st = None ->
  Z.of_nat (length ps) = FILE_ROTATION_LINE_COUNT ->
  let n := default 0 (part st) + 1 in
  let f := line_path args sk sym n "json" in
  exists tr,
    seq "json" ps (st, w) =
    (Ok tt,
     (mkState (buffer st) (Some n) None (Some FILE_ROTATION_LINE_COUNT) None
        (header st),
      mkWorld (append_to f (map JsonLine ps) (files w)) (trace w ++ tr))).
Proof.
  intros Hh Hlen n f.
  destruct ps as [|p ps]; [done|].
  destruct (decide (ps = [])) as [->|Hne]; [done|].
  destruct (exists_last Hne) as (mid & last & ->).
  rewrite length_cons, length_app in Hlen. simpl length in Hlen.
  cbn [write_seq]. unfold bind at 1.
  rewrite (write_json_closed args sk sym st w p Hh). fold n f.
  edestruct (write_seq_json_rotate mid last
               (mkState (buffer st) (Some n) (Some f) (Some 1) (writer st) (header st))
               (mkWorld (append_to f [JsonLine p] (files w))
                  (trace w ++ [Did (OpenAppend f); Did (WriteChunk f (JsonLine p));
                               Did (FlushHandle f)]))
               f 1 (default [] (files w !! f) ++ [JsonLine p])) as [tr ->];
    [done|done|apply append_to_lookup|lia|].
  eexists. unfold append_to. simpl.
  rewrite insert_insert_eq, <- !app_assoc. reflexivity.
Qed.

(** A whole delimited-text part: the header, then one row per record
    until header and rows together reach the threshold. *)
Lemma write_seq_csv_part (p : Payload) (ps : list Payload) (st : WriterState)
    (w : World) :
  handle st = None ->
  Z.of_nat (length (p :: ps)) + 1 = FILE_ROTATION_LINE_COUNT ->
  let n := default 0 (part st) + 1 in
  let f := line_path args sk sym n "csv" in
  exists tr,
    seq "csv" (p :: ps) (st, w) =
    (Ok tt,
     (mkState (buffer st) (Some n) None (Some FILE_ROTATION_LINE_COUNT) None
        (Some (keys p)),
      mkWorld
        (append_to f (CsvHeader (keys p) :: map (csv_row (keys p)) (p :: ps))
           (files w))
        (trace w ++ tr))).
Proof.
  intros Hh Hlen n f.
  destruct (decide (ps = [])) as [->|Hne]; [done|].
  destruct (exists_last Hne) as (mid & last & ->).
  rewrite length_cons, length_app in Hlen. simpl length in Hlen.
  cbn [write_seq]. unfold bind at 1.
  rewrite (write_csv_closed args sk sym st w p Hh). fold n f.
  edestruct (write_seq_csv_rotate mid last
               (mkState (buffer st) (Some n) (Some f) (Some 2) (Some f)
                  (Some (keys p)))
               (mkWorld
                  (append_to f [CsvHeader (keys p); csv_row (keys p) p] (files w))
                  (trace w ++ [Did (OpenAppend f);
                               Did (WriteChunk f (CsvHeader (keys p)));
                               Did (WriteChunk f (csv_row (keys p) p));
                               Did (FlushHandle f)]))
               f 2 (keys p)
               (default [] (files w !! f) ++ [CsvHeader (keys p); csv_row (keys p) p]))
    as [tr ->]; [done|done|done|done|apply append_to_lookup|lia|].
  eexists. unfold append_to. simpl.
  rewrite insert_insert_eq, <- !app_assoc. reflexivity.
Qed.

End WriteSeqFacts.

(** ** Rotation of line-format parts *)

Section Rotation.

Variable args : Args.
Variable sk sym : string.

Local Notation "'all'" := (write_all no_faults args sk sym).

Lemma json_rotation (ps : list Payload) (r : Payload) :
  Z.of_nat (length ps) = FILE_ROTATION_LINE_COUNT ->
  let key := writer_key_of sk sym "json" in
  let f1 := line_path args sk sym 1 "json" in
  let f2 := line_path args sk sym 2 "json" in
  (exists st tr,
     all "json" ps ([], mkWorld ∅ []) =
       (Ok tt, ([(key, st)], mkWorld {[f1 := map JsonLine ps]} tr)) /\
     handle st = None /\ part st = Some 1) /\
  (exists st tr,
     all "json" (ps ++ [r]) ([], mkWorld ∅ []) =
       (Ok tt,
        ([(key, st)],
         mkWorld (<[f2 := [JsonLine r]]> {[f1 := map JsonLine ps]}) tr)) /\
     handle st = Some f2 /\ part st = Some 2).
Proof.
  intros Hlen key f1 f2.
  assert (Hne : f1 <> f2) by (intros H%line_path_inj; done).
  destruct (write_seq_json_part args sk sym ps empty_state (mkWorld ∅ []) eq_refl Hlen)
    as [tr Hps].
  cbn -[write_seq line_path Z.add] in Hps. fold f1 in Hps.
  unfold append_to in Hps. rewrite lookup_empty, insert_empty in Hps.
  cbn -[write_seq line_path Z.add] in Hps.
  assert (Hps0 : ps <> []) by (intros ->; done).
  destruct ps as [|p ps]; [done|].
  split.
  - eexists _, _. split; [apply write_all_from_empty; exact Hps|done].
  - eexists _, _. split.
    + rewrite <- app_comm_cons. apply write_all_from_empty.
      rewrite app_comm_cons, write_seq_app, Hps.
      cbn [write_seq]. unfold bind.
      rewrite write_json_closed by done. cbn [buffer part handle lines writer
        header files trace default].
      unfold ret, append_to. fold f2.
      rewrite lookup_singleton_ne by done. reflexivity.
    + done.
Qed.

Lemma csv_rotation (p : Payload) (ps : list Payload) (r : Payload) :
  Z.of_nat (length (p :: ps)) + 1 = FILE_ROTATION_LINE_COUNT ->
  let key := writer_key_of sk sym "csv" in
  let f1 := line_path args sk sym 1 "csv" in
  let f2 := line_path args sk sym 2 "csv" in
  let part1 := CsvHeader (keys p) :: map (csv_row (keys p)) (p :: ps) in
  (exists st tr,
     all "csv" (p :: ps) ([], mkWorld ∅ []) =
       (Ok tt, ([(key, st)], mkWorld {[f1 := part1]} tr)) /\
     handle st = None /\ part st = Some 1) /\
  (exists st tr,
     all "csv" ((p :: ps) ++ [r]) ([], mkWorld ∅ []) =
       (Ok tt,
        ([(key, st)],
         mkWorld (<[f2 := [CsvHeader (keys r); csv_row (keys r) r]]> {[f1 := part1]})
           tr)) /\
     handle st = Some f2 /\ part st = Some 2 /\ header st = Some (keys r)).
Proof.
  intros Hlen key f1 f2 part1.
  assert (Hne : f1 <> f2) by (intros H%line_path_inj; done).
  destruct (write_seq_csv_part args sk sym p ps empty_state (mkWorld ∅ []) eq_refl Hlen)
    as [tr Hps].
  cbn -[write_seq line_path Z.add] in Hps. fold f1 in Hps.
  unfold append_to in Hps. rewrite lookup_empty, insert_empty in Hps.
  cbn -[write_seq line_path Z.add] in Hps.
  split.
  - eexists _, _. split; [apply write_all_from_empty; exact Hps|done].
  - eexists _, _. split.
    + rewrite <- app_comm_cons. apply write_all_from_empty.
      rewrite app_comm_cons, write_seq_app, Hps.
      cbn [write_seq]. unfold bind.
      rewrite write_csv_closed by done. cbn [buffer part handle lines writer
        header files trace default].
      unfold ret, append_to. fold f2.
      rewrite lookup_singleton_ne by done. reflexivity.
    + done.
Qed.

(** C3, as the code has it.  A line-JSON writer that receives exactly
    100,000 records leaves exactly one part file, with these 100,000
    lines, and the next record opens part 2.  A delimited-text writer
    counts the header line of a part among its lines: 99,999 records
    leave exactly one part file, with the header and 99,999 rows, and the
    next record (the 100,000th) opens part 2 under a header of its
    own. *)
Theorem line_rotation_boundary (js : list Payload) (p : Payload)
    (cs : list Payload) (r : Payload) :
  Z.of_nat (length js) = FILE_ROTATION_LINE_COUNT ->
  Z.of_nat (length (p :: cs)) + 1 = FILE_ROTATION_LINE_COUNT ->
  let j1 := line_path args sk sym 1 "json" in
  let j2 := line_path args sk sym 2 "json" in
  let c1 := line_path args sk sym 1 "csv" in
  let c2 := line_path args sk sym 2 "csv" in
  let part1 := CsvHeader (keys p) :: map (csv_row (keys p)) (p :: cs) in
  j1 <> j2 /\ c1 <> c2 /\
  files (snd (snd (all "json" js ([], mkWorld ∅ [])))) =
    {[j1 := map JsonLine js]} /\
  files (snd (snd (all "json" (js ++ [r]) ([], mkWorld ∅ [])))) =
    <[j2 := [JsonLine r]]> {[j1 := map JsonLine js]} /\
  files (snd (snd (all "csv" (p :: cs) ([], mkWorld ∅ [])))) =
    {[c1 := part1]} /\
  files (snd (snd (all "csv" ((p :: cs) ++ [r]) ([], mkWorld ∅ [])))) =
    <[c2 := [CsvHeader (keys r); csv_row (keys r) r]]> {[c1 := part1]}.
Proof.
  intros Hj Hc j1 j2 c1 c2 part1.
  destruct (json_rotation js r Hj) as ((s1 & t1 & H1 & _) & (s2 & t2 & H2 & _)).
  destruct (csv_rotation p cs r Hc) as ((s3 & t3 & H3 & _) & (s4 & t4 & H4 & _)).
  split; [intros H%line_path_inj; done|].
  split; [intros H%line_path_inj; done|].
  rewrite H1, H2, H3, H4. done.
Qed.

End Rotation.

Lemma replicate_first_last {A} (n : Z) (x : A) :
  2 <= n ->
  replicate (Z.to_nat n) x = (x :: replicate (Z.to_nat (n - 2)) x) ++ [x].
Proof.
  intros Hn. replace (Z.to_nat n) with (S (S (Z.to_nat (n - 2)))) by lia.
  by rewrite replicate_S_end, replicate_S.
Qed.

Lemma line_rotation_boundary_witness :
  let a := mkArgs None false false false ["json"; "csv"] "data" "1m" false in
  let r : Payload := [("price", PyRaw (JStr "1"))] in
  files (snd (snd (write_all no_faults a "trades" "BTCUSDT" "json"
                     (replicate (Z.to_nat 100000) r) ([], mkWorld ∅ [])))) =
  {[line_path a "trades" "BTCUSDT" 1 "json" :=
      map JsonLine (replicate (Z.to_nat 100000) r)]}.
Proof.
  intros a r.
  assert (H1 : Z.of_nat (length (replicate (Z.to_nat 100000) r)) =
               FILE_ROTATION_LINE_COUNT).
  { rewrite length_replicate. unfold FILE_ROTATION_LINE_COUNT. lia. }
  assert (H2 : Z.of_nat (length (r :: replicate (Z.to_nat 99998) r)) + 1 =
               FILE_ROTATION_LINE_COUNT).
  { rewrite length_cons, length_replicate. unfold FILE_ROTATION_LINE_COUNT. lia. }
  pose proof (line_rotation_boundary a "trades" "BTCUSDT"
                (replicate (Z.to_nat 100000) r) r (replicate (Z.to_nat 99998) r) r
                H1 H2) as H.
  destruct H as (_ & _ & H & _).
  exact H.
Defined.

(** The claim C3 fails for the delimited-text writer: 100,000 records
    do not leave one part file with a header and 100,000 rows; the
    100,000th record is already in part 2. *)
Lemma csv_rotation_counterexample :
  let a := mkArgs None false false false ["csv"] "data" "1m" false in
  let r : Payload := [("price", PyRaw (JStr "1"))] in
  let fs :=
    files (snd (snd (write_all no_faults a "trades" "BTCUSDT" "csv"
                       (replicate (Z.to_nat 100000) r) ([], mkWorld ∅ [])))) in
  fs <> {["data/trades_btcusdt_1.csv" :=
            CsvHeader (keys r) :: replicate (Z.to_nat 100000) (csv_row (keys r) r)]} /\
  fs !! "data/trades_btcusdt_2.csv" = Some [CsvHeader (keys r); csv_row (keys r) r].
Proof.
  intros a r fs.
  assert (Hfs : fs !! "data/trades_btcusdt_2.csv" =
                Some [CsvHeader (keys r); csv_row (keys r) r]).
  { unfold fs. rewrite (replicate_first_last 100000 r) by lia.
    destruct (csv_rotation a "trades" "BTCUSDT" r
                (replicate (Z.to_nat (100000 - 2)) r) r) as (_ & st & tr & -> & _).
    { rewrite length_cons, length_replicate. unfold FILE_ROTATION_LINE_COUNT. lia. }
    cbn [snd files].
    change (line_path a "trades" "BTCUSDT" 2 "csv")
      with "data/trades_btcusdt_2.csv".
    apply lookup_insert_eq. }
  split; [|exact Hfs].
  intros Heq. rewrite Heq in Hfs.
  assert (Hne : "data/trades_btcusdt_1.csv" <> "data/trades_btcusdt_2.csv")
    by (intros H; discriminate H).
  pose proof (lookup_singleton_ne (M := gmap string)
                "data/trades_btcusdt_1.csv" "data/trades_btcusdt_2.csv"
                (CsvHeader (keys r) ::
                   replicate (Z.to_nat 100000) (csv_row (keys r) r)) Hne) as Hl.
  rewrite Hl in Hfs. inversion Hfs.
Qed.

(** The records of one projector have the same columns, each once, and
    the row of a record under the columns of another is its own
    values. *)
Lemma projector_columns (f : Json -> option Payload)
    (j0 j : Json) (p0 p : Payload) :
  In f [process_ticker_payload; process_order_book_payload;
        process_trade_payload; process_kline_payload] ->
  f j0 = Some p0 -> f j = Some p ->
  keys p = keys p0 /\ NoDup (keys p) /\
  csv_row (keys p0) p = CsvRow (map snd p).
Proof.
  intros Hf H0 H.
  destruct Hf as [<- | [<- | [<- | [<- | [] ] ] ] ];
    destruct j0 as [| | | | | |d0]; try discriminate H0;
    destruct j as [| | | | | |d]; try discriminate H; simpl in H0, H.
  - injection H0 as <-. injection H as <-.
    split; [done|]. split; [|done]. by apply NoDup_ListNoDup; repeat (constructor; [simpl; intuition discriminate|]); constructor.
  - injection H0 as <-. injection H as <-.
    split; [done|]. split; [|done]. by apply NoDup_ListNoDup; repeat (constructor; [simpl; intuition discriminate|]); constructor.
  - injection H0 as <-. injection H as <-.
    split; [done|]. split; [|done]. by apply NoDup_ListNoDup; repeat (constructor; [simpl; intuition discriminate|]); constructor.
  - destruct (jget d0 "k" (JDict [])); try discriminate H0.
    destruct (jget d "k" (JDict [])); try discriminate H.
    injection H0 as <-. injection H as <-.
    split; [done|]. split; [|done]. by apply NoDup_ListNoDup; repeat (constructor; [simpl; intuition discriminate|]); constructor.
Qed.

(** ** The header of a delimited-text part *)

Section CsvHeader.

Variable args : Args.
Variable sk sym : string.

(** A delimited-text part that stays below the threshold. *)
Lemma write_seq_csv_prefix (p : Payload) (ps : list Payload) (st : WriterState)
    (w : World) :
  handle st = None ->
  Z.of_nat (length (p :: ps)) + 1 < FILE_ROTATION_LINE_COUNT ->
  let n := default 0 (part st) + 1 in
  let f := line_path args sk sym n "csv" in
  exists tr,
    write_seq no_faults args sk sym "csv" (p :: ps) (st, w) =
    (Ok tt,
     (mkState (buffer st) (Some n) (Some f)
        (Some (Z.of_nat (length (p :: ps)) + 1)) (Some f) (Some (keys p)),
      mkWorld
        (append_to f (CsvHeader (keys p) :: map (csv_row (keys p)) (p :: ps))
           (files w))
        (trace w ++ tr))).
Proof.
  intros Hh Hlen n f. rewrite length_cons in Hlen.
  cbn [write_seq]. unfold bind at 1.
  rewrite (write_csv_closed args sk sym st w p Hh). fold n f.
  edestruct (write_seq_csv_fill args sk sym ps
               (mkState (buffer st) (Some n) (Some f) (Some 2) (Some f)
                  (Some (keys p)))
               (mkWorld
                  (append_to f [CsvHeader (keys p); csv_row (keys p) p] (files w))
                  (trace w ++ [Did (OpenAppend f);
                               Did (WriteChunk f (CsvHeader (keys p)));
                               Did (WriteChunk f (csv_row (keys p) p));
                               Did (FlushHandle f)]))
               f 2 (keys p)
               (default [] (files w !! f) ++ [CsvHeader (keys p); csv_row (keys p) p]))
    as [tr ->]; [done|done|done|done|apply append_to_lookup|lia|].
  eexists. unfold append_to. cbn [buffer part files trace].
  rewrite insert_insert_eq, <- !app_assoc, length_cons.
  replace (2 + Z.of_nat (length ps)) with (Z.of_nat (S (length ps)) + 1) by lia.
  reflexivity.
Qed.

Lemma allocations_app (a b : list Event) :
  allocations (a ++ b) = allocations a ++ allocations b.
Proof. apply omap_app. Qed.

Lemma headers_written_app (a b : list Event) :
  headers_written (a ++ b) = headers_written a ++ headers_written b.
Proof. apply omap_app. Qed.

Lemma rows_written_app (a b : list Event) :
  rows_written (a ++ b) = rows_written a ++ rows_written b.
Proof. apply omap_app. Qed.

(** The delimited-text writer on records that all have the columns
    [hd], through any number of rotations: every header it writes is
    [hd], one for each part it opens, and every record is laid out
    against [hd]. *)
Lemma write_seq_csv_columns (hd : list string) (ps : list Payload)
    (st : WriterState) (w : World) :
  Forall (fun q => keys q = hd) ps ->
  csv_state_ok hd st ->
  exists st' w' tl,
    write_seq no_faults args sk sym "csv" ps (st, w) = (Ok tt, (st', w')) /\
    trace w' = trace w ++ tl /\
    csv_state_ok hd st' /\
    (header st = Some hd \/ ps <> [] -> header st' = Some hd) /\
    rows_written tl = map (csv_row hd) ps /\
    headers_written tl = replicate (length (allocations tl)) hd.
Proof.
  intros Hps. revert st w.
  induction Hps as [|q ps Hq _ IH]; intros st w Hst.
  { exists st, w, []. rewrite app_nil_r.
    split; [done|]. split; [done|]. split; [done|].
    split; [by intros [?|?]|]. by split. }
  assert (Hstep : exists s1 w1 tl1,
            write_body no_faults args sk sym q "csv" (st, w) = (Ok tt, (s1, w1)) /\
            trace w1 = trace w ++ tl1 /\
            csv_state_ok hd s1 /\ header s1 = Some hd /\
            rows_written tl1 = [csv_row hd q] /\
            headers_written tl1 = replicate (length (allocations tl1)) hd).
  { destruct Hst as (Hhd & Hopen). destruct (handle st) as [f|] eqn:Hh.
    - destruct (Hopen f eq_refl) as (Hw & Hd & (n & Hn)).
      rewrite (write_csv_open args sk sym st w q f n hd Hh Hn Hw Hd).
      destruct (n + 1 >=? FILE_ROTATION_LINE_COUNT).
      + eexists _, _, _. split; [reflexivity|]. cbn [trace header].
        split; [reflexivity|]. split; [|by repeat split].
        split; cbn; [by intros h [= <-]|done].
      + eexists _, _, _. split; [reflexivity|]. cbn [trace header].
        split; [reflexivity|]. split; [|by repeat split].
        split; cbn; [by intros h [= <-]|].
        intros f0 [= <-]. split; [done|]. split; [done|by eexists].
    - rewrite (write_csv_closed args sk sym st w q Hh), Hq.
      eexists _, _, _. split; [reflexivity|]. cbn [trace header].
      split; [reflexivity|]. split; [|by repeat split].
      split; cbn; [by intros h [= <-]|].
      intros f0 [= <-]. split; [done|]. split; [done|by eexists]. }
  destruct Hstep as (s1 & w1 & tl1 & Hrun1 & Htr1 & Hok1 & Hhd1 & Hrows1 & Hhs1).
  destruct (IH s1 w1 Hok1) as (st' & w' & tl & Hrun & Htr & Hok & Hne & Hrows & Hhs).
  exists st', w', (tl1 ++ tl).
  split; [cbn [write_seq]; unfold bind; by rewrite Hrun1|].
  split; [by rewrite Htr, Htr1, <- app_assoc|].
  split; [done|]. split; [intros _; apply Hne; by left|].
  rewrite rows_written_app, headers_written_app, allocations_app, Hrows, Hhs,
    Hrows1, Hhs1, length_app, replicate_add.
  done.
Qed.

(** C6.  The records a delimited-text writer receives are the records
    of one stream, projected by the projector of that stream, so they all
    have the field names of the first one.  Through any number of records
    and rotations the header the writer holds is the one taken from the
    first record; every header line written, one for each part opened, is
    that header; and every record, the first one and those written after
    a rotation included, is laid out against it, which gives the
    record's own values in the order of its fields. *)
Theorem csv_header_captured_once (f : Json -> option Payload) (d0 : Json)
    (ds : list Json) (p : Payload) (ps : list Payload)
    (fs0 : gmap string (list Chunk)) :
  In f [process_ticker_payload; process_order_book_payload;
        process_trade_payload; process_kline_payload] ->
  f d0 = Some p -> Forall2 (fun d q => f d = Some q) ds ps ->
  let res := write_all no_faults args sk sym "csv" (p :: ps) ([], mkWorld fs0 []) in
  let tr := trace (snd (snd res)) in
  fst res = Ok tt /\
  (exists st,
     fst (snd res) = [(writer_key_of sk sym "csv", st)] /\
     header st = Some (keys p)) /\
  headers_written tr = replicate (length (allocations tr)) (keys p) /\
  rows_written tr = map (csv_row (keys p)) (p :: ps) /\
  rows_written tr = map (fun q => CsvRow (map snd q)) (p :: ps).
Proof.
  intros Hf Hp Hps res tr.
  assert (Hcols : Forall (fun q => keys q = keys p) (p :: ps)).
  { constructor; [done|]. clear -Hf Hp Hps.
    induction Hps as [|d q ds ps Hq _ IH]; constructor; [|done].
    by destruct (projector_columns f d0 d p q Hf Hp Hq). }
  assert (Hvals : map (csv_row (keys p)) (p :: ps) =
                  map (fun q => CsvRow (map snd q)) (p :: ps)).
  { cbn [map]. f_equal.
    - by destruct (projector_columns f d0 d0 p p Hf Hp Hp) as (_ & _ & ->).
    - clear -Hf Hp Hps. induction Hps as [|d q ds ps Hq _ IH]; [done|].
      cbn [map]. f_equal; [|done].
      by destruct (projector_columns f d0 d p q Hf Hp Hq) as (_ & _ & ->). }
  destruct (write_seq_csv_columns (keys p) (p :: ps) empty_state (mkWorld fs0 []))
    as (st' & w' & tl & Hrun & Htr & Hok & Hne & Hrows & Hhs); [done|by split|].
  pose proof (write_all_from_empty args sk sym no_faults "csv" p ps (mkWorld fs0 [])
                st' w' Hrun) as Hall.
  unfold tr, res. rewrite Hall. cbn [fst snd trace] in *. subst.
  rewrite app_nil_l in *. rewrite <- Hvals.
  split; [done|]. split; [exists st'; split; [done|apply Hne; by right]|].
  by rewrite Htr.
Qed.

End CsvHeader.

Lemma csv_header_captured_once_witness :
  let a := mkArgs None false false false ["csv"] "data" "1m" false in
  let d (price : string) := JDict [("p", JStr price); ("q", JStr "5")] in
  let rec (price : string) : Payload :=
    [("event_time", PyRaw JNull); ("price", PyRaw (JStr price));
     ("quantity", PyRaw (JStr "5")); ("trade_time", PyRaw JNull);
     ("is_buyer_maker", PyStrOf JNull)] in
  let res :=
    write_all no_faults a "trades" "BTCUSDT" "csv" [rec "1"; rec "2"]
      ([], mkWorld ∅ []) in
  headers_written (trace (snd (snd res))) =
    [["event_time"; "price"; "quantity"; "trade_time"; "is_buyer_maker"]] /\
  rows_written (trace (snd (snd res))) =
    [CsvRow [PyRaw JNull; PyRaw (JStr "1"); PyRaw (JStr "5"); PyRaw JNull;
             PyStrOf JNull];
     CsvRow [PyRaw JNull; PyRaw (JStr "2"); PyRaw (JStr "5"); PyRaw JNull;
             PyStrOf JNull]].
Proof.
  intros a d rec res.
  assert (Hf : In process_trade_payload
                 [process_ticker_payload; process_order_book_payload;
                  process_trade_payload; process_kline_payload])
    by (right; right; left; reflexivity).
  assert (H0 : process_trade_payload (d "1") = Some (rec "1")) by reflexivity.
  assert (H1 : Forall2 (fun j q => process_trade_payload j = Some q)
                 [d "2"] [rec "2"]) by (repeat constructor).
  pose proof (csv_header_captured_once a "trades" "BTCUSDT" process_trade_payload
                (d "1") [d "2"] (rec "1") [rec "2"] ∅ Hf H0 H1) as H.
  cbv zeta in H. destruct H as (_ & _ & Hh & _ & Hr).
  split; [exact Hh|exact Hr].
Defined.

(** ** The steps of the shutdown *)

Section ShutdownSteps.

Variable oracle : Oracle.
Variable args : Args.
Variable redis_client : bool.

Lemma shutdown_unfold (p : Pipeline) :
  shutdown oracle args redis_client p =
  match join_loop oracle args redis_client (items (queue p)) (begun p) with
  | (Hung, p1) => (NeverReturns, p1)
  | (MainCancelled, p1) => (AbortedByCancel, p1)
  | (Joined, p1) =>
      let p2 :=
        mkPipeline (queue p1) (writers p1)
          (record (Step CancelConsumer) (record (Step QueueJoined) (world p1)))
          (cancel (consumer p1)) (producers p1) in
      match consumer p2 with
      | Crashed e => (AbortedBy e, p2)
      | _ =>
          let p3 := pipe_record (Step ConsumerAwaited) p2 in
          match output args with
          | [] => (Completed, pipe_record (LogInfo MsgShutdownComplete) p3)
          | _ =>
              let p4 := pipe_record (Step FlushAllBuffers) p3 in
              match flush_all_buffers oracle args (writers p4, world p4) with
              | (Ok _, (ws, w)) =>
                  (Completed,
                   mkPipeline (queue p4) ws
                     (record (LogInfo MsgShutdownComplete) w)
                     (consumer p4) (producers p4))
              | (Raise e, (ws, w)) =>
                  (AbortedBy e,
                   mkPipeline (queue p4) ws w (consumer p4) (producers p4))
              end
          end
      end
  end.
Proof. reflexivity. Qed.

End ShutdownSteps.

(** ** Columnar batches *)

Section Columnar.

Variable args : Args.
Variable sk sym : string.

Lemma writer_key_endswith (fmt : string) :
  PyStr.endswith (writer_key_of sk sym fmt) fmt = true.
Proof.
  unfold writer_key_of.
  replace (sk +:+ "_" +:+ PyStr.lower sym +:+ "_" +:+ fmt)
    with ((sk +:+ "_" +:+ PyStr.lower sym +:+ "_") +:+ fmt)
    by (by rewrite !string_app_assoc).
  apply endswith_app.
Qed.

Lemma writer_key_columnar (fmt : string) :
  is_columnar fmt = true ->
  PyStr.endswith (writer_key_of sk sym fmt) "parquet"
  || PyStr.endswith (writer_key_of sk sym fmt) "orc" = true.
Proof.
  intros [-> | ->]%is_columnar_cases; rewrite writer_key_endswith; simpl;
    [done|by rewrite orb_true_r].
Qed.

Lemma columnar_no_underscore (fmt : string) :
  is_columnar fmt = true -> PyStr.rfind "_" fmt = None.
Proof. by intros [-> | ->]%is_columnar_cases. Qed.

(** [flush_buffer] reads the stream key and the symbol only through the
    path of the part. *)
Lemma flush_buffer_path_ext (oracle : Oracle) (a b fmt : string) (s : WS) :
  a +:+ "_" +:+ PyStr.lower b = sk +:+ "_" +:+ PyStr.lower sym ->
  flush_buffer oracle args a b fmt s = flush_buffer oracle args sk sym fmt s.
Proof.
  intros H.
  assert (Hp : forall p, columnar_path args a b p fmt =
                         columnar_path args sk sym p fmt).
  { intros p. unfold columnar_path.
    replace (a +:+ "_" +:+ PyStr.lower b +:+ "_" +:+ PyStr.of_int p +:+ "." +:+ fmt)
      with ((a +:+ "_" +:+ PyStr.lower b) +:+ "_" +:+ PyStr.of_int p +:+ "." +:+ fmt)
      by (by rewrite !string_app_assoc).
    rewrite H. by rewrite !string_app_assoc. }
  destruct s as [[bf pt h l wr hd] w].
  unfold flush_buffer. run_writer.
  destruct (nonempty bf); [|done]. run_writer.
  destruct pt as [p|]; [|done]. run_writer.
  by rewrite Hp.
Qed.

(** [flush_all_buffers] on the state of one columnar writer. *)
Lemma flush_each_single (oracle : Oracle) (fmt : string) (st : WriterState)
    (w : World) :
  is_columnar fmt = true ->
  flush_each oracle args [(writer_key_of sk sym fmt, st)] w =
  let r := flush_buffer oracle args sk sym fmt (st, w) in
  (fst r, ([(writer_key_of sk sym fmt, fst (snd r))], snd (snd r))).
Proof.
  intros Hfmt. cbn [flush_each].
  rewrite (writer_key_columnar fmt Hfmt).
  destruct (rsplit2_writer_key sk sym fmt (columnar_no_underscore fmt Hfmt))
    as (a & b & -> & Hab).
  rewrite (flush_buffer_path_ext oracle a b fmt (st, w) Hab).
  by destruct (flush_buffer oracle args sk sym fmt (st, w)) as [[[]|e] [st' w']].
Qed.

(** Records below the batch size only grow the buffer: no call leaves
    the process, whatever the oracle. *)
Lemma write_seq_columnar_fill (oracle : Oracle) (fmt : string)
    (ps : list Payload) (st : WriterState) (w : World) (b : list Payload) :
  is_columnar fmt = true ->
  buffer st = Some b ->
  Z.of_nat (length b) + Z.of_nat (length ps) < BATCH_SIZE_FOR_COLUMNAR ->
  write_seq oracle args sk sym fmt ps (st, w) =
  (Ok tt,
   (mkState (Some (b ++ ps)) (part st) (handle st) (lines st) (writer st)
      (header st), w)).
Proof.
  intros Hfmt. revert st b. induction ps as [|p ps IH]; intros st b Hb Hlen.
  - simpl. unfold ret. rewrite app_nil_r. destruct st; simpl in *; by subst.
  - cbn [write_seq]. unfold bind. rewrite write_columnar by done.
    rewrite Hb. cbn [default from_option id]. rewrite length_cons in Hlen.
    destruct (Z.geb_spec (Z.of_nat (length (b ++ [p]))) BATCH_SIZE_FOR_COLUMNAR)
      as [Hge|_].
    { rewrite length_app in Hge. simpl in Hge. lia. }
    rewrite (IH _ (b ++ [p])); [|done|rewrite length_app; simpl; lia].
    cbn [buffer part handle lines writer header]. by rewrite <- app_assoc.
Qed.

(** A buffer that reaches the batch size is written as the next part. *)
Lemma write_seq_columnar_batch (fmt : string) (ps : list Payload)
    (last : Payload) (st : WriterState) (w : World) (b : list Payload) (p : Z) :
  is_columnar fmt = true ->
  buffer st = Some b -> part st = Some p ->
  Z.of_nat (length b) + Z.of_nat (length ps) + 1 = BATCH_SIZE_FOR_COLUMNAR ->
  let f := columnar_path args sk sym (p + 1) fmt in
  let rows := b ++ ps ++ [last] in
  write_seq no_faults args sk sym fmt (ps ++ [last]) (st, w) =
  (Ok tt,
   (mkState (Some []) (Some (p + 1)) (handle st) (lines st) (writer st)
      (header st),
    mkWorld (<[f := [Table fmt rows]]> (files w))
      (trace w ++ [Did (WriteTable f fmt rows); LogInfo (MsgWroteBatch f)]))).
Proof.
  intros Hfmt Hb Hp Hlen f rows.
  rewrite write_seq_app, (write_seq_columnar_fill no_faults fmt ps st w b)
    by (done || lia).
  cbn [write_seq]. unfold bind. rewrite write_columnar by done.
  cbn [buffer part handle lines writer header default from_option id].
  destruct (Z.geb_spec (Z.of_nat (length ((b ++ ps) ++ [last])))
              BATCH_SIZE_FOR_COLUMNAR) as [_|Hlt].
  2:{ rewrite !length_app in Hlt. simpl in Hlt. lia. }
  assert (Hrows : exists r0 rest, (b ++ ps) ++ [last] = r0 :: rest).
  { destruct (b ++ ps) as [|r0 rest]; simpl; eauto. }
  destruct Hrows as (r0 & rest & Hrows).
  rewrite (flush_buffer_rows args sk sym no_faults fmt _ w r0 rest p Hfmt)
    by (cbn [buffer part]; done || by rewrite Hrows).
  unfold ret, no_faults. cbn [handle lines writer header].
  unfold f, rows. rewrite <- Hrows, <- app_assoc. done.
Qed.

(** C4. A columnar writer that receives exactly 10,000 records has
    written exactly one part, part 1, with these 10,000 rows, and holds
    an empty buffer.  The 10,001st record stays in the buffer, the file
    system unchanged; [flush_all_buffers] then writes it as part 2, a
    file of its own with that one row; and the shutdown of a pipeline
    whose queue is drained does exactly that, as its last step. *)
Theorem columnar_batching (fmt : string) (ps : list Payload) (r : Payload)
    (redis_client : bool) (tasks : list TaskStatus) :
  is_columnar fmt = true ->
  Z.of_nat (length ps) = BATCH_SIZE_FOR_COLUMNAR ->
  output args <> [] ->
  let key := writer_key_of sk sym fmt in
  let f1 := columnar_path args sk sym 1 fmt in
  let f2 := columnar_path args sk sym 2 fmt in
  let holding (b : list Payload) (p : Z) :=
    mkState (Some b) (Some p) None None None None in
  let w1 :=
    mkWorld {[f1 := [Table fmt ps]]}
      [Did (WriteTable f1 fmt ps); LogInfo (MsgWroteBatch f1)] in
  let both := <[f2 := [Table fmt [r]]]> {[f1 := [Table fmt ps]]} in
  let stopped :=
    shutdown no_faults args redis_client
      (mkPipeline empty_queue [(key, holding [r] 1)] w1 Running tasks) in
  f1 <> f2 /\
  write_all no_faults args sk sym fmt ps ([], mkWorld ∅ []) =
    (Ok tt, ([(key, holding [] 1)], w1)) /\
  write_all no_faults args sk sym fmt (ps ++ [r]) ([], mkWorld ∅ []) =
    (Ok tt, ([(key, holding [r] 1)], w1)) /\
  (forall tr,
     flush_all_buffers no_faults args
       ([(key, holding [r] 1)], mkWorld {[f1 := [Table fmt ps]]} tr) =
     (Ok tt,
      ([(key, holding [] 2)],
       mkWorld both
         (tr ++ [LogInfo MsgCleanupStart; Did (WriteTable f2 fmt [r]);
                 LogInfo (MsgWroteBatch f2); LogInfo MsgCleanupDone])))) /\
  fst stopped = Completed /\
  writers (snd stopped) = [(key, holding [] 2)] /\
  files (world (snd stopped)) = both /\
  allocations (trace (world (snd stopped))) = [f1; f2].
Proof.
  intros Hfmt Hlen Hout key f1 f2 holding w1 both stopped.
  split; [intros H%columnar_path_inj; done|].
  destruct ps as [|p0 ps']; [done|].
  destruct (decide (ps' = [])) as [->|Hne]; [done|].
  destruct (exists_last Hne) as (mid & last & ->).
  rewrite length_cons, length_app in Hlen. simpl length in Hlen.
  assert (Hseq : write_seq no_faults args sk sym fmt (p0 :: mid ++ [last])
                   (empty_state, mkWorld ∅ []) = (Ok tt, (holding [] 1, w1))).
  { cbn [write_seq]. unfold bind at 1. rewrite write_columnar by done.
    cbn [buffer part handle lines writer header default from_option empty_state
         app length].
    change (Z.of_nat 1 >=? BATCH_SIZE_FOR_COLUMNAR) with false. cbv iota.
    erewrite (write_seq_columnar_batch fmt mid last _ _ [p0] 0 Hfmt);
      [|reflexivity|reflexivity|simpl length; lia].
    cbn [handle lines writer header files trace app].
    rewrite insert_empty. done. }
  assert (Hflush : forall tr,
             flush_all_buffers no_faults args
               ([(key, holding [r] 1)],
                mkWorld {[f1 := [Table fmt (p0 :: mid ++ [last])]]} tr) =
             (Ok tt,
              ([(key, holding [] 2)],
               mkWorld both
                 (tr ++ [LogInfo MsgCleanupStart; Did (WriteTable f2 fmt [r]);
                         LogInfo (MsgWroteBatch f2); LogInfo MsgCleanupDone])))).
  { intros tr. unfold flush_all_buffers, bind, fs_log, log, modify. cbn [fst snd].
    unfold key. rewrite flush_each_single by done.
    erewrite (flush_buffer_rows args sk sym no_faults fmt _ _ r [] 1 Hfmt);
      [|reflexivity|reflexivity].
    unfold no_faults, record.
    cbn [fst snd files trace handle lines writer header raises].
    rewrite <- !app_assoc. done. }
  split; [by apply write_all_from_empty|].
  split.
  { rewrite <- app_comm_cons. apply write_all_from_empty.
    rewrite app_comm_cons, write_seq_app, Hseq.
    cbn [write_seq]. unfold bind. rewrite write_columnar by done.
    cbn [buffer part handle lines writer header default from_option id app length].
    change (Z.of_nat 1 >=? BATCH_SIZE_FOR_COLUMNAR) with false. done. }
  split; [exact Hflush|].
  unfold stopped. rewrite shutdown_unfold.
  unfold begun, pipe_record, record, w1.
  cbn [queue items empty_queue join_loop unfinished Z.leb Z.compare writers
       world consumer producers files trace map].
  cbv zeta.
  cbn [queue items empty_queue join_loop unfinished Z.leb Z.compare writers
       world consumer producers files trace map cancel].
  destruct (output args) as [|o os] eqn:Ho; [done|].
  rewrite Hflush. cbn [fst snd writers world files trace].
  repeat split.
Qed.

End Columnar.

Lemma columnar_batching_witness :
  let a := mkArgs None false false false ["parquet"] "data" "1m" false in
  let row : Payload := [("price", PyRaw (JStr "1"))] in
  let ps := replicate (Z.to_nat 10000) row in
  write_all no_faults a "trades" "BTCUSDT" "parquet" (ps ++ [row])
    ([], mkWorld ∅ []) =
  (Ok tt,
   ([(writer_key_of "trades" "BTCUSDT" "parquet",
      mkState (Some [row]) (Some 1) None None None None)],
    mkWorld
      {[columnar_path a "trades" "BTCUSDT" 1 "parquet" := [Table "parquet" ps]]}
      [Did (WriteTable (columnar_path a "trades" "BTCUSDT" 1 "parquet")
              "parquet" ps);
       LogInfo (MsgWroteBatch (columnar_path a "trades" "BTCUSDT" 1 "parquet"))])).
Proof.
  intros a row ps.
  assert (H1 : is_columnar "parquet" = true) by reflexivity.
  assert (H2 : Z.of_nat (length ps) = BATCH_SIZE_FOR_COLUMNAR).
  { unfold ps. rewrite length_replicate. unfold BATCH_SIZE_FOR_COLUMNAR. lia. }
  assert (H3 : output a <> []) by (intros H; discriminate H).
  pose proof (columnar_batching a "trades" "BTCUSDT" "parquet" ps row true []
                H1 H2 H3) as H.
  destruct H as (_ & _ & H & _).
  exact H.
Defined.

(** ** What one call of the file writer does, whatever the outcome *)

Lemma is_line_cases (fmt : string) :
  is_line fmt = true -> fmt = "json" \/ fmt = "csv".
Proof.
  unfold is_line. intros [H|H]%orb_true_iff; apply String.eqb_eq in H; auto.
Qed.

(** Steps through the calls of the writer under an arbitrary oracle. *)
Ltac step_writer :=
  repeat
    (progress
       (unfold ws_get, ws_set, ws_io, ws_item, ws_log, bind, gets, modify, ret,
          raise, io, log, try_except, record;
        cbn -[String.append PyStr.lower PyStr.of_int Z.add Z.geb Z.of_nat
              BATCH_SIZE_FOR_COLUMNAR FILE_ROTATION_LINE_COUNT length app
              allocations main_steps]);
     try match goal with
         | |- context [if raises ?o ?n ?c then _ else _] =>
             destruct (raises o n c)
         | |- context [if ?a >=? ?b then _ else _] => destruct (a >=? b)
         end).

Ltac close_effect :=
  repeat split; try done;
  try (eexists; split; [rewrite <- ?app_assoc; simpl; reflexivity|]; try done).

Section CallEffect.

Variable oracle : Oracle.
Variable args : Args.

Lemma flush_buffer_effect (a b fmt : string) (st : WriterState) (w : World) :
  let res := flush_buffer oracle args a b fmt (st, w) in
  let st' := fst (snd res) in
  let w' := snd (snd res) in
  handle st' = handle st /\
  (exists tl, trace w' = trace w ++ tl /\ main_steps tl = []) /\
  if nonempty (buffer st) then
    buffer st' = Some [] /\
    match part st with
    | Some q =>
        fst res = Ok tt /\ part st' = Some (q + 1) /\
        exists tl,
          trace w' = trace w ++ tl /\
          allocations tl =
            (if is_columnar fmt then [columnar_path args a b (q + 1) fmt] else [])
    | None => part st' = None /\ w' = w
    end
  else res = (Ok tt, (st, w)).
Proof.
  destruct st as [bf pt h l wr hd]. unfold flush_buffer.
  destruct bf as [[|r rows]|];
    [step_writer; close_effect; exists []; by rewrite app_nil_r| |
     step_writer; close_effect; exists []; by rewrite app_nil_r].
  destruct pt as [q|];
    [|step_writer; close_effect; exists []; by rewrite app_nil_r].
  unfold is_columnar.
  destruct (String.eqb fmt "parquet") eqn:E1;
    [|destruct (String.eqb fmt "orc") eqn:E2];
    step_writer; rewrite ?E1, ?E2; step_writer; close_effect.
Qed.

Lemma write_body_line_effect (sk sym fmt : string) (p : Payload)
    (st : WriterState) (w : World) :
  is_line fmt = true ->
  let res := write_body oracle args sk sym p fmt (st, w) in
  let st' := fst (snd res) in
  let w' := snd (snd res) in
  buffer st' = buffer st /\
  exists tl,
    trace w' = trace w ++ tl /\ main_steps tl = [] /\
    match handle st with
    | None =>
        part st' = Some (default 0 (part st) + 1) /\
        allocations tl = [line_path args sk sym (default 0 (part st) + 1) fmt]
    | Some _ => part st' = part st /\ allocations tl = []
    end.
Proof.
  intros Hfmt. destruct st as [bf pt h l wr hd].
  destruct (is_line_cases fmt Hfmt) as [-> | ->]; unfold write_body;
    destruct h as [h|]; destruct l as [n|]; destruct wr as [x|];
    destruct hd as [hs|]; step_writer; close_effect;
    exists []; by rewrite app_nil_r.
Qed.

Lemma is_line_not_columnar (fmt : string) :
  is_line fmt = true -> is_columnar fmt = false.
Proof. by intros [-> | ->]%is_line_cases. Qed.

(** A columnar writer never raises when its buffer has its part
    counter: it buffers, and allocates at most the next part. *)
Lemma write_body_columnar_effect (sk sym fmt : string) (p : Payload)
    (st : WriterState) (w : World) :
  is_columnar fmt = true ->
  (is_Some (buffer st) -> is_Some (part st)) ->
  let res := write_body oracle args sk sym p fmt (st, w) in
  let st' := fst (snd res) in
  let w' := snd (snd res) in
  let q := default 0 (match buffer st with Some _ => part st | None => Some 0 end) in
  fst res = Ok tt /\ handle st' = handle st /\ is_Some (buffer st') /\
  exists tl,
    trace w' = trace w ++ tl /\ main_steps tl = [] /\
    ((part st' = Some q /\ allocations tl = []) \/
     (part st' = Some (q + 1) /\
      allocations tl = [columnar_path args sk sym (q + 1) fmt])).
Proof.
  intros Hfmt Hpart. cbv zeta. rewrite write_columnar by done. cbv zeta.
  set (pt := match buffer st with Some _ => part st | None => Some 0 end) in *.
  assert (Hpt : exists n, pt = Some n).
  { unfold pt. destruct (buffer st); [|by eexists].
    destruct Hpart as [n Hn]; [done|]. by exists n. }
  destruct Hpt as [n Hn]. rewrite Hn. cbn [default from_option id].
  destruct (Z.of_nat _ >=? BATCH_SIZE_FOR_COLUMNAR).
  - match goal with
    | |- context [flush_buffer oracle args sk sym fmt (?s, w)] =>
        pose proof (flush_buffer_effect sk sym fmt s w) as He
    end.
    cbn zeta in He. cbn [buffer part handle] in He.
    destruct (default [] (buffer st) ++ [p]) as [|r0 rows] eqn:Hrows.
    { by destruct (default [] (buffer st)). }
    cbn [nonempty] in He. rewrite Hfmt in He.
    destruct He as (Hh & _ & Hb & Hok & Hp & tl & Htl & Hal).
    repeat split; [done|done|by rewrite Hb|].
    assert (Hst : main_steps tl = []).
    { destruct (flush_buffer_effect sk sym fmt
                  (mkState (Some (r0 :: rows)) (Some n) (handle st) (lines st)
                     (writer st) (header st)) w)
        as (_ & (tl' & Htl' & Hm) & _).
      rewrite Htl in Htl'. by apply app_inv_head in Htl' as ->. }
    exists tl. split; [done|]. split; [done|]. right. done.
  - cbn [fst snd buffer part handle]. repeat split; [done|].
    exists []. rewrite app_nil_r. repeat split; [done..|]. left. done.
Qed.

End CallEffect.

(** ** The sinks keep the writer map in order *)

Lemma main_steps_app (a b : list Event) :
  main_steps (a ++ b) = main_steps a ++ main_steps b.
Proof. apply omap_app. Qed.

Lemma dict_get_set_eq {V} (d : Dict.t V) (k : string) (v : V) :
  Dict.get (Dict.set d k v) k = Some v.
Proof.
  induction d as [|[k' v'] d IH]; simpl.
  - by rewrite String.eqb_refl.
  - destruct (String.eqb k' k) eqn:E; simpl; rewrite E; [done|apply IH].
Qed.

Lemma dict_get_set_ne {V} (d : Dict.t V) (k j : string) (v : V) :
  k <> j -> Dict.get (Dict.set d k v) j = Dict.get d j.
Proof.
  intros Hne. induction d as [|[k' v'] d IH]; simpl.
  - destruct (String.eqb_spec k j); [done|done].
  - destruct (String.eqb_spec k' k) as [->|]; simpl.
    + destruct (String.eqb_spec k j); [done|done].
    + by rewrite IH.
Qed.

Lemma dict_set_Forall {V} (P : string * V -> Prop) (d : Dict.t V) (k : string)
    (v : V) :
  Forall P d -> P (k, v) -> Forall P (Dict.set d k v).
Proof.
  intros Hd Hv. induction Hd as [|[k' v'] d Hx Hd IH]; simpl.
  - by constructor.
  - destruct (String.eqb_spec k' k) as [->|]; constructor; auto.
Qed.

Lemma dict_get_Forall {V} (P : string * V -> Prop) (d : Dict.t V) (k : string)
    (v : V) :
  Forall P d -> Dict.get d k = Some v -> P (k, v).
Proof.
  intros Hd. induction Hd as [|[k' v'] d Hx Hd IH]; simpl; [done|].
  destruct (String.eqb_spec k' k) as [->|]; [by intros [= ->]|done].
Qed.

Section Quiet.

Variable oracle : Oracle.
Variable args : Args.

Lemma quiet_ret {A} (a : A) : quiet (ret a).
Proof. intros s. split; [done|]. exists []. by rewrite app_nil_r. Qed.

Lemma quiet_raise {A} (e : Exn) : quiet (raise (A := A) e).
Proof. intros s. split; [done|]. exists []. by rewrite app_nil_r. Qed.

Lemma quiet_bind {A B} (m : M FS A) (k : A -> M FS B) :
  quiet m -> (forall a, quiet (k a)) -> quiet (bind m k).
Proof.
  intros Hm Hk s. unfold bind.
  destruct (Hm s) as (Hok & tl & Htl & Hst).
  destruct (m s) as [[a|e] s1]; simpl in *.
  - destruct (Hk a s1) as (Hok' & tl' & Htl' & Hst'). split; [auto|].
    exists (tl ++ tl'). rewrite Htl', Htl, <- app_assoc, main_steps_app, Hst, Hst'.
    done.
  - split; [done|]. by exists tl.
Qed.

Lemma quiet_try {A} (m : M FS A) (h : Exn -> M FS A) :
  quiet m -> (forall e, quiet (h e)) -> quiet (try_except m h).
Proof.
  intros Hm Hh s. unfold try_except.
  destruct (Hm s) as (Hok & tl & Htl & Hst).
  destruct (m s) as [[a|e] s1]; simpl in *.
  - split; [done|]. by exists tl.
  - destruct (Hh e s1) as (Hok' & tl' & Htl' & Hst'). split; [auto|].
    exists (tl ++ tl'). rewrite Htl', Htl, <- app_assoc, main_steps_app, Hst, Hst'.
    done.
Qed.

Lemma quiet_io (c : IOCall) : quiet (fs_io oracle c).
Proof.
  intros [d w]. unfold fs_io, io. simpl.
  destruct (oracle _ _); simpl; (split; [done|]); by eexists [_].
Qed.

Lemma quiet_log (e : Event) :
  main_steps [e] = [] -> quiet (fs_log e).
Proof.
  intros He [d w]. unfold fs_log, log, modify. simpl. split; [done|]. by exists [e].
Qed.

Lemma write_body_trace (sk sym fmt : string) (p : Payload)
    (st : WriterState) (w : World) :
  exists tl,
    trace (snd (snd (write_body oracle args sk sym p fmt (st, w)))) =
      trace w ++ tl /\
    main_steps tl = [].
Proof.
  destruct (is_columnar fmt) eqn:Hc.
  - rewrite write_columnar by done. cbv zeta.
    destruct (Z.of_nat _ >=? BATCH_SIZE_FOR_COLUMNAR).
    + match goal with
      | |- context [flush_buffer oracle args sk sym fmt (?s, w)] =>
          destruct (flush_buffer_effect oracle args sk sym fmt s w)
            as (_ & Htr & _)
      end.
      exact Htr.
    + exists []. by rewrite app_nil_r.
  - destruct (is_line fmt) eqn:Hl.
    + destruct (write_body_line_effect oracle args sk sym fmt p st w Hl)
        as (_ & tl & Htl & Hst & _).
      by exists tl.
    + unfold write_body. rewrite Hc, Hl. exists []. by rewrite app_nil_r.
Qed.

Lemma write_body_entry_ok (sk sym fmt : string) (p : Payload)
    (st : WriterState) (w : World) :
  writer_entry_ok (writer_key_of sk sym fmt, st) ->
  writer_entry_ok
    (writer_key_of sk sym fmt,
     fst (snd (write_body oracle args sk sym p fmt (st, w)))).
Proof.
  intros (Hkey & Hbuf). simpl in Hbuf.
  split; [by exists sk, sym, fmt|]. cbn [fst snd].
  destruct (is_columnar fmt) eqn:Hc.
  - destruct (write_body_columnar_effect oracle args sk sym fmt p st w Hc)
      as (_ & _ & Hb & tl & Htl & Hst & Hp).
    { intros H. by apply Hbuf. }
    intros _. split.
    + destruct Hp as [[-> _]|[-> _]]; by eexists.
    + by exists sk, sym, fmt.
  - destruct (is_line fmt) eqn:Hl.
    + destruct (write_body_line_effect oracle args sk sym fmt p st w Hl)
        as (Hb & tl & Htl & Hst & Hp).
      rewrite Hb. intros H.
      destruct (Hbuf H) as (Hpt & Hdec). split; [|done].
      destruct (handle st); destruct Hp as [-> _]; [done|by eexists].
    + unfold write_body. rewrite Hc, Hl. done.
Qed.

Lemma quiet_write_to_file (sk sym fmt : string) (p : Payload) :
  quiet (write_to_file oracle args sk sym p fmt).
Proof.
  intros [d w]. unfold write_to_file. cbn [fst snd].
  set (key := writer_key_of sk sym fmt).
  set (st := default empty_state (Dict.get d key)).
  pose proof (write_body_trace sk sym fmt p st w) as Htr.
  pose proof (write_body_entry_ok sk sym fmt p st w) as Hentry.
  destruct (write_body oracle args sk sym p fmt (st, w)) as [[[]|e] [st' w']];
    cbn [fst snd] in *.
  - split; [|done]. intros Hd. apply dict_set_Forall; [done|].
    apply Hentry. unfold st.
    destruct (Dict.get d key) as [st0|] eqn:Hget; cbn [default from_option id].
    + by eapply (dict_get_Forall writer_entry_ok).
    + split; [by exists sk, sym, fmt|]. simpl. by intros [? ?].
  - split; [|done]. intros Hd. unfold st in *.
    destruct (Dict.get d key) as [st0|] eqn:Hget; [|done].
    apply dict_set_Forall; [done|]. apply Hentry.
    by eapply (dict_get_Forall writer_entry_ok).
Qed.

Lemma quiet_write_formats (sk sym : string) (p : Payload) (fmts : list string) :
  quiet (write_formats oracle args sk sym p fmts).
Proof.
  induction fmts as [|fmt fmts IH]; simpl; [apply quiet_ret|].
  apply quiet_bind; [apply quiet_write_to_file|done].
Qed.

Lemma quiet_console_sink (it : Item) : quiet (console_sink oracle args it).
Proof.
  unfold console_sink. destruct (print args || print_only args); [|apply quiet_ret].
  apply quiet_try.
  - apply quiet_bind; [|intros; apply quiet_ret].
    destruct (silent args); [apply quiet_io|].
    apply quiet_bind; [apply quiet_io|intros; apply quiet_io].
  - intros e. destruct e; try apply quiet_raise.
    apply quiet_bind; [by apply quiet_log|intros _].
    apply quiet_bind; [by apply quiet_log|intros _]. apply quiet_ret.
Qed.

Lemma quiet_dispatch (redis_client : bool) (it : Item) :
  quiet (dispatch oracle args redis_client it).
Proof.
  unfold dispatch. apply quiet_bind; [apply quiet_console_sink|].
  intros [|]; [|apply quiet_ret].
  apply quiet_bind; [destruct redis_client; [apply quiet_io|apply quiet_ret]|].
  intros _. apply quiet_bind; [|intros; apply quiet_ret].
  destruct (output args); [apply quiet_ret|apply quiet_write_formats].
Qed.

End Quiet.

(** ** The final flush *)

Lemma substring_0_app (a b : string) (n : nat) :
  String.substring 0 (String.length a + n) (a +:+ b) =
  a +:+ String.substring 0 n b.
Proof.
  induction a as [|x a IH]; [done|].
  rewrite !string_app_cons. simpl. by rewrite IH.
Qed.

Lemma rfind_cons_some (c : ascii) (s : string) :
  exists i, PyStr.rfind c (String c s) = Some i.
Proof.
  simpl. destruct (PyStr.rfind c s); [by eexists|].
  rewrite Ascii.eqb_refl. by eexists.
Qed.

(** Every writer key has its two underscores, so [rsplit('_', 2)]
    unpacks into three names. *)
Lemma rsplit2_three (sk sym fmt : string) :
  exists a b c, PyStr.rsplit2 "_" (writer_key_of sk sym fmt) = [a; b; c].
Proof.
  unfold writer_key_of.
  set (rest := PyStr.lower sym +:+ String "_" fmt).
  change (sk +:+ "_" +:+ PyStr.lower sym +:+ "_" +:+ fmt)
    with (sk +:+ String "_" rest).
  assert (Hrest : exists k, PyStr.rfind "_" rest = Some k).
  { unfold rest. rewrite rfind_app.
    destruct (rfind_cons_some "_" fmt) as [i ->]. by eexists. }
  destruct Hrest as [k Hk].
  assert (Hkey : PyStr.rfind "_" (sk +:+ String "_" rest) =
                 Some (String.length sk + S k)%nat).
  { rewrite rfind_app. simpl. by rewrite Hk. }
  unfold PyStr.rsplit2, PyStr.rsplit1 at 1. rewrite Hkey.
  rewrite substring_0_app. simpl String.substring at 1.
  unfold PyStr.rsplit1. rewrite rfind_app.
  destruct (rfind_cons_some "_" (String.substring 0 k rest)) as [i ->].
  simpl. by eexists _, _, _.
Qed.

Section FinalFlush.

Variable oracle : Oracle.
Variable args : Args.

Lemma flush_each_trace (d : Writers) (w : World) :
  exists tl,
    trace (snd (snd (flush_each oracle args d w))) = trace w ++ tl /\
    main_steps tl = [].
Proof.
  revert w. induction d as [|[k st] d IH]; intros w; cbn [flush_each].
  - exists []. by rewrite app_nil_r.
  - destruct (PyStr.endswith k "parquet" || PyStr.endswith k "orc").
    + destruct (PyStr.rsplit2 "_" k) as [|a [|b [|c [|? ?]]]];
        try (exists []; by rewrite app_nil_r).
      destruct (flush_buffer_effect oracle args a b c st w)
        as (_ & (tl & Htl & Hst) & _).
      destruct (flush_buffer oracle args a b c (st, w)) as [[[]|e] [st' w']];
        cbn [fst snd] in *; [|by exists tl].
      destruct (IH w') as (tl' & Htl' & Hst').
      exists (tl ++ tl'). by rewrite Htl', Htl, <- app_assoc, main_steps_app, Hst, Hst'.
    + destruct (IH w) as (tl & Htl & Hst). by exists tl.
Qed.

(** On a writer map in order, the final flush does not raise and leaves
    no buffer with rows, whether the writes succeed or fail. *)
Lemma flush_each_ok (d : Writers) (w : World) :
  writers_ok d ->
  fst (flush_each oracle args d w) = Ok tt /\
  writers_ok (fst (snd (flush_each oracle args d w))) /\
  no_pending_rows (fst (snd (flush_each oracle args d w))).
Proof.
  intros Hd. revert w.
  induction Hd as [|[k st] d Hx Hd IH]; intros w; cbn [flush_each].
  - by repeat split; constructor.
  - destruct Hx as (Hkey & Hbuf). cbn [fst snd] in *.
    destruct (PyStr.endswith k "parquet" || PyStr.endswith k "orc") eqn:Hend.
    + destruct Hkey as (sk & sym & fmt & ->).
      destruct (rsplit2_three sk sym fmt) as (a & b & c & ->).
      pose proof (flush_buffer_effect oracle args a b c st w) as He.
      cbv zeta in He. destruct He as (_ & _ & He).
      destruct (nonempty (buffer st)) eqn:Hne.
      * destruct He as (Hb & He).
        destruct (buffer st) as [bf|] eqn:Hbf; [|done].
        destruct Hbuf as ((q & Hq) & Hdec); [done|]. rewrite Hq in He.
        destruct He as (Hok & Hp & _).
        destruct (flush_buffer oracle args a b c (st, w)) as [r [st' w']].
        cbn [fst snd] in *. subst r.
        destruct (IH w') as (Hr & Hok' & Hnp). cbn [fst snd].
        split; [done|]. split; constructor; try done.
        -- split; [by eexists _, _, _|]. cbn [fst snd]. rewrite Hp. by intros _.
        -- cbn [snd]. by rewrite Hb.
      * rewrite He. destruct (IH w) as (Hr & Hok' & Hnp). cbn [fst snd].
        split; [done|]. split; constructor; try done.
        split; [by eexists _, _, _|done].
    + destruct (IH w) as (Hr & Hok' & Hnp). cbn [fst snd].
      split; [done|]. split.
      * constructor; [by split|done].
      * constructor; [|done].
        cbn [snd]. destruct (buffer st) as [bf|] eqn:Hbf; [|done].
        destruct Hbuf as (_ & sk & sym & fmt & Hk & Hc); [done|].
        rewrite Hk, writer_key_columnar in Hend by done. done.
Qed.

Lemma quiet_flush_all_buffers : quiet (flush_all_buffers oracle args).
Proof.
  unfold flush_all_buffers.
  apply quiet_bind; [by apply quiet_log|intros _].
  apply quiet_bind; [|intros _; by apply quiet_log].
  intros [d w]. cbn [fst snd]. split; [|apply flush_each_trace].
  intros Hd. by apply flush_each_ok.
Qed.

Lemma flush_all_buffers_ok (d : Writers) (w : World) :
  writers_ok d ->
  fst (flush_all_buffers oracle args (d, w)) = Ok tt /\
  no_pending_rows (fst (snd (flush_all_buffers oracle args (d, w)))).
Proof.
  intros Hd. unfold flush_all_buffers, bind, fs_log, log, modify. cbn [fst snd].
  destruct (flush_each_ok d (record (LogInfo MsgCleanupStart) w) Hd)
    as (Hr & _ & Hnp).
  destruct (flush_each oracle args d _) as [r [d' w']]. cbn [fst snd] in *.
  by subst r.
Qed.

End FinalFlush.

(** ** The paths of the part files *)

Lemma rsplit1_app (c : ascii) (a b : string) :
  PyStr.rfind c b = None -> PyStr.rsplit1 c (a +:+ String c b) = [a; b].
Proof.
  intros Hb. unfold PyStr.rsplit1. rewrite rfind_app. simpl. rewrite Hb.
  rewrite Ascii.eqb_refl. simpl.
  rewrite Nat.add_0_r, substring_take_prefix. f_equal. f_equal.
  rewrite string_app_length. simpl.
  replace (S (String.length a)) with (String.length a + 1)%nat by lia.
  rewrite substring_skip_prefix. simpl.
  replace (String.length a + S (String.length b) - (String.length a + 1))%nat
    with (String.length b) by lia.
  apply substring_all.
Qed.

Lemma pretty_N_go_no_underscore (x : N) (s : string) :
  PyStr.rfind "_" s = None -> PyStr.rfind "_" (pretty_N_go x s) = None.
Proof.
  revert s. induction (N.lt_wf_0 x) as [x _ IH]; intros s Hs.
  destruct (decide (x = 0%N)) as [->|Hx]; [by rewrite pretty_N_go_0|].
  rewrite pretty_N_go_step by lia. apply IH; [apply N.div_lt; lia|].
  simpl. rewrite Hs. unfold pretty_N_char. by repeat case_match.
Qed.

Lemma of_int_no_underscore (z : Z) : PyStr.rfind "_" (PyStr.of_int z) = None.
Proof.
  unfold PyStr.of_int, pretty, pretty_Z. destruct z as [|x|x]; [done| |].
  - unfold pretty, pretty_positive, pretty, pretty_N.
    case_decide; [done|]. by apply pretty_N_go_no_underscore.
  - change ("-" +:+ ?s) with (String "-" s). simpl.
    unfold pretty, pretty_positive, pretty, pretty_N.
    case_decide; [done|]. by rewrite pretty_N_go_no_underscore.
Qed.

Lemma part_path_shape (args : Args) (sk sym fmt : string) (q : Z) :
  part_path args sk sym fmt q =
  output_dir args +:+ "/" +:+
    ((sk +:+ "_" +:+ PyStr.lower sym) +:+ String "_" (PyStr.of_int q))
    +:+ String "." (part_ext fmt).
Proof.
  unfold part_path, part_ext, columnar_path, line_path.
  destruct (is_columnar fmt); by rewrite !string_app_assoc.
Qed.

Lemma part_ext_known (fmt fmt' : string) :
  known_format fmt = true -> known_format fmt' = true ->
  PyStr.rfind "." (part_ext fmt) = None /\
  (part_ext fmt = part_ext fmt' -> fmt = fmt').
Proof.
  unfold known_format. intros H H'.
  assert (Hc : forall f, is_columnar f || is_line f = true ->
                         f = "parquet" \/ f = "orc" \/ f = "json" \/ f = "csv").
  { intros f [Hf|Hf]%orb_true_iff.
    - destruct (is_columnar_cases f Hf); auto.
    - destruct (is_line_cases f Hf); auto. }
  destruct (Hc fmt H) as [-> | [-> | [-> | ->] ] ];
    destruct (Hc fmt' H') as [-> | [-> | [-> | ->] ] ];
    split; try done; by intros [=].
Qed.

(** Part files with the same path belong to the same writer and are the
    same part. *)
Lemma part_path_owner (args : Args) (sk sym fmt sk' sym' fmt' : string)
    (q q' : Z) :
  known_format fmt = true -> known_format fmt' = true ->
  part_path args sk sym fmt q = part_path args sk' sym' fmt' q' ->
  fmt = fmt' /\ q = q' /\ writer_key_of sk sym fmt = writer_key_of sk' sym' fmt'.
Proof.
  intros Hk Hk' H. rewrite !part_path_shape in H.
  do 2 apply (inj (String.append _)) in H.
  destruct (part_ext_known fmt fmt' Hk Hk') as [Hdot Hext].
  destruct (part_ext_known fmt' fmt Hk' Hk) as [Hdot' _].
  apply (f_equal (PyStr.rsplit1 ".")) in H.
  rewrite !rsplit1_app in H by done. injection H as H He.
  apply Hext in He as <-.
  apply (f_equal (PyStr.rsplit1 "_")) in H.
  rewrite !rsplit1_app in H by apply of_int_no_underscore.
  injection H as H Hq. apply (inj pretty) in Hq as <-.
  split; [done|]. split; [done|].
  unfold writer_key_of.
  replace (sk +:+ "_" +:+ PyStr.lower sym +:+ "_" +:+ fmt)
    with ((sk +:+ "_" +:+ PyStr.lower sym) +:+ "_" +:+ fmt)
    by (by rewrite !string_app_assoc).
  rewrite H. by rewrite !string_app_assoc.
Qed.

(** The path the final flush rebuilds from the key is the path the
    writer uses. *)
Lemma columnar_path_split (args : Args) (sk sym fmt a b : string) (q : Z) :
  a +:+ "_" +:+ PyStr.lower b = sk +:+ "_" +:+ PyStr.lower sym ->
  columnar_path args a b q fmt = columnar_path args sk sym q fmt.
Proof.
  intros H. unfold columnar_path.
  replace (a +:+ "_" +:+ PyStr.lower b +:+ "_" +:+ PyStr.of_int q +:+ "." +:+ fmt)
    with ((a +:+ "_" +:+ PyStr.lower b) +:+ "_" +:+ PyStr.of_int q +:+ "." +:+ fmt)
    by (by rewrite !string_app_assoc).
  rewrite H. by rewrite !string_app_assoc.
Qed.

(** ** The keys of the writer map *)

Lemma dict_set_key_in {V} (d : Dict.t V) (k j : string) (v : V) :
  j ∈ map fst (Dict.set d k v) -> j = k \/ j ∈ map fst d.
Proof.
  induction d as [|[k' v'] d IH]; simpl.
  - intros H%list_elem_of_singleton. by left.
  - destruct (String.eqb_spec k' k) as [->|]; simpl; [auto|].
    intros [->|H]%elem_of_cons; [right; by left|].
    destruct (IH H); [by left|right; by right].
Qed.

Lemma dict_set_distinct (d : Writers) (k : string) (v : WriterState) :
  distinct_keys d -> distinct_keys (Dict.set d k v).
Proof.
  unfold distinct_keys. induction d as [|[k' v'] d IH]; simpl.
  - intros _. apply NoDup_singleton.
  - intros [Hnot Hd]%NoDup_cons.
    destruct (String.eqb_spec k' k) as [->|Hne]; simpl.
    + by apply NoDup_cons.
    + apply NoDup_cons. split; [|auto].
      intros [->|H]%dict_set_key_in; done.
Qed.

Lemma dict_get_key_in {V} (d : Dict.t V) (k : string) (v : V) :
  Dict.get d k = Some v -> k ∈ map fst d.
Proof.
  induction d as [|[k' v'] d IH]; simpl; [done|].
  destruct (String.eqb_spec k' k) as [->|]; [by left|right; auto].
Qed.

Section Keeps.

Variable oracle : Oracle.
Variable args : Args.
Variable P : Writers -> Prop.
Hypothesis P_set : forall d k v, P d -> P (Dict.set d k v).

Lemma keeps_ret {A} (a : A) : keeps P (ret a).
Proof. by intros s. Qed.

Lemma keeps_raise {A} (e : Exn) : keeps P (raise (A := A) e).
Proof. by intros s. Qed.

Lemma keeps_bind {A B} (m : M FS A) (k : A -> M FS B) :
  keeps P m -> (forall a, keeps P (k a)) -> keeps P (bind m k).
Proof.
  intros Hm Hk s HP. unfold bind. specialize (Hm s HP).
  destruct (m s) as [[a|e] s1]; simpl in *; [by apply Hk|done].
Qed.

Lemma keeps_try {A} (m : M FS A) (h : Exn -> M FS A) :
  keeps P m -> (forall e, keeps P (h e)) -> keeps P (try_except m h).
Proof.
  intros Hm Hh s HP. unfold try_except. specialize (Hm s HP).
  destruct (m s) as [[a|e] s1]; simpl in *; [done|by apply Hh].
Qed.

Lemma keeps_io (c : IOCall) : keeps P (fs_io oracle c).
Proof. intros [d w] HP. unfold fs_io, io. simpl. by destruct (raises oracle _ _). Qed.

Lemma keeps_log (e : Event) : keeps P (fs_log e).
Proof. by intros [d w] HP. Qed.

Lemma keeps_write_to_file (sk sym fmt : string) (p : Payload) :
  keeps P (write_to_file oracle args sk sym p fmt).
Proof.
  intros [d w] HP. unfold write_to_file. cbn [fst snd] in *.
  destruct (write_body oracle args sk sym p fmt _) as [[[]|e] [st' w']];
    cbn [fst snd]; [by apply P_set|].
  destruct (Dict.get d _); [by apply P_set|done].
Qed.

Lemma keeps_write_formats (sk sym : string) (p : Payload) (fmts : list string) :
  keeps P (write_formats oracle args sk sym p fmts).
Proof.
  induction fmts as [|fmt fmts IH]; simpl; [apply keeps_ret|].
  apply keeps_bind; [apply keeps_write_to_file|done].
Qed.

Lemma keeps_file_sink (it : Item) :
  keeps P
    (match output args with
     | [] => ret tt
     | fmts =>
         write_formats oracle args (item_stream it) (item_symbol it)
           (item_payload it) fmts
     end).
Proof. destruct (output args); [apply keeps_ret|apply keeps_write_formats]. Qed.

Lemma keeps_console_sink (it : Item) : keeps P (console_sink oracle args it).
Proof.
  unfold console_sink. destruct (print args || print_only args); [|apply keeps_ret].
  apply keeps_try.
  - apply keeps_bind; [|intros; apply keeps_ret].
    destruct (silent args); [apply keeps_io|].
    apply keeps_bind; [apply keeps_io|intros; apply keeps_io].
  - intros e. destruct e; try apply keeps_raise.
    apply keeps_bind; [apply keeps_log|intros _].
    apply keeps_bind; [apply keeps_log|intros _]. apply keeps_ret.
Qed.

Lemma keeps_dispatch (redis_client : bool) (it : Item) :
  keeps P (dispatch oracle args redis_client it).
Proof.
  unfold dispatch. apply keeps_bind; [apply keeps_console_sink|].
  intros [|]; [|apply keeps_ret].
  apply keeps_bind; [destruct redis_client; [apply keeps_io|apply keeps_ret]|].
  intros _. apply keeps_bind; [apply keeps_file_sink|intros; apply keeps_ret].
Qed.

End Keeps.

(** ** The dispatcher and the queue *)

Section DispatcherFacts.

Variable oracle : Oracle.
Variable args : Args.
Variable redis_client : bool.

Local Notation "'consume''" := (consume oracle args redis_client).
Local Notation "'dispatch''" := (dispatch oracle args redis_client).
Local Notation "'resume''" := (resume oracle args).
Local Notation "'settled''" := (settled oracle args).

(** One pass of the dispatcher, by the way the loop body ends. *)
Lemma consume_spec (it : Item) (rest : list Item) (p : Pipeline) :
  let p' := consume' it rest p in
  (writers_ok (writers p) -> writers_ok (writers p')) /\
  (exists tl, trace (world p') = trace (world p) ++ tl /\ main_steps tl = []) /\
  items (queue p') = rest /\
  match dispatch' it (writers p, world p) with
  | (Ok Continue, _) =>
      0 < unfinished (queue p) ->
      consumer p' = Running /\
      unfinished (queue p') = unfinished (queue p) - 1 /\
      producers p' = producers p
  | (Ok Break, _) =>
      consumer p' = Finished /\ unfinished (queue p') = unfinished (queue p)
  | (Raise e, _) =>
      consumer p' = Crashed e /\ unfinished (queue p') = unfinished (queue p) /\
      producers p' = producers p
  end.
Proof.
  unfold consume.
  destruct (quiet_dispatch oracle args redis_client it (writers p, world p))
    as (Hok & tl & Htl & Hst).
  destruct (dispatch' it (writers p, world p)) as [[[|]|e] [ws w]];
    cbn [fst snd] in *.
  - destruct (Z.leb_spec (unfinished (queue p)) 0); cbn.
    + split; [done|]. split; [by exists tl|]. split; [done|]. intros; lia.
    + split; [done|]. split.
      { exists (tl ++ [TaskDone]).
        by rewrite Htl, <- app_assoc, main_steps_app, Hst. }
      by split.
  - cbn. split; [done|]. split; [by exists tl|]. by split.
  - cbn. split; [done|]. split; [by exists tl|]. by split.
Qed.

Lemma consume_distinct (it : Item) (rest : list Item) (p : Pipeline) :
  distinct_keys (writers p) -> distinct_keys (writers (consume' it rest p)).
Proof.
  intros Hd. unfold consume.
  pose proof (keeps_dispatch oracle args distinct_keys dict_set_distinct
                redis_client it (writers p, world p) Hd) as H.
  destruct (dispatch' it (writers p, world p)) as [[[|]|e] [ws w]];
    cbn [fst snd] in *; try done.
  by destruct (unfinished (queue p) <=? 0).
Qed.

Lemma consume_all_distinct (its : list Item) (p : Pipeline) :
  distinct_keys (writers p) ->
  distinct_keys (writers (consume_all oracle args redis_client its p)).
Proof.
  revert p. induction its as [|it rest IH]; intros p Hd; [done|].
  cbn [consume_all]. apply IH. by apply consume_distinct.
Qed.

(** The pass in flight brought to its end: it ends the dispatcher with
    the exception of a sink, or marks its tuple done. *)
Lemma resume_spec (it : Item) (p : Pipeline) :
  let p' := resume' it p in
  (writers_ok (writers p) -> writers_ok (writers p')) /\
  (distinct_keys (writers p) -> distinct_keys (writers p')) /\
  (exists tl, trace (world p') = trace (world p) ++ tl /\ main_steps tl = []) /\
  items (queue p') = items (queue p) /\ producers p' = producers p /\
  (0 < unfinished (queue p) ->
   consumer p' = Running /\ unfinished (queue p') = unfinished (queue p) - 1 \/
   (exists e, consumer p' = Crashed e) /\
   unfinished (queue p') = unfinished (queue p)).
Proof.
  unfold resume.
  set (m := bind _ _).
  assert (Hq : quiet m).
  { apply quiet_bind; [apply quiet_io|intros _].
    destruct (output args); [apply quiet_ret|apply quiet_write_formats]. }
  assert (Hk : keeps distinct_keys m).
  { apply keeps_bind; [apply keeps_io|intros _].
    by apply keeps_file_sink, dict_set_distinct. }
  destruct (Hq (writers p, world p)) as (Hok & tl & Htl & Hst).
  specialize (Hk (writers p, world p)).
  destruct (m (writers p, world p)) as [[[]|e] [ws w]]; cbn [fst snd] in *.
  - destruct (Z.leb_spec (unfinished (queue p)) 0); cbn.
    + repeat split; try done; [by exists tl|intros; lia].
    + repeat split; try done.
      * exists (tl ++ [TaskDone]).
        by rewrite Htl, <- app_assoc, main_steps_app, Hst.
      * intros _. by left.
  - cbn. repeat split; try done; [by exists tl|].
    intros _. right. split; [by eexists|done].
Qed.

Lemma settled_waiting (p : Pipeline) :
  (forall it, consumer p <> Storing it) -> settled' p = p.
Proof. unfold settled. intros H. destruct (consumer p); try done. by destruct (H it). Qed.

(** A dispatcher that has ended leaves the join waiting for ever. *)
Lemma join_loop_dead (its : list Item) (p : Pipeline) :
  has_ended (consumer p) = true -> 0 < unfinished (queue p) ->
  join_loop oracle args redis_client its p = (Hung, p).
Proof.
  intros Hc Hu.
  assert (Hs : settled' p = p).
  { apply settled_waiting. intros it H. by rewrite H in Hc. }
  destruct its; simpl; rewrite Hs;
    (destruct (Z.leb_spec (unfinished (queue p)) 0); [lia|]);
    by destruct (consumer p).
Qed.

(** One turn of the join with the dispatcher waiting for a tuple. *)
Lemma join_loop_waiting (it : Item) (rest : list Item) (p : Pipeline) :
  consumer p = Running -> 0 < unfinished (queue p) ->
  join_loop oracle args redis_client (it :: rest) p =
  match consumer (consume' it rest p) with
  | Finished => (MainCancelled, consume' it rest p)
  | _ => join_loop oracle args redis_client rest (consume' it rest p)
  end.
Proof.
  intros Hc Hu. cbn [join_loop].
  rewrite settled_waiting by (intros ? H; by rewrite H in Hc).
  destruct (Z.leb_spec (unfinished (queue p)) 0); [lia|]. by rewrite Hc.
Qed.

(** The join with the pass in flight first. *)
Lemma join_loop_storing (it : Item) (its : list Item) (p : Pipeline) :
  consumer p = Storing it -> 0 < unfinished (queue p) ->
  join_loop oracle args redis_client its p =
  join_loop oracle args redis_client its (resume' it p).
Proof.
  intros Hc Hu.
  pose proof (resume_spec it p) as Hr. cbv zeta in Hr.
  destruct Hr as (_ & _ & _ & _ & _ & Hr). specialize (Hr Hu).
  assert (Hs : settled' p = resume' it p) by (unfold settled; by rewrite Hc).
  assert (Hs' : settled' (resume' it p) = resume' it p).
  { apply settled_waiting. intros it' H.
    destruct Hr as [[Hrun _]|[[e He] _]]; congruence. }
  destruct its as [|it' rest]; cbn [join_loop]; rewrite Hs, Hs';
    (destruct (Z.leb_spec (unfinished (queue p)) 0); [lia|]);
    by destruct (unfinished (queue (resume' it p)) <=? 0).
Qed.

(** The join of the shutdown with the dispatcher waiting for a tuple. *)
Lemma join_loop_spec (its : list Item) (p : Pipeline) :
  consumer p = Running ->
  unfinished (queue p) = Z.of_nat (length its) ->
  writers_ok (writers p) ->
  let r := join_loop oracle args redis_client its p in
  writers_ok (writers (snd r)) /\
  (exists tl, trace (world (snd r)) = trace (world p) ++ tl /\ main_steps tl = []) /\
  match fst r with
  | Joined =>
      dispatches_cleanly oracle args redis_client its p /\
      snd r = consume_all oracle args redis_client its p /\
      unfinished (queue (snd r)) = 0 /\
      consumer (snd r) = Running /\
      producers (snd r) = producers p
  | Hung =>
      ~ dispatches_cleanly oracle args redis_client its p /\
      (exists e, consumer (snd r) = Crashed e) /\ 0 < unfinished (queue (snd r))
  | MainCancelled =>
      ~ dispatches_cleanly oracle args redis_client its p /\
      consumer (snd r) = Finished
  end.
Proof.
  revert p. induction its as [|it rest IH]; intros p Hc Hu Hok.
  - cbn [join_loop]. simpl in Hu. rewrite Hu. cbn. repeat split; try done.
    exists []. by rewrite app_nil_r.
  - rewrite length_cons in Hu.
    rewrite join_loop_waiting by (done || lia).
    pose proof (consume_spec it rest p) as Hs. cbv zeta in Hs.
    destruct Hs as (Hok' & (tl & Htl & Hst) & Hitems & Hcase).
    cbn [dispatches_cleanly consume_all].
    destruct (dispatch' it (writers p, world p)) as [[[|]|e] [ws w]].
    + destruct Hcase as (Hrun & Hun & Hpr); [lia|]. rewrite Hrun.
      specialize (IH (consume' it rest p) Hrun).
      destruct IH as (Hok2 & (tl2 & Htl2 & Hst2) & Hexit); [lia|auto|].
      split; [done|]. split.
      { exists (tl ++ tl2). by rewrite Htl2, Htl, <- app_assoc, main_steps_app, Hst, Hst2. }
      destruct (fst (join_loop oracle args redis_client rest (consume' it rest p)));
        [|done..].
      destruct Hexit as (? & ? & ? & ? & Hp). repeat split; try done.
      by rewrite Hp.
    + destruct Hcase as (Hfin & Hun). rewrite Hfin. cbn [fst snd].
      repeat split; auto. by exists tl.
    + destruct Hcase as (Hcr & Hun & Hpr). rewrite Hcr.
      rewrite join_loop_dead by (rewrite ?Hcr, ?Hun; done || lia).
      cbn [fst snd]. repeat split; auto; [by exists tl|by eexists|lia].
Qed.

(** The join of the shutdown, the dispatcher being alive. *)
Lemma join_spec (p : Pipeline) :
  alive p ->
  let r := join oracle args redis_client p in
  writers_ok (writers (snd r)) /\
  (exists tl, trace (world (snd r)) = trace (world p) ++ tl /\ main_steps tl = []) /\
  match fst r with
  | Joined =>
      drains_cleanly oracle args redis_client p /\
      snd r = consume_all oracle args redis_client (items (queue p)) (settled' p) /\
      unfinished (queue (snd r)) = 0 /\
      consumer (snd r) = Running /\
      producers (snd r) = producers p
  | Hung =>
      ~ drains_cleanly oracle args redis_client p /\
      (exists e, consumer (snd r) = Crashed e) /\ 0 < unfinished (queue (snd r))
  | MainCancelled =>
      ~ drains_cleanly oracle args redis_client p /\
      consumer (snd r) = Finished
  end.
Proof.
  intros (Hc & Hok & _). unfold join, drains_cleanly.
  destruct (consumer p) as [|it| | |] eqn:Hcp; try done.
  - rewrite settled_waiting by (intros ? H; congruence). rewrite Hcp.
    pose proof (join_loop_spec (items (queue p)) p Hcp Hc Hok) as Hj.
    cbv zeta in Hj. destruct Hj as (H1 & H2 & H3).
    split; [done|]. split; [done|].
    destruct (fst (join_loop oracle args redis_client (items (queue p)) p));
      [|destruct H3 as (Hn & ?); split; [by intros [_ ?]|done]..].
    destruct H3 as (? & ? & ? & ? & ?). by repeat split.
  - assert (Hpos : 0 < unfinished (queue p)) by lia.
    rewrite (join_loop_storing it _ p Hcp Hpos).
    assert (Hs : settled' p = resume' it p) by (unfold settled; by rewrite Hcp).
    rewrite Hs.
    pose proof (resume_spec it p) as Hr. cbv zeta in Hr.
    destruct Hr as (Hok1 & _ & (tl1 & Htl1 & Hst1) & Hit & Hpr & Hr).
    destruct (Hr Hpos) as [[Hrun Hun]|[[e He] Hun]].
    + rewrite <- Hit.
      pose proof (join_loop_spec (items (queue (resume' it p))) (resume' it p) Hrun)
        as Hj.
      cbv zeta in Hj. destruct Hj as (H1 & (tl2 & Htl2 & Hst2) & H3);
        [rewrite Hun, Hit; lia|auto|].
      split; [done|]. split.
      { exists (tl1 ++ tl2).
        by rewrite Htl2, Htl1, <- app_assoc, main_steps_app, Hst1, Hst2. }
      destruct (fst (join_loop oracle args redis_client _ (resume' it p)));
        [|destruct H3 as (Hn & ?); split; [by intros [_ ?]|done]..].
      destruct H3 as (? & ? & ? & ? & Hp). repeat split; try done. congruence.
    + rewrite join_loop_dead by (rewrite ?He, ?Hun; done || lia).
      cbn [fst snd]. split; [auto|]. split; [by exists tl1|].
      split; [intros [H _]; congruence|]. split; [by eexists|lia].
Qed.

End DispatcherFacts.

(** ** The final flush, batch by batch *)

Section FinalBatches.

Variable oracle : Oracle.
Variable args : Args.

Lemma columnar_known (fmt : string) : is_columnar fmt = true -> known_format fmt = true.
Proof. unfold known_format. by intros ->. Qed.

Lemma columnar_part_path (sk sym fmt : string) (q : Z) :
  is_columnar fmt = true ->
  columnar_path args sk sym q fmt = part_path args sk sym fmt q.
Proof. unfold part_path. by intros ->. Qed.

(** Columnar writers with the same key write the same part files. *)
Lemma columnar_key_path (sk sym fmt sk' sym' fmt' : string) (q : Z) :
  is_columnar fmt = true -> is_columnar fmt' = true ->
  writer_key_of sk sym fmt = writer_key_of sk' sym' fmt' ->
  fmt = fmt' /\
  columnar_path args sk sym q fmt = columnar_path args sk' sym' q fmt'.
Proof.
  intros Hc Hc' Hk.
  destruct (rsplit2_writer_key sk sym fmt (columnar_no_underscore fmt Hc))
    as (a & b & Hs & Hab).
  destruct (rsplit2_writer_key sk' sym' fmt' (columnar_no_underscore fmt' Hc'))
    as (a' & b' & Hs' & Hab').
  rewrite Hk, Hs' in Hs. injection Hs as -> -> ->.
  split; [done|].
  rewrite <- (columnar_path_split args sk sym fmt a b q Hab).
  by rewrite <- (columnar_path_split args sk' sym' fmt a b q Hab').
Qed.

(** What [flush_each] does with the entry of a columnar writer that
    holds rows. *)
Lemma flush_each_batch (sk sym fmt : string) (st : WriterState) (d : Writers)
    (w : World) (r : Payload) (rows : list Payload) (q : Z) :
  is_columnar fmt = true ->
  buffer st = Some (r :: rows) -> part st = Some q ->
  let f := columnar_path args sk sym (q + 1) fmt in
  let call := WriteTable f fmt (r :: rows) in
  let st' :=
    mkState (Some []) (Some (q + 1)) (handle st) (lines st) (writer st)
      (header st) in
  let w' :=
    if oracle (length (trace w)) call
    then mkWorld (files w) (trace w ++ [Failed call; LogError (MsgWriteError f)])
    else mkWorld (<[f := [Table fmt (r :: rows)]]> (files w))
           (trace w ++ [Did call; LogInfo (MsgWroteBatch f)]) in
  flush_each oracle args ((writer_key_of sk sym fmt, st) :: d) w =
  let rest := flush_each oracle args d w' in
  (fst rest, ((writer_key_of sk sym fmt, st') :: fst (snd rest), snd (snd rest))).
Proof.
  intros Hc Hb Hq. cbv zeta. cbn [flush_each].
  rewrite (writer_key_columnar sk sym fmt Hc).
  destruct (rsplit2_writer_key sk sym fmt (columnar_no_underscore fmt Hc))
    as (a & b & -> & Hab).
  rewrite (flush_buffer_path_ext args sk sym oracle a b fmt (st, w) Hab).
  by rewrite (flush_buffer_rows args sk sym oracle fmt st w r rows q Hc Hb Hq).
Qed.

(** An entry without buffered rows is left as it is. *)
Lemma flush_each_idle_entry (k : string) (st : WriterState) (d : Writers)
    (w : World) :
  writer_entry_ok (k, st) -> nonempty (buffer st) = false ->
  flush_each oracle args ((k, st) :: d) w =
  let rest := flush_each oracle args d w in
  (fst rest, ((k, st) :: fst (snd rest), snd (snd rest))).
Proof.
  intros ((sk & sym & fmt & Hk) & _) Hne. cbv zeta. cbn [flush_each].
  simpl in Hk. subst k.
  destruct (_ || _); [|done].
  destruct (rsplit2_three sk sym fmt) as (a & b & c & ->).
  by rewrite (flush_buffer_nothing args oracle a b c st w Hne).
Qed.

(** The final flush writes to no file but a part of a columnar writer
    of the map. *)
Lemma flush_each_frame (d : Writers) (w : World) (f : string) :
  writers_ok d ->
  (forall sk sym fmt q,
     is_columnar fmt = true -> writer_key_of sk sym fmt ∈ map fst d ->
     f <> columnar_path args sk sym q fmt) ->
  files (snd (snd (flush_each oracle args d w))) !! f = files w !! f.
Proof.
  intros Hd. revert w. induction Hd as [|[k st] d Hx Hd IH]; intros w Hf; [done|].
  assert (Hf' : forall sk sym fmt q,
             is_columnar fmt = true -> writer_key_of sk sym fmt ∈ map fst d ->
             f <> columnar_path args sk sym q fmt).
  { intros sk sym fmt q Hc Hin. apply Hf; [done|]. by right. }
  destruct (nonempty (buffer st)) eqn:Hne.
  - pose proof Hx as (_ & Hbuf). cbn [fst snd] in Hbuf.
    destruct (buffer st) as [[|r rows]|] eqn:Hb; try done.
    destruct Hbuf as ((q & Hq) & sk & sym & fmt & -> & Hc); [done|].
    rewrite (flush_each_batch sk sym fmt st d w r rows q Hc Hb Hq).
    cbv zeta. cbn [fst snd]. rewrite IH by done.
    destruct (raises oracle _ _); cbn [files]; [done|].
    apply lookup_insert_ne. intros Heq. symmetry in Heq. revert Heq.
    apply Hf; [done|by left].
  - rewrite (flush_each_idle_entry k st d w Hx Hne). cbv zeta. cbn [fst snd].
    by apply IH.
Qed.

Lemma written_or_reported_later (c : IOCall) (pre tl : list Event)
    (fs : gmap string (list Chunk)) :
  written_or_reported c tl fs -> written_or_reported c (pre ++ tl) fs.
Proof.
  destruct c; try done. simpl.
  intros [[H1 H2]|[H1 H2]]; [left|right]; split;
    rewrite ?elem_of_app; auto.
Qed.

(** Every batch the map holds is handed to one columnar write: the
    rows are in the part file afterwards, or the write raised and the
    error is in the log. *)
Lemma flush_each_hands_over (d : Writers) (w : World) :
  writers_ok d -> distinct_keys d ->
  exists tl,
    trace (snd (snd (flush_each oracle args d w))) = trace w ++ tl /\
    forall sk sym fmt st c,
      is_columnar fmt = true ->
      Dict.get d (writer_key_of sk sym fmt) = Some st ->
      batch_call args sk sym fmt st = Some c ->
      written_or_reported c tl (files (snd (snd (flush_each oracle args d w)))).
Proof.
  intros Hd. revert w.
  induction Hd as [|[k st0] d Hx Hd IH]; intros w Hnd.
  { exists []. rewrite app_nil_r. by split. }
  apply NoDup_cons in Hnd as [Hk Hnd].
  destruct (nonempty (buffer st0)) eqn:Hne.
  - pose proof Hx as (_ & Hbuf). cbn [fst snd] in Hbuf.
    destruct (buffer st0) as [[|r rows]|] eqn:Hb; try done.
    destruct Hbuf as ((q & Hq) & sk0 & sym0 & fmt0 & -> & Hc0); [done|].
    rewrite (flush_each_batch sk0 sym0 fmt0 st0 d w r rows q Hc0 Hb Hq).
    cbv zeta. cbn [fst snd].
    set (f := columnar_path args sk0 sym0 (q + 1) fmt0).
    set (call := WriteTable f fmt0 (r :: rows)).
    set (w' := if raises oracle _ _ then _ else _).
    destruct (IH w' Hnd) as (tl & Htl & Hall).
    assert (Hframe : files (snd (snd (flush_each oracle args d w'))) !! f =
                     files w' !! f).
    { apply flush_each_frame; [done|]. intros sk sym fmt q' Hc Hin Heq.
      unfold f in Heq. rewrite !columnar_part_path in Heq by done.
      apply part_path_owner in Heq as (_ & _ & Heq);
        [|by apply columnar_known..].
      apply Hk. simpl. by rewrite Heq. }
    exists (drop (length (trace w)) (trace w') ++ tl). split.
    { rewrite Htl. unfold w'. destruct (raises oracle _ _); cbn [trace];
        by rewrite drop_app_length, <- app_assoc. }
    intros sk sym fmt st c Hc Hget Hcall. cbn [Dict.get] in Hget.
    destruct (String.eqb_spec (writer_key_of sk0 sym0 fmt0) (writer_key_of sk sym fmt))
      as [Heq|Hneq].
    + injection Hget as <-. unfold batch_call in Hcall. rewrite Hb, Hq in Hcall.
      injection Hcall as <-.
      destruct (columnar_key_path sk0 sym0 fmt0 sk sym fmt (q + 1) Hc0 Hc Heq)
        as (<- & <-).
      fold f call. unfold written_or_reported.
      unfold w' in *. destruct (raises oracle _ _); cbn [trace files] in *;
        rewrite drop_app_length.
      * right. split; apply elem_of_app; left; [by left|right; by left].
      * left. split; [apply elem_of_app; left; by left|].
        rewrite Hframe. apply lookup_insert_eq.
    + apply written_or_reported_later. by eapply Hall.
  - rewrite (flush_each_idle_entry k st0 d w Hx Hne). cbv zeta. cbn [fst snd].
    destruct (IH w Hnd) as (tl & Htl & Hall). exists tl. split; [done|].
    intros sk sym fmt st c Hc Hget Hcall. cbn [Dict.get] in Hget.
    destruct (String.eqb_spec k (writer_key_of sk sym fmt)) as [Heq|Hneq].
    + injection Hget as <-. unfold batch_call in Hcall.
      by destruct (buffer st0) as [[|? ?]|].
    + by eapply Hall.
Qed.

Lemma flush_all_hands_over (d : Writers) (w : World) :
  writers_ok d -> distinct_keys d ->
  let r := flush_all_buffers oracle args (d, w) in
  exists tl,
    trace (snd (snd r)) = trace w ++ tl /\
    forall sk sym fmt st c,
      is_columnar fmt = true ->
      Dict.get d (writer_key_of sk sym fmt) = Some st ->
      batch_call args sk sym fmt st = Some c ->
      written_or_reported c tl (files (snd (snd r))).
Proof.
  intros Hd Hnd. cbv zeta.
  unfold flush_all_buffers, bind, fs_log, log, modify. cbn [fst snd].
  destruct (flush_each_hands_over d (record (LogInfo MsgCleanupStart) w) Hd Hnd)
    as (tl & Htl & Hall).
  destruct (flush_each oracle args d _) as [[[]|e] [d' w']]; cbn [fst snd] in *.
  - exists ([LogInfo MsgCleanupStart] ++ tl ++ [LogInfo MsgCleanupDone]).
    unfold record in *. cbn [trace files] in *. rewrite Htl, <- !app_assoc.
    split; [done|]. intros sk sym fmt st c Hc Hget Hcall.
    specialize (Hall sk sym fmt st c Hc Hget Hcall).
    apply written_or_reported_later.
    destruct c; try done. simpl in *.
    destruct Hall as [[H1 H2]|[H1 H2]]; [left|right]; split;
      rewrite ?elem_of_app; auto.
  - exists ([LogInfo MsgCleanupStart] ++ tl).
    unfold record in *. cbn [trace files] in *. rewrite Htl, <- !app_assoc.
    split; [done|]. intros sk sym fmt st c Hc Hget Hcall.
    apply written_or_reported_later. by eapply Hall.
Qed.

End FinalBatches.

(** ** The shutdown sequence *)

Section Shutdown.

Variable oracle : Oracle.
Variable args : Args.
Variable redis_client : bool.

(** Without output formats the dispatcher never touches the writer
    map. *)
Lemma dispatch_no_output (it : Item) (s : FS) :
  output args = [] ->
  fst (snd (dispatch oracle args redis_client it s)) = fst s.
Proof.
  intros Hout. destruct s as [d w].
  unfold dispatch, console_sink, bind, try_except, fs_io, io, fs_log, log,
    modify, ret, raise, failure. rewrite Hout.
  destruct (print args || print_only args), (silent args), redis_client;
    cbn [fst snd];
    repeat (match goal with
            | |- context [if raises oracle ?n ?c then _ else _] =>
                destruct (raises oracle n c)
            | |- context [if pipe_closed oracle ?n then _ else _] =>
                destruct (pipe_closed oracle n)
            end; cbn [fst snd]);
    done.
Qed.

Lemma consume_all_no_output (its : list Item) (p : Pipeline) :
  output args = [] ->
  writers (consume_all oracle args redis_client its p) = writers p.
Proof.
  intros Hout. revert p. induction its as [|it rest IH]; intros p; [done|].
  cbn [consume_all]. rewrite IH. unfold consume.
  pose proof (dispatch_no_output it (writers p, world p) Hout) as H.
  destruct (dispatch oracle args redis_client it (writers p, world p))
    as [[[|]|e] [ws w]]; cbn [fst snd] in H; subst ws; [|done..].
  by destruct (unfinished (queue p) <=? 0).
Qed.

Lemma settled_no_output (p : Pipeline) :
  output args = [] -> writers (settled oracle args p) = writers p.
Proof.
  intros Hout. unfold settled. destruct (consumer p); try done.
  unfold resume, bind, fs_io, io, ret. rewrite Hout. cbn [fst snd].
  destruct (raises oracle _ _); cbn [fst snd]; [done|].
  by destruct (unfinished (queue p) <=? 0).
Qed.

Lemma cancel_has_ended (ts : list TaskStatus) :
  Forall (fun t => has_ended t = true) (map cancel ts).
Proof.
  induction ts as [|t ts IH]; simpl; constructor; [|done]. by destruct t.
Qed.

Lemma settled_distinct (p : Pipeline) :
  distinct_keys (writers p) -> distinct_keys (writers (settled oracle args p)).
Proof.
  unfold settled. destruct (consumer p); try done.
  pose proof (resume_spec oracle args it p) as Hr. cbv zeta in Hr. tauto.
Qed.

(** C1, as the code has it.  From a pipeline whose dispatcher is alive
    (waiting for a tuple, or suspended in the Redis append of the tuple in
    hand) the shutdown takes its steps in the order of the specification
    and in no other: the steps taken are always a prefix of that order.
    When the pass in flight and every queued tuple leave the dispatcher
    normally, the shutdown completes: the trace of the dispatcher having
    finished the pass in flight and taken every queued tuple, each once
    and in queue order, comes first and the join returns only then; the
    dispatcher is cancelled and awaited next; [flush_all_buffers] is
    invoked last, and only when output formats are configured (there is
    no writer otherwise).  Every batch of rows a columnar writer holds
    when the queue is drained is then handed to one columnar write: the
    rows are in the next part file of the writer at the end, or the write
    raised and the error is in the log.  At completion no item is
    unfinished, no producer and no dispatcher is running, and no writer
    state holds rows.  Otherwise the join is the last step begun: it
    never returns, or it is abandoned with [main] cancelled. *)
Theorem shutdown_sequence (p : Pipeline) :
  alive p ->
  (output args = [] -> writers p = []) ->
  let r := shutdown oracle args redis_client p in
  let steps := main_steps (events_since (world p) (world (snd r))) in
  let drained :=
    consume_all oracle args redis_client (items (queue p))
      (settled oracle args (begun p)) in
  steps `prefix_of` shutdown_order /\
  (fst r = Completed <-> drains_cleanly oracle args redis_client (begun p)) /\
  (fst r = Completed ->
   steps = (if bool_decide (output args = [])
            then take 4 shutdown_order else shutdown_order) /\
   (exists tl,
      trace (world (snd r)) =
      trace (world drained) ++
        [Step QueueJoined; Step CancelConsumer; Step ConsumerAwaited] ++ tl /\
      forall sk sym fmt st c,
        is_columnar fmt = true ->
        Dict.get (writers drained) (writer_key_of sk sym fmt) = Some st ->
        batch_call args sk sym fmt st = Some c ->
        written_or_reported c tl (files (world (snd r)))) /\
   unfinished (queue (snd r)) = 0 /\
   consumer (snd r) = Cancelled /\
   Forall (fun t => has_ended t = true) (producers (snd r)) /\
   no_pending_rows (writers (snd r))) /\
  (fst r <> Completed ->
   (fst r = NeverReturns \/ fst r = AbortedByCancel) /\ steps = [CancelProducers]).
Proof.
  intros Halive Hnone. cbv zeta.
  rewrite shutdown_unfold.
  assert (Halive' : alive (begun p)).
  { destruct Halive as (Hc & Hok & Hnd). by repeat split. }
  pose proof (join_spec oracle args redis_client (begun p) Halive') as Hj.
  cbv zeta in Hj. unfold join in Hj.
  change (items (queue (begun p))) with (items (queue p)) in Hj.
  destruct Hj as (Hok1 & (tl & Htl & Hst) & Hexit).
  assert (Hnd1 : distinct_keys
                   (writers (consume_all oracle args redis_client (items (queue p))
                               (settled oracle args (begun p))))).
  { apply consume_all_distinct, settled_distinct. by destruct Halive as (_ & _ & ?). }
  destruct (join_loop oracle args redis_client (items (queue p)) (begun p))
    as [e p1]. cbn [fst snd] in *.
  assert (Hbegun : trace (world (begun p)) =
                   trace (world p) ++ [LogInfo MsgShutdownStart; Step CancelProducers]).
  { cbn. by rewrite <- app_assoc. }
  rewrite Hbegun in Htl.
  destruct e.
  - (* the join returned *)
    destruct Hexit as (Hclean & Hp1 & Hu1 & Hc1 & Hpr1).
    cbv zeta. cbn [consumer]. rewrite Hc1. cbn [cancel].
    destruct (output args) as [|fmt0 fmts] eqn:Hout.
    + cbn [fst snd]. split.
      { unfold events_since. cbn [fst snd pipe_record world record trace].
        rewrite Htl, <- !app_assoc, drop_app_length, !main_steps_app, Hst.
        by exists [FlushAllBuffers]. }
      split; [done|]. split; [|done]. intros _. rewrite bool_decide_true by done.
      split.
      { unfold events_since. cbn [fst snd pipe_record world record trace].
        by rewrite Htl, <- !app_assoc, drop_app_length, !main_steps_app, Hst. }
      assert (Hw : writers p1 = []).
      { rewrite Hp1, consume_all_no_output, settled_no_output by done.
        by apply Hnone. }
      split.
      { rewrite <- Hp1. cbn [fst snd pipe_record world record trace].
        eexists. rewrite <- !app_assoc. split; [reflexivity|].
        intros sk sym fmt st c _ Hget. by rewrite Hw in Hget. }
      cbn [fst snd pipe_record queue consumer producers writers].
      split; [done|]. split; [done|]. split.
      { rewrite Hpr1. apply cancel_has_ended. }
      rewrite Hw. constructor.
    + set (p4 := pipe_record (Step FlushAllBuffers) _).
      destruct (flush_all_buffers_ok oracle args (writers p4) (world p4))
        as (Hfl & Hnp); [done|].
      destruct (quiet_flush_all_buffers oracle args (writers p4, world p4))
        as (_ & tl2 & Htl2 & Hst2).
      assert (Hnd4 : distinct_keys (writers p4)) by (cbn; by rewrite Hp1).
      pose proof (flush_all_hands_over oracle args (writers p4) (world p4) Hok1 Hnd4)
        as (tl3 & Htl3 & Hall).
      destruct (flush_all_buffers oracle args (writers p4, world p4))
        as [rf [ws w]]. cbn [fst snd] in *. subst rf.
      assert (tl3 = tl2) as -> by (rewrite Htl2 in Htl3; by apply app_inv_head in Htl3).
      split.
      { unfold events_since. cbn [fst snd world record trace].
        rewrite Htl2. unfold p4. cbn [pipe_record world record trace].
        rewrite Htl, <- !app_assoc, drop_app_length, !main_steps_app, Hst, Hst2.
        done. }
      split; [done|]. split; [|done]. intros _. rewrite bool_decide_false by done.
      split.
      { unfold events_since. cbn [fst snd world record trace].
        rewrite Htl2. unfold p4. cbn [pipe_record world record trace].
        by rewrite Htl, <- !app_assoc, drop_app_length, !main_steps_app, Hst, Hst2. }
      split.
      { rewrite <- Hp1. cbn [fst snd world record trace files]. rewrite Htl2.
        unfold p4. cbn [pipe_record world record trace].
        exists ([Step FlushAllBuffers] ++ tl2 ++ [LogInfo MsgShutdownComplete]).
        rewrite <- !app_assoc. split; [reflexivity|].
        intros sk sym fmt st c Hc Hget Hcall.
        apply written_or_reported_later.
        specialize (Hall sk sym fmt st c Hc Hget Hcall).
        destruct c; try done. simpl in *.
        destruct Hall as [[H1 H2]|[H1 H2]]; [left|right]; split;
          rewrite ?elem_of_app; auto. }
      unfold p4. cbn [fst snd pipe_record queue consumer producers writers].
      split; [done|]. split; [done|]. split; [|done].
      rewrite Hpr1. apply cancel_has_ended.
  - (* the join never returns *)
    destruct Hexit as (Hdirty & _). cbn [fst snd].
    assert (Hsteps : main_steps (events_since (world p) (world p1)) =
                     [CancelProducers]).
    { unfold events_since.
      by rewrite Htl, <- !app_assoc, drop_app_length, !main_steps_app, Hst. }
    rewrite Hsteps. split.
    { by exists [QueueJoined; CancelConsumer; ConsumerAwaited; FlushAllBuffers]. }
    split; [split; [done|by intros ?]|]. split; [done|]. intros _. split; [by left|done].
  - (* the dispatcher cancelled main *)
    destruct Hexit as (Hdirty & _). cbn [fst snd].
    assert (Hsteps : main_steps (events_since (world p) (world p1)) =
                     [CancelProducers]).
    { unfold events_since.
      by rewrite Htl, <- !app_assoc, drop_app_length, !main_steps_app, Hst. }
    rewrite Hsteps. split.
    { by exists [QueueJoined; CancelConsumer; ConsumerAwaited; FlushAllBuffers]. }
    split; [split; [done|by intros ?]|]. split; [done|]. intros _. split; [by right|done].
Qed.

End Shutdown.

Lemma shutdown_sequence_witness :
  let a := mkArgs None false false false ["parquet"] "data" "1m" false in
  let row := [("price", PyRaw (JStr "1"))] in
  let it := mkItem "trades" "BTCUSDT" row in
  let p0 := mkPipeline (mkQueue [it] 2) [] (mkWorld ∅ []) (Storing it)
              [Finished; Running] in
  let r := shutdown no_faults a true p0 in
  main_steps (events_since (world p0) (world (snd r))) = shutdown_order /\
  unfinished (queue (snd r)) = 0 /\
  files (world (snd r)) !! "data/trades_btcusdt_1.parquet" =
    Some [Table "parquet" [row; row]].
Proof.
  intros a row it p0 r.
  assert (Halive : alive p0).
  { split; [reflexivity|]. split; constructor. }
  assert (Hnone : output a = [] -> writers p0 = []) by reflexivity.
  pose proof (shutdown_sequence no_faults a true p0 Halive Hnone) as H.
  cbv zeta in H. destruct H as (_ & _ & H & _).
  assert (Hdone : fst (shutdown no_faults a true p0) = Completed)
    by (vm_compute; reflexivity).
  destruct (H Hdone) as (Hsteps & (tl & Htr & Hall) & Hu & _).
  split; [exact Hsteps|]. split; [exact Hu|].
  assert (Hc : is_columnar "parquet" = true) by reflexivity.
  assert (Hget : Dict.get
                   (writers (consume_all no_faults a true (items (queue p0))
                               (settled no_faults a (begun p0))))
                   (writer_key_of "trades" "BTCUSDT" "parquet") =
                 Some (mkState (Some [row; row]) (Some 0) None None None None))
    by (vm_compute; reflexivity).
  assert (Hcall : batch_call a "trades" "BTCUSDT" "parquet"
                    (mkState (Some [row; row]) (Some 0) None None None None) =
                  Some (WriteTable "data/trades_btcusdt_1.parquet" "parquet"
                          [row; row]))
    by reflexivity.
  destruct (Hall _ _ _ _ _ Hc Hget Hcall) as [[_ Hf]|[Hfail _]]; [exact Hf|].
  exfalso.
  assert (Hin : Failed (WriteTable "data/trades_btcusdt_1.parquet" "parquet"
                          [row; row]) ∈ trace (world (snd r))).
  { unfold r. rewrite Htr. apply elem_of_app. right. apply elem_of_app. by right. }
  vm_compute in Hin.
  repeat (apply elem_of_cons in Hin as [Hin|Hin]; [discriminate Hin|]).
  by apply elem_of_nil in Hin.
Defined.

(** The claim C1 fails when no output format is configured: the
    shutdown completes after three of the four steps, and
    [flush_all_buffers] is not invoked. *)
Lemma shutdown_without_output_counterexample :
  let a := mkArgs None false false false [] "data" "1m" false in
  let it := mkItem "trades" "BTCUSDT" [("price", PyRaw (JStr "1"))] in
  let p0 := mkPipeline (mkQueue [it] 1) [] (mkWorld ∅ []) Running [Running] in
  let r := shutdown no_faults a true p0 in
  fst r = Completed /\
  main_steps (trace (world (snd r))) =
    [CancelProducers; QueueJoined; CancelConsumer; ConsumerAwaited] /\
  (FlushAllBuffers ∉ main_steps (trace (world (snd r)))) /\
  main_steps (trace (world (snd r))) <> shutdown_order.
Proof.
  intros a it p0 r.
  assert (Hsteps : main_steps (trace (world (snd r))) =
                   [CancelProducers; QueueJoined; CancelConsumer; ConsumerAwaited])
    by (vm_compute; reflexivity).
  split; [vm_compute; reflexivity|]. split; [exact Hsteps|]. rewrite Hsteps.
  split; [|intros H; discriminate H].
  intros H.
  repeat (apply elem_of_cons in H as [H|H]; [discriminate H|]).
  by apply elem_of_nil in H.
Qed.

(** ** Failures of the sinks *)

Section SinkFailures.

Variable oracle : Oracle.
Variable args : Args.

(** The store append raising, with the console sink off: nothing else
    happens for the tuple. *)
Lemma dispatch_store_raises (it : Item) (s : FS) :
  print args = false -> print_only args = false ->
  oracle (length (trace (snd s))) (Xadd (redis_stream_name it) (item_payload it))
    = true ->
  dispatch oracle args true it s =
  (Raise (IOFailure (Xadd (redis_stream_name it) (item_payload it))),
   (fst s,
    record (Failed (Xadd (redis_stream_name it) (item_payload it))) (snd s))).
Proof.
  intros Hp Hpo Hfail. destruct s as [d w].
  unfold dispatch, console_sink, bind, fs_io, io, ret. rewrite Hp, Hpo.
  cbn [orb fst snd] in *. by rewrite Hfail.
Qed.

(** A columnar flush failing inside the file sink, with the other sinks
    off: the loop body ends normally. *)
Lemma dispatch_flush_fails (fmt : string) (it : Item) (d : Writers) (w : World)
    (st : WriterState) (b : list Payload) (n : Z) :
  print args = false -> print_only args = false -> output args = [fmt] ->
  is_columnar fmt = true ->
  let key := writer_key_of (item_stream it) (item_symbol it) fmt in
  let f := columnar_path args (item_stream it) (item_symbol it) (n + 1) fmt in
  let rows := b ++ [item_payload it] in
  Dict.get d key = Some st ->
  buffer st = Some b -> part st = Some n ->
  BATCH_SIZE_FOR_COLUMNAR <= Z.of_nat (length rows) ->
  oracle (length (trace w)) (WriteTable f fmt rows) = true ->
  dispatch oracle args false it (d, w) =
  (Ok Continue,
   (Dict.set d key
      (mkState (Some []) (Some (n + 1)) (handle st) (lines st) (writer st)
         (header st)),
    mkWorld (files w)
      (trace w ++ [Failed (WriteTable f fmt rows); LogError (MsgWriteError f)]))).
Proof.
  intros Hp Hpo Hout Hfmt key f rows Hget Hb Hn Hlen Hfail.
  unfold dispatch, console_sink, bind, ret. rewrite Hp, Hpo, Hout.
  cbn [orb write_formats]. unfold bind, ret, write_to_file. cbn [fst snd].
  fold key. rewrite Hget. cbn [default from_option id].
  rewrite write_columnar by done. cbv zeta. rewrite Hb.
  cbn [default from_option id]. fold rows.
  destruct (Z.geb_spec (Z.of_nat (length rows)) BATCH_SIZE_FOR_COLUMNAR); [|lia].
  destruct rows as [|r0 rs] eqn:Hrows; [by destruct b|].
  erewrite (flush_buffer_rows args (item_stream it) (item_symbol it) oracle fmt
              _ w r0 rs n Hfmt); [|reflexivity|exact Hn].
  fold f. cbn [handle lines writer header]. by rewrite Hfail.
Qed.

(** The dispatcher does not guard its sinks.  Whatever exception
    leaves the loop body ends the dispatcher task: the tuple is not
    marked processed, the tuples behind it are never dispatched, and the
    join of the shutdown waits for ever.  The store append raising is
    such an exception, and the file sink is then not attempted for the
    tuple (the writer map and the file system are as before, and the
    failed call is all the trace gains: nothing is logged).  Only the
    write of a columnar flush is guarded, inside [flush_buffer]: when it
    raises the error is logged, the tuple is marked processed and the
    dispatcher goes on. *)
Lemma sink_failure_cases :
  (forall redis_client it rest p e ws w,
     consumer p = Running -> 0 < unfinished (queue p) ->
     dispatch oracle args redis_client it (writers p, world p) = (Raise e, (ws, w)) ->
     let dead :=
       mkPipeline (mkQueue rest (unfinished (queue p))) ws w (Crashed e)
         (producers p) in
     consume oracle args redis_client it rest p = dead /\
     join_loop oracle args redis_client (it :: rest) p = (Hung, dead) /\
     fst (shutdown oracle args redis_client dead) = NeverReturns) /\
  (forall it rest p,
     consumer p = Running -> 0 < unfinished (queue p) ->
     print args = false -> print_only args = false ->
     oracle (length (trace (world p)))
       (Xadd (redis_stream_name it) (item_payload it)) = true ->
     let call := Xadd (redis_stream_name it) (item_payload it) in
     join_loop oracle args true (it :: rest) p =
     (Hung,
      mkPipeline (mkQueue rest (unfinished (queue p))) (writers p)
        (record (Failed call) (world p)) (Crashed (IOFailure call))
        (producers p))) /\
  (forall fmt it rest p st b n,
     0 < unfinished (queue p) ->
     print args = false -> print_only args = false -> output args = [fmt] ->
     is_columnar fmt = true ->
     let key := writer_key_of (item_stream it) (item_symbol it) fmt in
     let f := columnar_path args (item_stream it) (item_symbol it) (n + 1) fmt in
     let rows := b ++ [item_payload it] in
     Dict.get (writers p) key = Some st ->
     buffer st = Some b -> part st = Some n ->
     BATCH_SIZE_FOR_COLUMNAR <= Z.of_nat (length rows) ->
     oracle (length (trace (world p))) (WriteTable f fmt rows) = true ->
     consume oracle args false it rest p =
     mkPipeline (mkQueue rest (unfinished (queue p) - 1))
       (Dict.set (writers p) key
          (mkState (Some []) (Some (n + 1)) (handle st) (lines st) (writer st)
             (header st)))
       (mkWorld (files (world p))
          (trace (world p) ++
             [Failed (WriteTable f fmt rows); LogError (MsgWriteError f); TaskDone]))
       Running (producers p)).
Proof.
  split; [|split].
  - intros redis_client it rest p e ws w Hrun Hpos Hd dead.
    assert (Hc : consume oracle args redis_client it rest p = dead).
    { unfold consume. by rewrite Hd. }
    split; [done|]. split.
    + rewrite join_loop_waiting, Hc by done. cbn [consumer dead].
      by rewrite join_loop_dead.
    + rewrite shutdown_unfold. by rewrite join_loop_dead.
  - intros it rest p Hrun Hpos Hp Hpo Hfail call.
    rewrite join_loop_waiting by done. unfold consume.
    rewrite (dispatch_store_raises it (writers p, world p) Hp Hpo Hfail).
    cbn [fst snd consumer]. by rewrite join_loop_dead.
  - intros fmt it rest p st b n Hpos Hp Hpo Hout Hfmt key f rows Hget Hb Hn Hlen Hfail.
    unfold consume.
    rewrite (dispatch_flush_fails fmt it (writers p) (world p) st b n Hp Hpo Hout
               Hfmt Hget Hb Hn Hlen Hfail).
    destruct (Z.leb_spec (unfinished (queue p)) 0); [lia|].
    unfold record. cbn [files trace]. by rewrite <- app_assoc.
Qed.

End SinkFailures.

(** C2.  The code where the claim fails: output format [json], the
    store client present, two trade tuples in the queue, and the store
    append raising for the first of them.  The exception ends the
    dispatcher task: nothing is logged (the failed call is all the trace
    holds), the file sink is not attempted for the tuple (no file is
    opened and the writer map stays empty), the tuple is never marked
    processed, the tuple behind it stays in the queue, and the queue join
    of the shutdown never returns. *)
Theorem store_failure_halts_dispatcher :
  let a := mkArgs None false false false ["json"] "data" "1m" false in
  let redis_down : Oracle :=
    mkOracle (fun _ c => match c with Xadd _ _ => true | _ => false end)
      (fun _ => false) in
  let t1 := mkItem "trades" "BTCUSDT" [("price", PyRaw (JStr "1"))] in
  let t2 := mkItem "trades" "BTCUSDT" [("price", PyRaw (JStr "2"))] in
  let p0 := mkPipeline (mkQueue [t1; t2] 2) [] (mkWorld ∅ []) Running [] in
  let call := Xadd "binance:trades:btcusdt" [("price", PyRaw (JStr "1"))] in
  let r := join redis_down a true p0 in
  fst r = Hung /\
  consumer (snd r) = Crashed (IOFailure call) /\
  trace (world (snd r)) = [Failed call] /\
  files (world (snd r)) = ∅ /\
  writers (snd r) = [] /\
  items (queue (snd r)) = [t2] /\
  unfinished (queue (snd r)) = 2 /\
  fst (shutdown redis_down a true p0) = NeverReturns.
Proof.
  intros a redis_down t1 t2 p0 call r.
  repeat split; vm_compute; reflexivity.
Qed.

(** ** End to end *)

(** C9. Symbol BTCUSDT, stream [trades], output format [json], output
    directory [data], two raw trade messages (any two decoded objects),
    with or without a sample cap of two and with or without the store:
    [main] starts the producer of the aggregated-trade stream with the
    trade projector; the producer enqueues the two projected records;
    the shutdown completes, and the file system then holds exactly one
    file, [data/trades_btcusdt_1.jsonl], with the two records as its two
    lines in arrival order, each with exactly the fields [event_time],
    [price], [quantity], [trade_time], [is_buyer_maker]. *)
Theorem end_to_end_two_trades (d1 d2 : list (string * Json))
    (capped redis_client : bool) :
  let args :=
    mkArgs (if capped then Some 2 else None) false false false ["json"] "data"
      "1m" false in
  let feed := [Connects [Decoded (JDict d1); Decoded (JDict d2)] StillOpen] in
  let pr :=
    stream_producer "BTCUSDT" "@aggTrade" PROD_BASE_URL process_trade_payload
      "trades" args feed empty_queue (mkWorld ∅ []) in
  let p0 := mkPipeline (pqueue (snd pr)) [] (pworld (snd pr)) Running [fst pr] in
  let res := shutdown no_faults args redis_client p0 in
  let fields := ["event_time"; "price"; "quantity"; "trade_time"; "is_buyer_maker"] in
  producers_for ["trades"] args = [("@aggTrade", process_trade_payload, "trades")] /\
  fst pr = (if capped then Finished else Running) /\
  fst res = Completed /\
  exists r1 r2,
    process_trade_payload (JDict d1) = Some r1 /\
    process_trade_payload (JDict d2) = Some r2 /\
    keys r1 = fields /\ keys r2 = fields /\
    items (pqueue (snd pr)) =
      [mkItem "trades" "BTCUSDT" r1; mkItem "trades" "BTCUSDT" r2] /\
    files (world (snd res)) =
      {["data/trades_btcusdt_1.jsonl" := [JsonLine r1; JsonLine r2]]}.
Proof.
  intros args feed pr p0 res fields.
  split; [reflexivity|].
  split; [by destruct capped|].
  split; [by destruct capped, redis_client; vm_compute|].
  eexists _, _.
  split; [reflexivity|]. split; [reflexivity|].
  split; [reflexivity|]. split; [reflexivity|].
  split; [by destruct capped; vm_compute|].
  destruct capped, redis_client; vm_compute; reflexivity.
Qed.

(** ** Part numbers *)

Lemma known_no_underscore (fmt : string) :
  known_format fmt = true -> PyStr.rfind "_" fmt = None.
Proof.
  unfold known_format. intros [H|H]%orb_true_iff.
  - by apply columnar_no_underscore.
  - by destruct (is_line_cases fmt H) as [-> | ->].
Qed.

(** Writers of known formats with the same key have the same format
    and the same part files. *)
Lemma writer_key_owner (args : Args) (sk sym fmt sk' sym' fmt' : string) (q : Z) :
  known_format fmt = true -> known_format fmt' = true ->
  writer_key_of sk sym fmt = writer_key_of sk' sym' fmt' ->
  fmt = fmt' /\ part_path args sk sym fmt q = part_path args sk' sym' fmt' q.
Proof.
  intros Hk Hk' H. unfold writer_key_of in H.
  assert (Hs : forall a b c,
             a +:+ "_" +:+ PyStr.lower b +:+ "_" +:+ c =
             (a +:+ "_" +:+ PyStr.lower b) +:+ String "_" c).
  { intros a b c. by rewrite !string_app_assoc. }
  rewrite !Hs in H. apply (f_equal (PyStr.rsplit1 "_")) in H.
  rewrite !rsplit1_app in H by (by apply known_no_underscore).
  injection H as H <-. split; [done|].
  rewrite !part_path_shape. by rewrite H.
Qed.

Lemma part_of_set (d : Writers) (K k : string) (st : WriterState) :
  part_of k (Dict.set d K st) =
  if String.eqb K k then default 0 (part st) else part_of k d.
Proof.
  unfold part_of. destruct (String.eqb_spec K k) as [->|Hne].
  - by rewrite dict_get_set_eq.
  - by rewrite dict_get_set_ne.
Qed.

Lemma part_of_nonneg (d : Writers) (k : string) :
  Forall counter_ok d -> 0 <= part_of k d.
Proof.
  intros Hd. unfold part_of. destruct (Dict.get d k) as [st|] eqn:Hget; [|done].
  by destruct (dict_get_Forall counter_ok d k st Hd Hget) as [H _].
Qed.

Lemma dict_set_middle {V} (d1 d2 : Dict.t V) (k : string) (v v' : V) :
  k ∉ map fst d1 ->
  Dict.set (d1 ++ (k, v) :: d2) k v' = d1 ++ (k, v') :: d2.
Proof.
  induction d1 as [|[k1 v1] d1 IH]; simpl.
  - intros _. by rewrite String.eqb_refl.
  - intros H. apply not_elem_of_cons in H as [Hne H].
    destruct (String.eqb_spec k1 k) as [->|_]; [done|].
    by rewrite IH.
Qed.

Lemma dict_get_middle {V} (d1 d2 : Dict.t V) (k : string) (v : V) :
  k ∉ map fst d1 -> Dict.get (d1 ++ (k, v) :: d2) k = Some v.
Proof.
  induction d1 as [|[k1 v1] d1 IH]; simpl.
  - intros _. by rewrite String.eqb_refl.
  - intros H. apply not_elem_of_cons in H as [Hne H].
    destruct (String.eqb_spec k1 k) as [->|_]; [done|]. by apply IH.
Qed.

Lemma in_order_nil (args : Args) : in_order args [].
Proof. intros pre f post sk sym fmt q q' H. by destruct pre. Qed.

Section PartNumbers.

Variable oracle : Oracle.
Variable args : Args.

(** The next part of a writer has not been allocated, and allocating
    it keeps the order. *)
Lemma numbered_alloc (d : Writers) (w : World) (sk sym fmt : string) :
  parts_numbered args (d, w) -> known_format fmt = true ->
  let g := part_path args sk sym fmt (part_of (writer_key_of sk sym fmt) d + 1) in
  NoDup (allocations (trace w) ++ [g]) /\
  in_order args (allocations (trace w) ++ [g]).
Proof.
  intros (_ & Hc & _ & Hnd & Hord & Hall) Hk g. cbn [fst snd] in *. split.
  - apply NoDup_app. split; [done|]. split; [|apply NoDup_singleton].
    intros f Hf ->%list_elem_of_singleton.
    apply Hall in Hf as (sk' & sym' & fmt' & q & Hk' & Heq & Hq).
    apply part_path_owner in Heq as (_ & Hq' & Hkey); [|done..].
    rewrite <- Hkey in Hq. lia.
  - intros pre f post sk' sym' fmt' q q' Heq Hk' Hf Hq.
    destruct post as [|x post _] using rev_ind.
    + apply (app_inj_tail _ pre g f) in Heq as [<- <-].
      apply Hall. unfold g in Hf.
      apply part_path_owner in Hf as (<- & Hq' & Hkey); [|done..].
      exists sk, sym, fmt, q'. split; [done|].
      split; [|lia].
      by destruct (writer_key_owner args sk sym fmt sk' sym' fmt q' Hk Hk Hkey).
    + rewrite app_comm_cons, app_assoc in Heq.
      apply app_inj_tail in Heq as [Heq _].
      by eapply Hord.
Qed.

(** Storing under the key of a writer a state whose counter is the old
    one, or the old one plus one with the next part allocated, keeps
    the parts numbered. *)
Lemma numbered_set (d : Writers) (w w' : World) (sk sym fmt : string)
    (st' : WriterState) :
  parts_numbered args (d, w) ->
  let K := writer_key_of sk sym fmt in
  let n := part_of K d in
  writer_entry_ok (K, st') -> counter_ok (K, st') ->
  (default 0 (part st') = n /\ allocations (trace w') = allocations (trace w)) \/
  (known_format fmt = true /\ default 0 (part st') = n + 1 /\
   allocations (trace w') =
     allocations (trace w) ++ [part_path args sk sym fmt (n + 1)]) ->
  parts_numbered args (Dict.set d K st', w').
Proof.
  intros Hnum K n Hentry Hcount Hcase.
  pose proof Hnum as (Hd & Hc & Hdist & Hnd & Hord & Hall). cbn [fst snd] in *.
  unfold parts_numbered. cbn [fst snd].
  split; [by apply dict_set_Forall|]. split; [by apply dict_set_Forall|].
  split; [by apply dict_set_distinct|].
  assert (Hn : 0 <= n) by (by apply part_of_nonneg).
  destruct Hcase as [[Hp Ha]|(Hk & Hp & Ha)]; rewrite Ha.
  - split; [done|]. split; [done|]. intros f. rewrite Hall.
    assert (Hsame : forall k, part_of k (Dict.set d K st') = part_of k d).
    { intros k. rewrite part_of_set.
      destruct (String.eqb_spec K k) as [<-|]; [by rewrite Hp|done]. }
    unfold is_part. by setoid_rewrite Hsame.
  - destruct (numbered_alloc d w sk sym fmt Hnum Hk) as [Hnd' Hord'].
    split; [done|]. split; [done|]. intros f. rewrite elem_of_app, Hall.
    split.
    + intros [(sk' & sym' & fmt' & q & Hk' & Heq & Hq)|Hf%list_elem_of_singleton].
      * exists sk', sym', fmt', q. split; [done|]. split; [done|].
        rewrite part_of_set.
        destruct (String.eqb_spec K (writer_key_of sk' sym' fmt')) as [Hkey|];
          [|done].
        rewrite <- Hkey in Hq. fold n in Hq. lia.
      * exists sk, sym, fmt, (n + 1). split; [done|]. split; [done|].
        rewrite part_of_set. fold K. rewrite String.eqb_refl. lia.
    + intros (sk' & sym' & fmt' & q & Hk' & Heq & Hq).
      rewrite part_of_set in Hq.
      destruct (String.eqb_spec K (writer_key_of sk' sym' fmt')) as [Hkey|Hne].
      * destruct (writer_key_owner args sk sym fmt sk' sym' fmt' q Hk Hk' Hkey)
          as [<- Hpath].
        destruct (decide (q = n + 1)) as [->|Hq'].
        -- right. apply list_elem_of_singleton. by rewrite Heq, <- Hpath.
        -- left. exists sk, sym, fmt, q. split; [done|].
           split; [by rewrite Heq, <- Hpath|]. fold K n. lia.
      * left. by exists sk', sym', fmt', q.
Qed.

Lemma part_of_set_le (d : Writers) (K : string) (st' : WriterState) :
  part_of K d <= default 0 (part st') ->
  forall k, part_of k d <= part_of k (Dict.set d K st').
Proof.
  intros H k. rewrite part_of_set.
  destruct (String.eqb_spec K k) as [<-|]; [done|lia].
Qed.

(** One call of the body of the writer, whatever its outcome: the
    counter stays or goes up by one, and in the second case the next
    part of the writer is allocated. *)
Lemma write_body_counter (sk sym fmt : string) (p : Payload) (st : WriterState)
    (w : World) :
  let K := writer_key_of sk sym fmt in
  writer_entry_ok (K, st) -> counter_ok (K, st) ->
  let res := write_body oracle args sk sym p fmt (st, w) in
  let st' := fst (snd res) in
  let w' := snd (snd res) in
  let n := default 0 (part st) in
  writer_entry_ok (K, st') /\ counter_ok (K, st') /\
  ((default 0 (part st') = n /\ allocations (trace w') = allocations (trace w)) \/
   (known_format fmt = true /\ default 0 (part st') = n + 1 /\
    allocations (trace w') =
      allocations (trace w) ++ [part_path args sk sym fmt (n + 1)])).
Proof.
  intros K Hentry [Hpos Hbuf]. cbv zeta. cbn [fst snd] in *.
  split; [by apply write_body_entry_ok|].
  unfold counter_ok, known_format, part_path. cbn [fst snd].
  destruct (is_columnar fmt) eqn:Hc.
  - destruct (write_body_columnar_effect oracle args sk sym fmt p st w Hc)
      as (_ & _ & Hb & tl & Htl & _ & Hp).
    { intros H. by apply Hentry. }
    assert (Hq : default 0 (match buffer st with Some _ => part st | None => Some 0 end)
                 = default 0 (part st)).
    { destruct (buffer st) eqn:Hbf; [done|].
      destruct (part st) eqn:Hpt; [|done].
      destruct (Hbuf sk sym fmt eq_refl Hc) as [? ?]; [by eexists|done]. }
    rewrite Hq in Hp. rewrite Htl, allocations_app.
    destruct Hp as [[Hp ->]|[Hp ->]]; rewrite Hp; cbn [default from_option id orb].
    + split; [by split|]. left. by rewrite app_nil_r.
    + split; [split; [lia|done]|]. by right.
  - destruct (is_line fmt) eqn:Hl.
    + destruct (write_body_line_effect oracle args sk sym fmt p st w Hl)
        as (Hb & tl & Htl & _ & Hp).
      assert (Hno : forall sk1 sym1 fmt1,
                 K = writer_key_of sk1 sym1 fmt1 -> is_columnar fmt1 = true -> False).
      { intros sk1 sym1 fmt1 Hkey Hc1.
        destruct (writer_key_owner args sk sym fmt sk1 sym1 fmt1 0) as [<- _];
          [by unfold known_format; rewrite Hl, orb_true_r
          |by apply columnar_known|done|congruence]. }
      rewrite Htl, allocations_app. cbn [orb].
      destruct (handle st); destruct Hp as [Hp ->]; rewrite Hp;
        cbn [default from_option id].
      * split; [split; [done|]|left; by rewrite app_nil_r].
        intros sk1 sym1 fmt1 Hkey Hc1. by destruct (Hno sk1 sym1 fmt1).
      * split; [split; [lia|]|by right].
        intros sk1 sym1 fmt1 Hkey Hc1. by destruct (Hno sk1 sym1 fmt1).
    + unfold write_body. rewrite Hc, Hl. unfold ret. cbn [fst snd].
      split; [by split|by left].
Qed.

Lemma empty_state_ok (K : string) :
  (exists sk sym fmt, K = writer_key_of sk sym fmt) ->
  writer_entry_ok (K, empty_state) /\ counter_ok (K, empty_state).
Proof.
  intros HK. split; [split; [done|]|split; [done|]]; simpl.
  - by intros [? ?].
  - by intros ? ? ? _ _ [? ?].
Qed.

(** One record written for a writer. *)
Lemma write_to_file_numbering (sk sym fmt : string) (p : Payload) (s : FS) :
  parts_numbered args s ->
  let res := write_to_file oracle args sk sym p fmt s in
  (forall k, part_of k (fst s) <= part_of k (fst (snd res))) /\
  NoDup (allocations (trace (snd (snd res)))) /\
  in_order args (allocations (trace (snd (snd res)))) /\
  (fst res = Ok tt -> parts_numbered args (snd res)).
Proof.
  destruct s as [d w]. intros Hnum. cbv zeta. unfold write_to_file.
  cbn [fst snd].
  set (K := writer_key_of sk sym fmt).
  set (st := default empty_state (Dict.get d K)).
  pose proof Hnum as (Hd & Hc & Hdist & Hnd & Hord & Hall). cbn [fst snd] in *.
  assert (Hst : writer_entry_ok (K, st) /\ counter_ok (K, st) /\
                part_of K d = default 0 (part st)).
  { unfold st, part_of. destruct (Dict.get d K) as [st0|] eqn:Hget;
      cbn [default from_option id].
    - split; [by eapply (dict_get_Forall writer_entry_ok)|].
      split; [by eapply (dict_get_Forall counter_ok)|done].
    - destruct (empty_state_ok K) as [H1 H2]; [by exists sk, sym, fmt|done]. }
  destruct Hst as (Hentry & Hcount & Hpart).
  pose proof (write_body_counter sk sym fmt p st w Hentry Hcount) as Hw.
  cbv zeta in Hw. destruct Hw as (Hentry' & Hcount' & Hcase).
  rewrite <- Hpart in Hcase.
  assert (Hset : forall st' w',
             snd (write_body oracle args sk sym p fmt (st, w)) = (st', w') ->
             parts_numbered args (Dict.set d K st', w') /\
             forall k, part_of k d <= part_of k (Dict.set d K st')).
  { intros st' w' Heq. rewrite Heq in *. cbn [fst snd] in *.
    split; [by apply (numbered_set d w)|].
    apply part_of_set_le. destruct Hcase as [[-> _]|(_ & -> & _)]; lia. }
  destruct (write_body oracle args sk sym p fmt (st, w)) as [[[]|e] [st' w']];
    cbn [fst snd] in *.
  - destruct (Hset st' w' eq_refl) as [Hnum' Hle].
    pose proof Hnum' as (_ & _ & _ & Hnd' & Hord' & _). done.
  - destruct (Dict.get d K) as [st0|] eqn:Hget.
    + destruct (Hset st' w' eq_refl) as [Hnum' Hle].
      pose proof Hnum' as (_ & _ & _ & Hnd' & Hord' & _). done.
    + split; [done|]. split; [|split; [|done]].
      * destruct Hcase as [[_ ->]|(Hk & _ & ->)]; [done|].
        by apply (numbered_alloc d w sk sym fmt).
      * destruct Hcase as [[_ ->]|(Hk & _ & ->)]; [done|].
        by apply (numbered_alloc d w sk sym fmt).
Qed.

Lemma numbered_log (d : Writers) (w : World) (e : Event) :
  allocations [e] = [] ->
  parts_numbered args (d, w) -> parts_numbered args (d, record e w).
Proof.
  intros He. unfold parts_numbered, record. cbn [fst snd trace].
  by rewrite allocations_app, He, app_nil_r.
Qed.

(** The loop of the final flush, the entries of [d1] done and those of
    [d2] to do. *)
Lemma flush_each_numbered (d2 : Writers) :
  forall (d1 : Writers) (w : World),
    parts_numbered args (d1 ++ d2, w) ->
    let r := flush_each oracle args d2 w in
    parts_numbered args (d1 ++ fst (snd r), snd (snd r)) /\
    forall k, part_of k (d1 ++ d2) <= part_of k (d1 ++ fst (snd r)).
Proof.
  induction d2 as [|[k st] d2 IH]; intros d1 w Hnum; cbv zeta.
  { cbn [flush_each fst snd]. by split. }
  pose proof Hnum as (Hd & Hc & Hdist & _). cbn [fst snd] in *.
  assert (Hx : writer_entry_ok (k, st)).
  { apply Forall_app in Hd as [_ Hd]. by apply Forall_cons in Hd as [Hd _]. }
  assert (Hcx : counter_ok (k, st)).
  { apply Forall_app in Hc as [_ Hc]. by apply Forall_cons in Hc as [Hc _]. }
  assert (Hk : k ∉ map fst d1).
  { unfold distinct_keys in Hdist. rewrite map_app in Hdist.
    apply NoDup_app in Hdist as (_ & Hdist & _).
    intros Hin. apply (Hdist k Hin). by left. }
  assert (Hpart : part_of k (d1 ++ (k, st) :: d2) = default 0 (part st)).
  { unfold part_of. by rewrite dict_get_middle. }
  destruct (nonempty (buffer st)) eqn:Hne.
  - pose proof Hx as (_ & Hbuf). cbn [fst snd] in Hbuf.
    destruct (buffer st) as [[|r rows]|] eqn:Hb; try done.
    destruct Hbuf as ((q & Hq) & sk & sym & fmt & -> & Hcol); [done|].
    rewrite (flush_each_batch oracle args sk sym fmt st d2 w r rows q Hcol Hb Hq).
    cbv zeta. cbn [fst snd].
    set (K := writer_key_of sk sym fmt) in *.
    set (st' := mkState (Some []) (Some (q + 1)) _ _ _ _).
    set (w' := if raises oracle _ _ then _ else _).
    rewrite Hq in Hpart. cbn [default from_option id] in Hpart.
    destruct Hcx as [Hpos _]. cbn [fst snd] in Hpos. rewrite Hq in Hpos.
    cbn [default from_option id] in Hpos.
    assert (Hnum' : parts_numbered args (d1 ++ (K, st') :: d2, w')).
    { rewrite <- (dict_set_middle d1 d2 K st st' Hk).
      apply (numbered_set _ w); [done| | |].
      - split; [by exists sk, sym, fmt|]. intros _.
        split; [by eexists|by exists sk, sym, fmt].
      - split; [simpl; lia|]. intros _ _ _ _ _ _. by eexists.
      - right. fold K. split; [by apply columnar_known|]. rewrite Hpart.
        split; [done|]. rewrite <- columnar_part_path by done.
        unfold w'. destruct (raises oracle _ _); cbn [trace];
          by rewrite allocations_app. }
    specialize (IH (d1 ++ [(K, st')]) w').
    rewrite <- !app_assoc in IH. cbn [app] in IH.
    destruct (IH Hnum') as [Hn2 Hle]. split; [done|].
    intros k. etrans; [|apply Hle].
    rewrite <- (dict_set_middle d1 d2 K st st' Hk).
    apply part_of_set_le. rewrite Hpart. simpl. lia.
  - rewrite (flush_each_idle_entry oracle args k st d2 w Hx Hne).
    cbv zeta. cbn [fst snd].
    specialize (IH (d1 ++ [(k, st)]) w).
    rewrite <- !app_assoc in IH. cbn [app] in IH.
    by apply IH.
Qed.

(** One operation on the writer map. *)
Lemma run_op_numbering (op : WriterOp) (s : FS) :
  parts_numbered args s ->
  let res := run_op oracle args op s in
  (forall k, part_of k (fst s) <= part_of k (fst (snd res))) /\
  NoDup (allocations (trace (snd (snd res)))) /\
  in_order args (allocations (trace (snd (snd res)))) /\
  (fst res = Ok tt -> parts_numbered args (snd res)).
Proof.
  intros Hnum. destruct op as [sk sym fmt p|]; cbn [run_op].
  { by apply write_to_file_numbering. }
  destruct s as [d w]. cbv zeta.
  unfold flush_all_buffers, bind, fs_log, log, modify. cbn [fst snd].
  assert (Hnum1 : parts_numbered args ([] ++ d, record (LogInfo MsgCleanupStart) w))
    by (by apply numbered_log).
  destruct (flush_each_numbered d [] _ Hnum1) as [Hnum2 Hle]. cbn [app] in *.
  destruct (flush_each oracle args d _) as [[[]|e] [d' w']]; cbn [fst snd] in *.
  - assert (Hnum3 : parts_numbered args (d', record (LogInfo MsgCleanupDone) w'))
      by (by apply numbered_log).
    pose proof Hnum3 as (_ & _ & _ & Hnd & Hord & _). done.
  - pose proof Hnum2 as (_ & _ & _ & Hnd & Hord & _). done.
Qed.

Lemma run_ops_app (ops ops' : list WriterOp) (s : FS) :
  run_ops oracle args (ops ++ ops') s =
  match run_ops oracle args ops s with
  | (Ok _, s') => run_ops oracle args ops' s'
  | (Raise e, s') => (Raise e, s')
  end.
Proof.
  revert s. induction ops as [|op ops IH]; intros s; simpl; [done|].
  unfold bind. destruct (run_op oracle args op s) as [[[]|e] s'];
    [apply IH|done].
Qed.

Lemma run_ops_numbering (ops : list WriterOp) (s : FS) :
  parts_numbered args s ->
  let res := run_ops oracle args ops s in
  (forall k, part_of k (fst s) <= part_of k (fst (snd res))) /\
  NoDup (allocations (trace (snd (snd res)))) /\
  in_order args (allocations (trace (snd (snd res)))) /\
  (fst res = Ok tt -> parts_numbered args (snd res)).
Proof.
  revert s. induction ops as [|op ops IH]; intros s Hs; cbv zeta; simpl.
  - pose proof Hs as (_ & _ & _ & Hnd & Hord & _). done.
  - unfold bind. pose proof (run_op_numbering op s Hs) as Hop. cbv zeta in Hop.
    destruct Hop as (Hle & Hnd & Hord & Hok).
    destruct (run_op oracle args op s) as [[[]|e] s']; cbn [fst snd] in *.
    + destruct (IH s' (Hok eq_refl)) as (Hle' & Hnd' & Hord' & Hok').
      split; [|done]. intros k. etrans; [apply Hle|apply Hle'].
    + done.
Qed.

(** C8. For every writer, over any sequence of writes for any
    streams, symbols and formats and of final flushes, and whatever
    calls fail: an operation lowers the part counter of no writer; no
    path is allocated twice, and the parts of a writer are allocated in
    the order of their numbers; and while the run goes on without an
    exception, the paths allocated are the parts 1 to [n] of every
    writer of a format the file writer knows, [n] being the part counter
    of that writer. *)
Theorem part_counter_monotone (ops : list WriterOp) (op : WriterOp)
    (fs0 : gmap string (list Chunk)) :
  let start : FS := ([], mkWorld fs0 []) in
  let before := run_ops oracle args ops start in
  let after := run_ops oracle args (ops ++ [op]) start in
  let allocs := allocations (trace (snd (snd after))) in
  (forall key, part_of key (fst (snd before)) <= part_of key (fst (snd after))) /\
  NoDup allocs /\
  in_order args allocs /\
  (fst after = Ok tt ->
   distinct_keys (fst (snd after)) /\
   forall f, f ∈ allocs <->
     exists sk sym fmt q,
       known_format fmt = true /\ f = part_path args sk sym fmt q /\
       1 <= q <= part_of (writer_key_of sk sym fmt) (fst (snd after))).
Proof.
  intros start before after allocs.
  assert (Hstart : parts_numbered args start).
  { unfold parts_numbered, start. cbn.
    split; [constructor|]. split; [constructor|]. split; [constructor|].
    split; [constructor|]. split; [apply in_order_nil|].
    intros f. split; [by intros ?%elem_of_nil|].
    intros (sk & sym & fmt & q & _ & _ & Hq). unfold part_of in Hq. simpl in Hq. lia. }
  pose proof (run_ops_numbering (ops ++ [op]) start Hstart) as Hall.
  cbv zeta in Hall. fold after in Hall. destruct Hall as (_ & Hnd & Hord & Hok).
  split; [|split; [done|split; [done|]]].
  - unfold after. rewrite run_ops_app. fold before.
    pose proof (run_ops_numbering ops start Hstart) as Hpre.
    cbv zeta in Hpre. fold before in Hpre. destruct Hpre as (_ & _ & _ & Hok1).
    destruct before as [[[]|e] s1]; cbn [fst snd] in *; [|done].
    pose proof (run_ops_numbering [op] s1 (Hok1 eq_refl)) as H1.
    cbv zeta in H1. by destruct H1 as (Hle & _).
  - intros Hr. destruct (Hok Hr) as (_ & _ & Hdist & _ & _ & Hiff). done.
Qed.

End PartNumbers.

(** ** The command line and the start of [main] *)

Lemma split_not_nil (c : ascii) (s : string) : PyStr.split c s <> [].
Proof.
  induction s as [|a s IH]; simpl; [done|].
  destruct (Ascii.eqb a c); [done|].
  by destruct (PyStr.split c s).
Qed.

Lemma join_split (c : ascii) (s : string) : PyStr.join c (PyStr.split c s) = s.
Proof.
  induction s as [|a s IH]; simpl; [done|].
  destruct (Ascii.eqb a c) eqn:Hac.
  - apply Ascii.eqb_eq in Hac as ->.
    pose proof (split_not_nil c s) as Hne.
    destruct (PyStr.split c s) as [|x xs]; [done|].
    change (PyStr.join c ("" :: x :: xs)) with ("" +:+ String c (PyStr.join c (x :: xs))).
    by rewrite IH.
  - pose proof (split_not_nil c s) as Hne.
    destruct (PyStr.split c s) as [|x xs]; [done|].
    destruct xs as [|y ys]; simpl in *; by rewrite <- IH.
Qed.

Lemma option_set_not_empty (text : string) : option_set text <> ∅.
Proof.
  unfold option_set. pose proof (split_not_nil "," (PyStr.lower text)) as Hne.
  destruct (PyStr.split "," (PyStr.lower text)) as [|x xs]; [done|].
  simpl. intros H. apply (f_equal (fun X : gset string => bool_decide (x ∈ X))) in H.
  rewrite bool_decide_eq_true_2 in H by set_solver.
  rewrite bool_decide_eq_false_2 in H by set_solver. done.
Qed.

Lemma symbols_of_not_nil (ns : Namespace) : symbols_of ns <> [].
Proof.
  unfold symbols_of. pose proof (split_not_nil "," (ns_symbol ns)) as Hne.
  by destruct (PyStr.split "," (ns_symbol ns)).
Qed.

Lemma producers_for_requested (ns : Namespace) (args : Args) :
  interval args = ns_interval ns ->
  producers_for (elements (ns_load ns)) args = map snd (requested_streams ns).
Proof.
  intros Hi. unfold producers_for, requested_streams, known_streams.
  rewrite !(bool_decide_ext _ _ (elem_of_elements _ _)). simpl. rewrite Hi.
  repeat case_bool_decide; reflexivity.
Qed.

Lemma flat_map_nil_inv {A B} (f : A -> list B) (l : list A) :
  l <> [] -> flat_map f l = [] -> forall x, x ∈ l -> f x = [].
Proof.
  intros _ H x Hx. induction l as [|y l IH]; [by apply elem_of_nil in Hx|].
  simpl in H. apply app_eq_nil in H as [Hy Hl].
  apply elem_of_cons in Hx as [->|Hx]; [done|].
  destruct l; [by apply elem_of_nil in Hx|]. by apply IH.
Qed.

Lemma flat_map_length_const {A B} (f : A -> list B) (l : list A) (n : nat) :
  (forall x, length (f x) = n) -> length (flat_map f l) = (length l * n)%nat.
Proof.
  intros H. induction l as [|x l IH]; simpl; [done|].
  by rewrite length_app, H, IH.
Qed.

(** The producer tasks of [main]: for each symbol of [--symbol], in
    order, one producer for each stream of [--load] that [main] knows,
    in the order ticker, order-book, trades, klines, all on the base
    address of the chosen network.  [--symbol] always yields at least one
    symbol, so there is no producer exactly when [--load] names no known
    stream. *)
Theorem main_producers (ns : Namespace) :
  producer_specs ns =
    flat_map
      (fun symbol =>
         map (fun t => mkProducerSpec symbol (fst (fst (snd t))) (base_url_of ns)
                         (snd (fst (snd t))) (snd (snd t)))
           (requested_streams ns))
      (symbols_of ns) /\
  length (producer_specs ns) =
    (length (PyStr.split "," (ns_symbol ns)) * length (requested_streams ns))%nat /\
  (producer_specs ns = [] <->
   ("ticker" ∉ ns_load ns) /\ ("order-book" ∉ ns_load ns) /\
   ("trades" ∉ ns_load ns) /\ ("klines" ∉ ns_load ns)).
Proof.
  unfold producer_specs.
  rewrite (producers_for_requested ns (pipeline_args ns [])) by done.
  split; [|split].
  - apply flat_map_ext. intros symbol. apply map_map.
  - rewrite (flat_map_length_const _ _ (length (requested_streams ns))).
    + unfold symbols_of. by rewrite length_map.
    + intros x. by rewrite !length_map.
  - pose proof (symbols_of_not_nil ns) as Hsym.
    assert (Hreq : requested_streams ns = [] <->
                   ("ticker" ∉ ns_load ns) /\ ("order-book" ∉ ns_load ns) /\
                   ("trades" ∉ ns_load ns) /\ ("klines" ∉ ns_load ns)).
    { unfold requested_streams, known_streams. simpl.
      repeat case_bool_decide; split; intros Hx; try done; tauto. }
    rewrite <- Hreq. split.
    + intros H. destruct (symbols_of ns) as [|x l]; [done|].
      simpl in H. apply app_eq_nil in H as [H _].
      rewrite !map_map in H. by apply map_eq_nil in H.
    + intros ->. simpl. clear Hsym. induction (symbols_of ns); simpl; auto.
Qed.

Lemma tasks_left_from (evs : list BootEvent) (n : Z) :
  fold_left
    (fun n e =>
       match e with
       | CreateConsumer _ | CreateProducer _ => n + 1
       | CancelConsumerTask => n - 1
       | _ => n
       end) evs n = n + tasks_left evs.
Proof.
  unfold tasks_left. revert n. induction evs as [|e evs IH]; intros n; simpl; [lia|].
  rewrite IH. rewrite (IH (match e with
                           | CreateConsumer _ | CreateProducer _ => 0 + 1
                           | CancelConsumerTask => 0 - 1
                           | _ => 0
                           end)).
  destruct e; lia.
Qed.

Lemma tasks_left_app (a b : list BootEvent) :
  tasks_left (a ++ b) = tasks_left a + tasks_left b.
Proof. unfold tasks_left at 1. rewrite fold_left_app. fold (tasks_left a). apply tasks_left_from. Qed.

Lemma tasks_left_skip (e : BootEvent) (evs : list BootEvent) :
  match e with
  | CreateConsumer _ | CreateProducer _ | CancelConsumerTask => False
  | _ => True
  end ->
  tasks_left (e :: evs) = tasks_left evs.
Proof.
  intros He. change (e :: evs) with ([e] ++ evs). rewrite tasks_left_app.
  by destruct e.
Qed.

Lemma tasks_left_producers (specs : list ProducerSpec) :
  tasks_left (map CreateProducer specs) = Z.of_nat (length specs).
Proof.
  induction specs as [|x l IH]; [done|].
  change (map CreateProducer (x :: l)) with ([CreateProducer x] ++ map CreateProducer l).
  rewrite tasks_left_app, IH. simpl length. unfold tasks_left. simpl. lia.
Qed.

Lemma create_tasks_spec (ns : Namespace) (rc : bool) :
  let r := create_tasks ns rc in
  (producer_specs ns = [] -> fst r = Exits /\ tasks_left (snd r) = 0) /\
  (producer_specs ns <> [] ->
   fst r = Starts rc (producer_specs ns) /\
   tasks_left (snd r) = 1 + Z.of_nat (length (producer_specs ns))).
Proof.
  unfold create_tasks. destruct (producer_specs ns) as [|x l] eqn:Hs; simpl.
  - split; [|done]. intros _. done.
  - split; [done|]. intros _. split; [done|].
    change (CreateConsumer rc :: ?a :: CreateProducer x :: map CreateProducer l)
      with ([CreateConsumer rc; a] ++ map CreateProducer (x :: l)).
    rewrite tasks_left_app, tasks_left_producers. simpl length.
    unfold tasks_left. simpl. lia.
Qed.

(** Closes a goal [x ∉ l] for a list written out whose elements all
    differ from [x] by a constructor. *)
Ltac absent :=
  let H := fresh in
  intros H;
  repeat (apply elem_of_cons in H as [H|H]; [discriminate H|]);
  by apply elem_of_nil in H.

Lemma connect_redis_spec (env : Env) (ns : Namespace) :
  let r := connect_redis env ns in
  tasks_left (snd r) = 0 /\
  (Logged CRITICAL MsgRedisCritical ∉ snd r) /\
  (ns_print_only ns = true -> r = (inr false, [])) /\
  (forall rc, fst r = inr rc -> rc = negb (ns_print_only ns)) /\
  (fst r = inr true ->
   exists port,
     redis_port env = inr port /\
     ping env (default "localhost" (getenv env "REDIS_HOST")) port = Pong) /\
  (forall port,
     ns_print_only ns = false -> redis_port env = inr port ->
     ping env (default "localhost" (getenv env "REDIS_HOST")) port <> Pong ->
     fst r = inl (AttributeError "exceptions")).
Proof.
  unfold connect_redis, get_redis_connection.
  destruct (ns_print_only ns).
  { repeat split; try done; [absent|by intros rc [= <-]]. }
  destruct (redis_port env) as [e|port]; [repeat split; try done; absent|].
  destruct (ping env _ port) eqn:Hp; simpl; repeat split; try done;
    try absent; try (by intros rc [= <-]); try (by exists port);
    try (intros port' _ [= <-]; by rewrite Hp).
Qed.

(** Whenever [main] gets as far as running the pipeline, the pipeline
    has at least one producer and a sink: it has a Redis client exactly
    when [--print-only] is absent, so either Redis or the console of
    [--print-only] is served.  The tasks are the dispatcher and the
    producers of [producer_specs]; the environment file exists; the Redis
    client is one whose ping was answered (a ping that fails never leads
    to a run without Redis); with an output format the output directory
    was created. *)
Theorem main_boot_started (env : Env) (a : Parsed) (rc : bool)
    (tasks : list ProducerSpec) :
  fst (main_boot env a) = Starts rc tasks ->
  let ns := parse_arguments a in
  tasks = producer_specs ns /\ tasks <> [] /\
  path_exists env (env_file ns) = true /\
  rc = negb (p_print_only a) /\
  (rc = true ->
   exists port,
     redis_port env = inr port /\
     ping env (default "localhost" (getenv env "REDIS_HOST")) port = Pong) /\
  (ns_output ns <> ∅ ->
   p_print_only a = false /\ mkdir_ok env (p_output_dir a) = true) /\
  tasks_left (snd (main_boot env a)) = 1 + Z.of_nat (length tasks).
Proof.
  intros H ns. unfold main_boot in *. fold ns in H |- *.
  assert (Hpo : ns_print_only ns = p_print_only a) by done.
  assert (Hdir : ns_output_dir ns = p_output_dir a) by done.
  assert (Hclr : ns_print_only ns = true -> ns_output ns = ∅).
  { unfold ns, parse_arguments. simpl. by intros ->. }
  rewrite <- Hpo, <- Hdir. clear Hpo Hdir. revert H.
  generalize dependent ns. intros ns Hclr. unfold main_startup.
  pose proof (connect_redis_spec env ns) as (Hc0 & _ & Hc1 & Hc2 & Hc3 & _).
  pose proof (create_tasks_spec ns) as Hct.
  destruct (bool_decide (ns_output ns = ∅)) eqn:Hout; simpl.
  - apply bool_decide_eq_true in Hout.
    destruct (path_exists env (env_file ns)); simpl; [|done].
    destruct (dotenv_ok env (env_file ns)); simpl; [|done].
    destruct (connect_redis env ns) as [[e|c] evs]; simpl in *; [done|].
    specialize (Hc2 c eq_refl).
    destruct c; simpl.
    + destruct (Hct true) as [Hnil Hsome].
      destruct (decide (producer_specs ns = [])) as [Hn|Hn].
      { destruct (Hnil Hn) as [-> _]. done. }
      destruct (Hsome Hn) as [-> Hleft]. intros [= ? ?]; subst rc tasks.
      repeat split; try done; try (intros _; by apply Hc3).
      rewrite !tasks_left_skip, tasks_left_app, Hc0, Hleft by done. lia.
    + destruct (ns_print_only ns) eqn:Hp; simpl; [|done].
      destruct (Hct false) as [Hnil Hsome].
      destruct (decide (producer_specs ns = [])) as [Hn|Hn].
      { destruct (Hnil Hn) as [-> _]. done. }
      destruct (Hsome Hn) as [-> Hleft]. intros [= ? ?]; subst rc tasks.
      repeat split; try done.
      rewrite !tasks_left_skip, tasks_left_app, Hc0, Hleft by done. lia.
  - apply bool_decide_eq_false in Hout.
    destruct (mkdir_ok env (ns_output_dir ns)) eqn:Hmk; simpl; [|done].
    destruct (path_exists env (env_file ns)); simpl; [|done].
    destruct (dotenv_ok env (env_file ns)); simpl; [|done].
    destruct (connect_redis env ns) as [[e|c] evs]; simpl in *; [done|].
    specialize (Hc2 c eq_refl).
    rewrite andb_false_r.
    destruct (Hct c) as [Hnil Hsome].
    destruct (decide (producer_specs ns = [])) as [Hn|Hn].
    { destruct (Hnil Hn) as [-> _]. done. }
    destruct (Hsome Hn) as [-> Hleft]. intros [= ? ?]; subst rc tasks.
    assert (Hnp : ns_print_only ns = false).
    { destruct (ns_print_only ns) eqn:Hp; [|done]. destruct Hout. by apply Hclr. }
    repeat split; try done; try (intros ->; by apply Hc3).
    simpl. rewrite !tasks_left_skip, tasks_left_app, Hc0, Hleft by done. lia.
Qed.

Lemma main_boot_started_witness :
  let env :=
    mkEnv (fun _ => true) (fun _ => true) (fun _ => true) (fun _ => None)
      (fun _ => None) (fun _ _ => Pong) in
  let a :=
    mkParsed "btcusdt, ethusdt" "Trades" "1m" false "data" (Some "CSV") None None
      false true false in
  tasks_left (snd (main_boot env a)) =
  1 + Z.of_nat
        (length
           [mkProducerSpec "BTCUSDT" "@aggTrade" PROD_BASE_URL
              process_trade_payload "trades";
            mkProducerSpec "ETHUSDT" "@aggTrade" PROD_BASE_URL
              process_trade_payload "trades"]).
Proof.
  intros env a.
  assert (H : fst (main_boot env a) =
              Starts true
                [mkProducerSpec "BTCUSDT" "@aggTrade" PROD_BASE_URL
                   process_trade_payload "trades";
                 mkProducerSpec "ETHUSDT" "@aggTrade" PROD_BASE_URL
                   process_trade_payload "trades"])
    by (vm_compute; reflexivity).
  pose proof (main_boot_started env a _ _ H) as (_ & _ & _ & _ & _ & _ & Hl).
  exact Hl.
Defined.






Lemma main_startup_print_only (env : Env) (ns : Namespace) (rc : bool)
    (tasks : list ProducerSpec) :
  ns_print_only ns = true -> ns_output ns = ∅ ->
  fst (main_startup env ns) = Starts rc tasks ->
  rc = false /\
  Forall (fun e => sink_setup_event e = false) (snd (main_startup env ns)).
Proof.
  intros Hp Hout. unfold main_startup, connect_redis, create_tasks.
  rewrite Hp, Hout. rewrite bool_decide_eq_true_2 by done. simpl.
  destruct (path_exists env (env_file ns)); simpl; [|done].
  destruct (dotenv_ok env (env_file ns)); simpl; [|done].
  destruct (producer_specs ns) as [|x l]; simpl; [done|].
  intros [= <- _]. split; [done|].
  repeat (constructor; [done|]). apply List.Forall_forall.
  intros e [y [<- _]]%in_map_iff. done.
Qed.

Lemma iterates_empty (fmts : list string) : iterates fmts ∅ -> fmts = [].
Proof.
  intros [_ H]. destruct fmts as [|x l]; [done|]. simpl in H. set_solver.
Qed.

(** The console sink alone: what one pass of the dispatcher does when
    [--print-only] is the configuration. *)
Lemma dispatch_console_only (oracle : Oracle) (args : Args) (it : Item) (s : FS) :
  print_only args = true -> output args = [] ->
  let r := dispatch oracle args false it s in
  fst (snd r) = fst s /\ files (snd (snd r)) = files (snd s) /\
  exists tl,
    trace (snd (snd r)) = trace (snd s) ++ tl /\
    Forall (fun e => console_event e = true) tl /\ tl <> [].
Proof.
  intros Hp Hout. unfold dispatch, console_sink. rewrite Hp, Hout, orb_true_r.
  destruct s as [d w].
  unfold bind, try_except, fs_io, fs_log, io, log, modify, ret, raise, failure,
    record.
  destruct (silent args); cbn [fst snd];
    repeat (match goal with
            | |- context [if raises oracle ?n ?c then _ else _] =>
                destruct (raises oracle n c)
            | |- context [if pipe_closed oracle ?n then _ else _] =>
                destruct (pipe_closed oracle n)
            end; cbn [fst snd files trace effect]);
    (repeat split; eexists; rewrite <- ?app_assoc; (split; [done|]);
     split; [|done]; by repeat constructor).
Qed.

(** Under [--print-only] the console is the only sink, from the command
    line to the dispatcher: [parse_arguments] clears the output formats,
    the start of [main] neither creates the output directory nor contacts
    Redis and runs the pipeline without a client, and one pass of the
    dispatcher then leaves the writer map and the file system as they
    are and records nothing but its prints, of which there is at least
    one, or the handling of a closed pipe. *)
Theorem print_only_prints_only (env : Env) (a : Parsed) (rc : bool)
    (tasks : list ProducerSpec) (fmts : list string) (oracle : Oracle)
    (it : Item) (s : FS) :
  p_print_only a = true ->
  fst (main_boot env a) = Starts rc tasks ->
  iterates fmts (ns_output (parse_arguments a)) ->
  let args := pipeline_args (parse_arguments a) fmts in
  let r := dispatch oracle args rc it s in
  rc = false /\ fmts = [] /\
  Forall (fun e => sink_setup_event e = false) (snd (main_boot env a)) /\
  fst (snd r) = fst s /\ files (snd (snd r)) = files (snd s) /\
  exists tl,
    trace (snd (snd r)) = trace (snd s) ++ tl /\
    Forall (fun e => console_event e = true) tl /\ tl <> [].
Proof.
  intros Hp Hstart Hit args r.
  assert (Hout : ns_output (parse_arguments a) = ∅).
  { unfold parse_arguments. simpl. by rewrite Hp. }
  rewrite Hout in Hit. apply iterates_empty in Hit as ->.
  destruct (main_startup_print_only env (parse_arguments a) rc tasks Hp Hout Hstart)
    as [-> Hev].
  split; [done|]. split; [done|]. split; [done|].
  by apply dispatch_console_only.
Qed.

Lemma print_only_prints_only_witness :
  let env :=
    mkEnv (fun _ => true) (fun _ => true) (fun _ => true) (fun _ => None)
      (fun _ => None) (fun _ _ => Pong) in
  let a :=
    mkParsed "btcusdt" "trades" "1m" false "data" (Some "json,csv") None None
      true false true in
  let it := mkItem "trades" "BTCUSDT" [("price", PyRaw (JStr "1"))] in
  let r :=
    dispatch no_faults (pipeline_args (parse_arguments a) []) false it
      ([], mkWorld ∅ []) in
  fst (snd r) = [] /\ files (snd (snd r)) = ∅.
Proof.
  intros env a it r.
  assert (H1 : p_print_only a = true) by reflexivity.
  assert (H2 : fst (main_boot env a) =
               Starts false
                 [mkProducerSpec "BTCUSDT" "@aggTrade" PROD_BASE_URL
                    process_trade_payload "trades"])
    by (vm_compute; reflexivity).
  assert (H3 : iterates [] (ns_output (parse_arguments a))).
  { split; [constructor|]. vm_compute. reflexivity. }
  pose proof (print_only_prints_only env a _ _ [] no_faults it ([], mkWorld ∅ [])
                H1 H2 H3) as (_ & _ & _ & Hw & Hf & _).
  split; [exact Hw|exact Hf].
Defined.

(** ** Logging *)

(** Where the log records of a run go, by their level.  The console
    receives a record from [INFO] up, and under [--silent] only one above
    [CRITICAL]: none of [logging.info], [logging.error] and
    [logging.critical].  The file of [--log] receives every record from
    [INFO] up, [--silent] or not; without [--log], or with an empty path,
    there is no such file. *)
Theorem setup_logging_streams (a : Parsed) (lvl : Z) :
  let logger := setup_logging (parse_arguments a) root_logger in
  (Stderr ∈ emitted logger lvl <->
   INFO <= lvl /\ (p_silent a = true -> CRITICAL < lvl)) /\
  (forall path,
     LogFile path ∈ emitted logger lvl <->
     p_log a = Some path /\ path <> "" /\ INFO <= lvl).
Proof.
  unfold setup_logging, emitted, root_logger, INFO, CRITICAL. simpl.
  change (50 + 1) with 51. rewrite ?Z.geb_leb.
  assert (Hfile : forall f path : string, LogFile f = LogFile path <-> f = path).
  { intros f path. split; [by intros [= ->]|by intros ->]. }
  destruct (p_silent a), (p_log a) as [file|]; simpl;
    try destruct (String.eqb_spec file ""); simpl; rewrite ?Z.geb_leb;
    destruct (Z.leb_spec 20 lvl); simpl; rewrite ?Z.geb_leb;
    try destruct (Z.leb_spec 51 lvl); simpl;
    (split; [|intros path]);
    rewrite ?elem_of_cons, ?elem_of_nil;
    try (split; [intros Hx|intros Hy]);
    repeat match goal with
      | H : _ \/ _ |- _ => destruct H
      | H : _ /\ _ |- _ => destruct H
      | H : False |- _ => destruct H
      | H : Some _ = Some _ |- _ => injection H as ->
      | H : LogFile _ = LogFile _ |- _ => injection H as ->
      | H : None = Some _ |- _ => discriminate H
      | H : Stderr = LogFile _ |- _ => discriminate H
      | H : LogFile _ = Stderr |- _ => discriminate H
      end;
    try done; try lia; try (repeat split; (done || lia));
    try (by left); try (by right; left); try (by right).
Qed.

(** ** The stream readers of the test directory *)

Lemma producer_specs_key (ns : Namespace) (spec : ProducerSpec) :
  In spec (producer_specs ns) ->
  In (ps_symbol spec) (symbols_of ns) /\
  (ps_stream_key spec = "ticker" \/ ps_stream_key spec = "order-book" \/
   ps_stream_key spec = "trades" \/ ps_stream_key spec = "klines").
Proof.
  unfold producer_specs.
  rewrite (producers_for_requested ns (pipeline_args ns [])) by done.
  intros (symbol & Hsym & Hin)%in_flat_map.
  apply in_map_iff in Hin as (t & <- & Ht). simpl. split; [done|].
  apply in_map_iff in Ht as (u & <- & Hu).
  unfold requested_streams in Hu. apply filter_In in Hu as [Hu _].
  simpl in Hu. destruct Hu as [<- | [<- | [<- | [<- | [] ] ] ] ]; simpl; auto.
Qed.

(** The order-book readers of the test directory listen on
    [binance:orderbook:<symbol>], a stream that no producer [main]
    starts ever feeds: the dispatcher names the stream of an order-book
    record [binance:order-book:<symbol>].  The ticker reader listens on
    the stream of the ticker records of a symbol exactly when the two
    symbols agree up to case. *)
Theorem reader_stream_names :
  (forall ns spec payload arg,
     In spec (producer_specs ns) ->
     redis_stream_name (mkItem (ps_stream_key spec) (ps_symbol spec) payload) <>
     TestReaders.order_book_stream_name (TestReaders.reader_symbol arg)) /\
  (forall symbol payload arg,
     redis_stream_name (mkItem "order-book" symbol payload) <>
     TestReaders.order_book_stream_name (TestReaders.reader_symbol arg)) /\
  (forall symbol payload arg,
     redis_stream_name (mkItem "ticker" symbol payload) =
     TestReaders.ticker_stream_name (TestReaders.reader_symbol arg) <->
     PyStr.lower symbol = PyStr.lower (PyStr.upper arg)).
Proof.
  assert (Hne : forall key symbol payload arg,
            key = "ticker" \/ key = "order-book" \/ key = "trades" \/ key = "klines" ->
            redis_stream_name (mkItem key symbol payload) <>
            TestReaders.order_book_stream_name (TestReaders.reader_symbol arg)).
  { intros key symbol payload arg Hk H.
    unfold redis_stream_name, TestReaders.order_book_stream_name in H.
    simpl item_stream in H. simpl item_symbol in H.
    destruct Hk as [-> | [-> | [-> | ->] ] ];
      rewrite ?string_app_cons, ?string_app_nil_l in H; discriminate H. }
  split; [|split].
  - intros ns spec payload arg Hin.
    apply Hne. by apply (producer_specs_key ns).
  - intros symbol payload arg. apply Hne. auto.
  - intros symbol payload arg.
    unfold redis_stream_name, TestReaders.ticker_stream_name,
      TestReaders.reader_symbol.
    simpl item_stream. simpl item_symbol.
    rewrite ?string_app_cons, ?string_app_nil_l.
    split; [by intros [= ->]|by intros ->].
Qed.

(** ** The feed producer: caps at the edge, the queue, rejected messages *)

Section ProducerEdges.

Variable symbol stream_type base_url : string.
Variable process_func : Json -> option Payload.
Variable stream_key : string.

Local Notation "'receive''" := (receive symbol process_func stream_key).
Local Notation "'produce''" :=
  (produce symbol stream_type base_url process_func stream_key).
Local Notation "'run''" :=
  (stream_producer symbol stream_type base_url process_func stream_key).

Lemma receive_falsy_cap args msgs s :
  samples_truthy args = false ->
  receive' args msgs s = receive' (with_samples None args) msgs s.
Proof.
  intros Hno. revert s. induction msgs as [|m msgs IH]; intros s; simpl; [done|].
  destruct m as [|data]; [done|].
  destruct (process_func data) as [payload|]; [|done].
  rewrite Hno. change (samples_truthy (with_samples None args)) with false.
  apply IH.
Qed.

Lemma produce_falsy_cap args feed s :
  samples_truthy args = false ->
  produce' args feed s = produce' (with_samples None args) feed s.
Proof.
  intros Hno. revert s. induction feed as [|sess feed IH]; intros s; simpl; [done|].
  destruct sess as [|msgs closing]; [apply IH|].
  rewrite (receive_falsy_cap args) by done.
  destruct (receive' (with_samples None args) msgs _) as [[| |k] s1];
    [done|destruct closing|]; try done; apply IH.
Qed.

(** A cap of zero is no cap: with [--samples 0] a producer runs exactly
    as without [--samples], on every feed, and never finishes by
    itself. *)
Theorem zero_cap_is_no_cap args feed q w :
  samples args = Some 0 ->
  run' args feed q w = run' (with_samples None args) feed q w /\
  fst (run' args feed q w) = Running.
Proof.
  intros H0.
  assert (Hno : samples_truthy args = false).
  { unfold samples_truthy. by rewrite H0. }
  unfold stream_producer. split; [by apply produce_falsy_cap|].
  rewrite (produce_falsy_cap args) by done.
  by apply produce_uncapped.
Qed.

Lemma receive_negative_cap K args msgs s :
  samples args = Some K -> K < 0 -> sample_count s = 0 ->
  let r := receive' args msgs s in
  let r1 := receive' (with_samples (Some 1) args) msgs s in
  fst r = fst r1 /\ pqueue (snd r) = pqueue (snd r1) /\
  (fst r <> Returned -> snd r = snd r1 /\ sample_count (snd r) = 0).
Proof.
  intros HK Hneg Hc.
  assert (Ht : samples_truthy args = true).
  { unfold samples_truthy. rewrite HK. apply negb_true_iff, Z.eqb_neq. lia. }
  assert (Hv : samples_value args = K) by (unfold samples_value; by rewrite HK).
  destruct msgs as [|[|data] msgs]; simpl; [done..|].
  destruct (process_func data) as [payload|]; [|done].
  rewrite Ht, Hv, Hc.
  change (samples_truthy (with_samples (Some 1) args)) with true.
  change (samples_value (with_samples (Some 1) args)) with 1.
  cbn [sample_count pqueue pworld].
  replace (0 + 1 >=? K) with true by (symmetry; apply Z.geb_le; lia).
  change (0 + 1 >=? 1) with true. cbv iota. done.
Qed.

Lemma produce_negative_cap K args feed s :
  samples args = Some K -> K < 0 -> sample_count s = 0 ->
  let r := produce' args feed s in
  let r1 := produce' (with_samples (Some 1) args) feed s in
  fst r = fst r1 /\ pqueue (snd r) = pqueue (snd r1).
Proof.
  intros HK Hneg. revert s.
  induction feed as [|sess feed IH]; intros s Hc; simpl; [done|].
  destruct sess as [|msgs closing]; [by apply IH|].
  match goal with
  | |- context [receive' args msgs ?x] =>
      destruct (receive_negative_cap K args msgs x HK Hneg Hc) as (He & Hq & Hs);
      destruct (receive' args msgs x) as [e s1];
      destruct (receive' (with_samples (Some 1) args) msgs x) as [e1 s2]
  end.
  simpl in He, Hq, Hs. subst e1.
  destruct e as [| |k]; [done| |].
  - destruct Hs as [<- Hc1]; [done|]. destruct closing; [by apply IH|by apply IH|done].
  - destruct Hs as [<- Hc1]; [done|]. by apply IH.
Qed.

(** A negative cap is a cap of one: with [--samples K] for a negative
    [K] the producer enqueues the first tuple the producer without a cap
    enqueues on the same feed, and nothing more; it finishes exactly when
    there is such a tuple. *)
Theorem negative_cap_takes_one K args feed q w :
  samples args = Some K -> K < 0 ->
  let r := run' args feed q w in
  let free := run' (with_samples None args) feed q w in
  enqueued_since q (snd r) = take 1 (enqueued_since q (snd free)) /\
  (fst r = Finished <-> enqueued_since q (snd free) <> []) /\
  (fst r = Running <-> enqueued_since q (snd free) = []).
Proof.
  intros HK Hneg r free. unfold r, free, stream_producer, enqueued_since.
  match goal with
  | |- context [produce' args feed ?x] => set (s0 := x)
  end.
  destruct (produce_negative_cap K args feed s0 HK Hneg eq_refl) as [Hst Hq].
  destruct (produce_capped symbol stream_type base_url process_func stream_key
              1 (with_samples (Some 1) args) feed s0 s0 eq_refl)
    as (new & Hi & Hcase); [lia|done|simpl; lia|].
  change (with_samples None (with_samples (Some 1) args))
    with (with_samples None args) in Hi, Hcase.
  rewrite Hst, Hq, Hi. simpl in Hcase. rewrite drop_app_length.
  case_decide as Hd.
  - destruct Hcase as (-> & Hit & _). rewrite Hit, drop_app_length.
    change (Z.to_nat (1 - 0)) with 1%nat.
    destruct new as [|x new]; [simpl in Hd; lia|]. by repeat split.
  - destruct Hcase as (-> & Hqq & _). rewrite Hqq, Hi, drop_app_length.
    destruct new as [|x new]; [|simpl in Hd; lia]. by repeat split.
Qed.

End ProducerEdges.

Lemma zero_cap_is_no_cap_witness :
  let a := mkArgs (Some 0) false false false [] "data" "1m" false in
  let m := Decoded (JDict [("p", JStr "1")]) in
  fst (stream_producer "BTCUSDT" "@aggTrade" PROD_BASE_URL process_trade_payload
         "trades" a [Connects [m; m] ClosedOK] empty_queue (mkWorld ∅ [])) = Running.
Proof.
  intros a m.
  assert (H1 : samples a = Some 0) by reflexivity.
  pose proof (zero_cap_is_no_cap "BTCUSDT" "@aggTrade" PROD_BASE_URL
                process_trade_payload "trades" a [Connects [m; m] ClosedOK]
                empty_queue (mkWorld ∅ []) H1) as [_ H].
  exact H.
Defined.

Lemma negative_cap_takes_one_witness :
  let a := mkArgs (Some (-3)) false false false [] "data" "1m" false in
  let m := Decoded (JDict [("p", JStr "1")]) in
  let r :=
    stream_producer "BTCUSDT" "@aggTrade" PROD_BASE_URL process_trade_payload
      "trades" a [Connects [Undecodable] ClosedOK; Connects [m; m; m] StillOpen]
      empty_queue (mkWorld ∅ []) in
  let free :=
    stream_producer "BTCUSDT" "@aggTrade" PROD_BASE_URL process_trade_payload
      "trades" (with_samples None a)
      [Connects [Undecodable] ClosedOK; Connects [m; m; m] StillOpen]
      empty_queue (mkWorld ∅ []) in
  enqueued_since empty_queue (snd r) = take 1 (enqueued_since empty_queue (snd free)).
Proof.
  intros a m r free.
  assert (H1 : samples a = Some (-3)) by reflexivity.
  assert (H2 : -3 < 0) by lia.
  pose proof (negative_cap_takes_one "BTCUSDT" "@aggTrade" PROD_BASE_URL
                process_trade_payload "trades" (-3) a
                [Connects [Undecodable] ClosedOK; Connects [m; m; m] StillOpen]
                empty_queue (mkWorld ∅ []) H1 H2) as [H _].
  exact H.
Defined.

Section ProducerQueue.

Variable symbol stream_type base_url : string.
Variable process_func : Json -> option Payload.
Variable stream_key : string.

Local Notation "'receive''" := (receive symbol process_func stream_key).
Local Notation "'produce''" :=
  (produce symbol stream_type base_url process_func stream_key).
Local Notation "'puts''" := (puts stream_key symbol).

Lemma enqueued_in_app (a b : list Event) :
  enqueued_in (a ++ b) = enqueued_in a ++ enqueued_in b.
Proof. apply omap_app. Qed.

Lemma puts_refl (s : PState) : puts' s s [].
Proof.
  repeat split; rewrite ?app_nil_r; try done; [simpl; lia|].
  exists []. by rewrite app_nil_r.
Qed.

Lemma puts_trans (s1 s2 s3 : PState) (a b : list Item) :
  puts' s1 s2 a -> puts' s2 s3 b -> puts' s1 s3 (a ++ b).
Proof.
  intros (Hi1 & Hu1 & Hf1 & (t1 & Ht1 & He1) & Ha) (Hi2 & Hu2 & Hf2 & (t2 & Ht2 & He2) & Hb).
  repeat split.
  - by rewrite Hi2, Hi1, <- app_assoc.
  - rewrite Hu2, Hu1, length_app. lia.
  - by rewrite Hf2.
  - exists (t1 ++ t2). rewrite Ht2, Ht1, <- app_assoc, enqueued_in_app, He1, He2. done.
  - by apply Forall_app.
Qed.

Lemma puts_record (e : Event) (s : PState) :
  enqueued_in [e] = [] -> puts' s (p_record e s) [].
Proof.
  intros He. repeat split; simpl; rewrite ?app_nil_r; try done; [lia|].
  by exists [e].
Qed.

Lemma puts_reconnect (k : ErrorKind) (s : PState) :
  puts' s (reconnect_wait symbol stream_key k s) [].
Proof.
  unfold reconnect_wait.
  apply (puts_trans s
           (p_record (LogError (MsgProducerError (tag symbol stream_key) k)) s)
           _ [] []); by apply puts_record.
Qed.

Lemma receive_puts args msgs s :
  exists new, puts' s (snd (receive' args msgs s)) new.
Proof.
  revert s. induction msgs as [|m msgs IH]; intros s; simpl.
  - exists []. apply puts_refl.
  - destruct m as [|data]; [exists []; apply puts_refl|].
    destruct (process_func data) as [payload|]; [|exists []; apply puts_refl].
    set (it := mkItem stream_key symbol payload).
    set (s1 := mkPState (sample_count s) (put it (pqueue s))
                 (record (Enqueued it) (pworld s))).
    assert (H1 : puts' s s1 [it]).
    { repeat split; simpl; try done. by exists [Enqueued it]. by repeat constructor. }
    destruct (samples_truthy args).
    + cbn [sample_count pqueue pworld].
      set (s2 := mkPState (sample_count s + 1) (put it (pqueue s))
                   (record (Enqueued it) (pworld s))).
      assert (H2 : puts' s s2 [it]).
      { repeat split; simpl; try done. by exists [Enqueued it]. by repeat constructor. }
      destruct (sample_count s + 1 >=? samples_value args).
      * exists ([it] ++ []). eapply puts_trans; [exact H2|]. by apply puts_record.
      * destruct (IH s2) as [new Hn]. exists ([it] ++ new). by eapply puts_trans.
    + destruct (IH s1) as [new Hn]. exists ([it] ++ new). by eapply puts_trans.
Qed.

Lemma produce_puts args feed s :
  exists new, puts' s (snd (produce' args feed s)) new.
Proof.
  revert s. induction feed as [|sess feed IH]; intros s; simpl.
  - exists []. apply puts_refl.
  - destruct sess as [|msgs closing].
    + match goal with
      | |- context [produce' args feed ?x] => destruct (IH x) as [new Hn]
      end.
      exists ([] ++ new). eapply puts_trans; [|exact Hn].
      apply (puts_trans s
               (p_record (Connect (websocket_url symbol stream_type base_url) false) s)
               _ [] []); [by apply puts_record|apply puts_reconnect].
    + set (s0 := p_record _ (p_record _ s)).
      assert (H0 : puts' s s0 []).
      { apply (puts_trans s
                 (p_record (Connect (websocket_url symbol stream_type base_url) true) s)
                 _ [] []); by apply puts_record. }
      destruct (receive_puts args msgs s0) as [new1 H1].
      destruct (receive' args msgs s0) as [e s1]. simpl in H1.
      assert (H01 : puts' s s1 new1) by (by apply (puts_trans s s0 s1 [] new1)).
      destruct e as [| |k].
      * by exists new1.
      * destruct closing.
        -- destruct (IH s1) as [new Hn]. exists (new1 ++ new). by eapply puts_trans.
        -- destruct (IH (reconnect_wait symbol stream_key ConnectionFailure s1))
             as [new Hn].
           exists (new1 ++ [] ++ new). eapply puts_trans; [exact H01|].
           eapply puts_trans; [apply puts_reconnect|exact Hn].
        -- by exists new1.
      * destruct (IH (reconnect_wait symbol stream_key k s1)) as [new Hn].
        exists (new1 ++ [] ++ new). eapply puts_trans; [exact H01|].
        eapply puts_trans; [apply puts_reconnect|exact Hn].
Qed.

(** A producer only ever adds to the end of the queue.  On every feed
    and under every configuration, the tuples waiting before stay where
    they are; the count of unfinished items grows by exactly the number
    of tuples put; each put, and nothing else, is recorded as such, in
    queue order; every tuple carries the stream key and the symbol of the
    producer; and the producer changes no file. *)
Theorem producer_only_appends args feed q w :
  let r :=
    stream_producer symbol stream_type base_url process_func stream_key
      args feed q w in
  exists new,
    items (pqueue (snd r)) = items q ++ new /\
    unfinished (pqueue (snd r)) = unfinished q + Z.of_nat (length new) /\
    enqueued_in (events_since w (pworld (snd r))) = new /\
    files (pworld (snd r)) = files w /\
    Forall (fun it => item_stream it = stream_key /\ item_symbol it = symbol) new.
Proof.
  intros r. unfold r, stream_producer.
  match goal with
  | |- context [produce' args feed ?x] =>
      set (s0 := x); destruct (produce_puts args feed s0) as [new Hn]
  end.
  assert (H0 : puts' (mkPState 0 q w) s0 []) by (by apply puts_record).
  destruct (puts_trans _ _ _ _ _ H0 Hn) as (Hi & Hu & Hf & (tl & Ht & He) & Ha).
  simpl in *. exists new. repeat split; try done.
  unfold events_since. by rewrite Ht, drop_app_length.
Qed.

End ProducerQueue.

Section ProducerRejects.

Variable symbol stream_type base_url : string.
Variable process_func : Json -> option Payload.
Variable stream_key : string.

Local Notation "'receive''" := (receive symbol process_func stream_key).
Local Notation "'produce''" :=
  (produce symbol stream_type base_url process_func stream_key).

(** A message that decodes but that the projector rejects is handled
    as a failure of the connection.  When the messages [pre] before it
    were all accepted, the producer puts nothing on the queue for it,
    abandons the connection with the messages [rest] behind it, logs the
    error, sleeps 5 and goes on with the next connection attempt of the
    feed. *)
Theorem rejected_message_reconnects args pre data rest closing feed s s1 :
  process_func data = None ->
  receive' args pre
    (p_record (LogInfo (MsgConnected (tag symbol stream_key)))
       (p_record (Connect (websocket_url symbol stream_type base_url) true) s))
  = (IterationEnded, s1) ->
  let waited :=
    mkPState (sample_count s1) (pqueue s1)
      (mkWorld (files (pworld s1))
         (trace (pworld s1) ++
            [LogError (MsgProducerError (tag symbol stream_key) ProjectionFailure);
             Sleep 5])) in
  produce' args (Connects (pre ++ Decoded data :: rest) closing :: feed) s =
  produce' args feed waited.
Proof.
  intros Hrej Hpre waited. simpl. rewrite receive_app, Hpre. simpl. rewrite Hrej.
  unfold reconnect_wait, p_record, record, waited. simpl.
  by rewrite <- app_assoc.
Qed.

End ProducerRejects.

Lemma rejected_message_reconnects_witness :
  let a := mkArgs None false false false [] "data" "1m" false in
  let m := Decoded (JDict [("p", JStr "1")]) in
  let s0 := mkPState 0 empty_queue (mkWorld ∅ []) in
  items
    (pqueue
       (snd (produce "BTCUSDT" "@aggTrade" PROD_BASE_URL process_trade_payload
               "trades" a [Connects ([m] ++ Decoded (JList []) :: [m]) StillOpen]
               s0))) =
  [mkItem "trades" "BTCUSDT"
     [("event_time", PyRaw JNull); ("price", PyRaw (JStr "1"));
      ("quantity", PyRaw JNull); ("trade_time", PyRaw JNull);
      ("is_buyer_maker", PyStrOf JNull)]].
Proof.
  intros a m s0.
  assert (H1 : process_trade_payload (JList []) = None) by reflexivity.
  pose proof (rejected_message_reconnects "BTCUSDT" "@aggTrade" PROD_BASE_URL
                process_trade_payload "trades" a [m] (JList []) [m] StillOpen []
                s0 _ H1 eq_refl) as H.
  rewrite H. reflexivity.
Defined.

(** ** The payload processing functions *)

(** The projectors ask for nothing but an object: the ticker,
    order-book and trade projectors give a record for every JSON object,
    whichever keys it has, and fail on every other value; the kline
    projector moreover needs the value under ["k"], when there is one, to
    be an object. *)
Theorem projectors_accept_objects (j : Json) :
  (is_Some (process_ticker_payload j) <-> is_object j = true) /\
  (is_Some (process_order_book_payload j) <-> is_object j = true) /\
  (is_Some (process_trade_payload j) <-> is_object j = true) /\
  (is_Some (process_kline_payload j) <->
   exists d, j = JDict d /\ is_object (jget d "k" (JDict [])) = true).
Proof.
  destruct j as [|b|n|l|s|l|d]; simpl;
    try (repeat split; try (by intros [? ?]); try (by intros (? & ? & ?)); done).
  repeat split; try done; try (by eexists).
  - intros Hs. exists d. split; [done|].
    destruct (jget d "k" (JDict [])); simpl in *; try done; by destruct Hs.
  - intros (d' & [= <-] & Hk).
    destruct (jget d "k" (JDict [])); simpl in *; done.
Qed.

(** The records of one projector all have the same columns, whatever
    the messages held, each column once: the row the delimited-text
    writer emits for such a record under the header taken from another is
    the record's own values, in order, none missing and none dropped. *)
Theorem projected_records_share_columns (f : Json -> option Payload)
    (j0 j : Json) (p0 p : Payload) :
  In f [process_ticker_payload; process_order_book_payload;
        process_trade_payload; process_kline_payload] ->
  f j0 = Some p0 -> f j = Some p ->
  keys p = keys p0 /\ NoDup (keys p) /\
  csv_row (keys p0) p = CsvRow (map snd p).
Proof. apply projector_columns. Qed.

Lemma projected_records_share_columns_witness :
  let p0 : Payload :=
    [("lastUpdateId", PyRaw (JInt 7)); ("bids", PyDumps (JList []));
     ("asks", PyDumps (JList []))] in
  let p : Payload :=
    [("lastUpdateId", PyRaw JNull); ("bids", PyDumps (JList [JStr "1"]));
     ("asks", PyDumps (JList []))] in
  csv_row (keys p0) p =
  CsvRow [PyRaw JNull; PyDumps (JList [JStr "1"]); PyDumps (JList [])].
Proof.
  intros p0 p.
  assert (Hf : In process_order_book_payload
                 [process_ticker_payload; process_order_book_payload;
                  process_trade_payload; process_kline_payload])
    by (right; left; reflexivity).
  assert (H0 : process_order_book_payload (JDict [("u", JInt 7)]) = Some p0)
    by reflexivity.
  assert (H1 : process_order_book_payload (JDict [("b", JList [JStr "1"])]) = Some p)
    by reflexivity.
  pose proof (projected_records_share_columns _ _ _ _ _ Hf H0 H1) as (_ & _ & H).
  exact H.
Defined.

(** ** The file writer: formats it does not know, and its footprint *)

Lemma write_body_unknown (oracle : Oracle) (args : Args) (sk sym fmt : string)
    (p : Payload) (s : WS) :
  is_columnar fmt = false -> is_line fmt = false ->
  write_body oracle args sk sym p fmt s = (Ok tt, s).
Proof. intros Hc Hl. unfold write_body. by rewrite Hc, Hl. Qed.

Lemma dict_set_default_elem (d : Writers) (k : string) (e : string * WriterState) :
  e ∈ Dict.set d k (default empty_state (Dict.get d k)) ->
  snd e = empty_state \/ e ∈ d.
Proof.
  induction d as [|[k' v'] d IH]; simpl.
  - intros ->%list_elem_of_singleton. by left.
  - destruct (k' =? k)%string; simpl.
    + by right.
    + intros [->|He]%elem_of_cons; [right; by left|].
      destruct (IH He) as [?|?]; [by left|right; by right].
Qed.

Lemma write_formats_unknown (oracle : Oracle) (args : Args) (sk sym : string)
    (p : Payload) (fmts : list string) (d : Writers) (w : World) :
  Forall (fun fmt => is_columnar fmt = false /\ is_line fmt = false) fmts ->
  exists d',
    write_formats oracle args sk sym p fmts (d, w) = (Ok tt, (d', w)) /\
    Forall (fun e => snd e = empty_state \/ e ∈ d) d'.
Proof.
  intros Hf. revert d. induction Hf as [|fmt fmts [Hc Hl] _ IH]; intros d.
  - exists d. split; [done|]. apply Forall_forall. auto.
  - cbn [write_formats]. unfold bind, write_to_file. cbn [fst snd].
    rewrite write_body_unknown by done.
    match goal with
    | |- context [write_formats _ _ _ _ _ _ (?x, _)] =>
        destruct (IH x) as (d' & Hw & Hd')
    end.
    exists d'. split; [done|].
    eapply Forall_impl; [exact Hd'|]. intros e [He|He]; [by left|].
    by apply (dict_set_default_elem d (writer_key_of sk sym fmt)).
Qed.

(** An output format the writer does not know is accepted in silence.
    [write_to_file] then makes no call, logs nothing and raises nothing
    whatever the oracle; it only binds the writer key, to an empty state
    when the key is new.  A dispatcher whose output formats are all
    unknown, with neither console nor Redis, marks every tuple done
    without leaving a trace of it: no file, no event, no state other than
    empty ones. *)
Theorem unknown_format_drops_records (oracle : Oracle) (args : Args) :
  (forall sk sym p fmt d w,
     is_columnar fmt = false -> is_line fmt = false ->
     write_to_file oracle args sk sym p fmt (d, w) =
     (Ok tt,
      (Dict.set d (writer_key_of sk sym fmt)
         (default empty_state (Dict.get d (writer_key_of sk sym fmt))), w))) /\
  (forall it d w,
     print args = false -> print_only args = false ->
     Forall (fun fmt => is_columnar fmt = false /\ is_line fmt = false)
       (output args) ->
     exists d',
       dispatch oracle args false it (d, w) = (Ok Continue, (d', w)) /\
       Forall (fun e => snd e = empty_state \/ e ∈ d) d').
Proof.
  split.
  - intros sk sym p fmt d w Hc Hl. unfold write_to_file. cbn [fst snd].
    by rewrite write_body_unknown.
  - intros it d w Hp Hpo Hf. unfold dispatch, console_sink.
    rewrite Hp, Hpo. cbn [orb]. unfold bind at 1 2 3. unfold ret at 1 2.
    destruct (output args) as [|fmt fmts] eqn:Ho.
    + exists d. split; [done|]. apply Forall_forall. auto.
    + destruct (write_formats_unknown oracle args (item_stream it) (item_symbol it)
                  (item_payload it) (fmt :: fmts) d w Hf) as (d' & Hw & Hd').
      exists d'. split; [|done]. unfold bind. by rewrite Hw.
Qed.

Lemma files_extend_refl (fs : gmap string (list Chunk)) : files_extend fs fs.
Proof. intros f old H. exists []. by rewrite app_nil_r. Qed.

Lemma files_extend_trans (a b c : gmap string (list Chunk)) :
  files_extend a b -> files_extend b c -> files_extend a c.
Proof.
  intros Hab Hbc f old H. destruct (Hab f old H) as [n1 H1].
  destruct (Hbc f _ H1) as [n2 H2]. exists (n1 ++ n2). by rewrite app_assoc.
Qed.

Lemma files_extend_effect (c : IOCall) (fs : gmap string (list Chunk)) :
  match c with WriteTable _ _ _ => False | _ => True end ->
  files_extend fs (effect c fs).
Proof.
  intros Hc f old H. destruct c as [| |path|path ch| | |]; simpl;
    try (exists []; by rewrite app_nil_r); try done.
  - destruct (decide (path = f)) as [->|Hne].
    + rewrite lookup_insert_eq, H. exists []. by rewrite app_nil_r.
    + rewrite lookup_insert_ne by done. exists []. by rewrite app_nil_r.
  - destruct (decide (path = f)) as [->|Hne].
    + rewrite lookup_insert_eq, H. by exists [ch].
    + rewrite lookup_insert_ne by done. exists []. by rewrite app_nil_r.
Qed.

Lemma effect_frame (c : IOCall) (fs : gmap string (list Chunk)) (f : string) :
  call_path c <> Some f -> effect c fs !! f = fs !! f.
Proof.
  intros Hc. destruct c; simpl in *; try done;
    apply lookup_insert_ne; congruence.
Qed.

(** Steps through the calls of the writer under an arbitrary oracle,
    the effects of the calls on the file system left as they are. *)
Ltac walk_writer :=
  repeat
    (progress
       (unfold ws_get, ws_set, ws_io, ws_item, ws_log, bind, gets, modify, ret,
          raise, io, log, try_except, record;
        cbn -[String.append PyStr.lower PyStr.of_int Z.add Z.geb Z.of_nat
              BATCH_SIZE_FOR_COLUMNAR FILE_ROTATION_LINE_COUNT length app
              effect line_path columnar_path]);
     try match goal with
         | |- context [if raises ?o ?n ?c then _ else _] =>
             destruct (raises o n c)
         | |- context [if ?a >=? ?b then _ else _] => destruct (a >=? b)
         end).

(** Closes the two goals on the file system after a walk: the files
    only grew, and only the file named in the goal changed. *)
Ltac close_files :=
  split;
  [repeat first [apply files_extend_refl
                |eapply files_extend_trans; [|by apply files_extend_effect]]
  |let f := fresh "f" in
   let Hf := fresh "Hf" in
   intros f Hf; rewrite ?effect_frame by (cbn [call_path]; congruence); done].

Section LineFootprint.

Variable oracle : Oracle.
Variable args : Args.

Lemma write_body_line_footprint (sk sym fmt : string) (p : Payload)
    (st : WriterState) (w : World) :
  is_line fmt = true ->
  line_state_ok args sk sym fmt st ->
  let res := write_body oracle args sk sym p fmt (st, w) in
  let st' := fst (snd res) in
  let w' := snd (snd res) in
  line_state_ok args sk sym fmt st' /\
  files_extend (files w) (files w') /\
  (forall f, f <> line_path args sk sym (default 0 (part st')) fmt ->
             files w' !! f = files w !! f).
Proof.
  intros Hfmt [Hh Hw]. destruct st as [bf pt h l wr hd]. simpl in Hh, Hw.
  destruct (is_line_cases fmt Hfmt) as [-> | ->]; unfold write_body;
    destruct h as [h|]; destruct l as [n|]; destruct wr as [x|];
    destruct hd as [hs|]; walk_writer.
  all: try (specialize (Hh _ eq_refl); subst h).
  all: try (specialize (Hw eq_refl _ eq_refl); try discriminate Hw;
            try (injection Hw as <-)).
  all: (split;
        [split; simpl;
         [intros h0 [= <-]; try done
         |let H := fresh in intros H; try discriminate H; intros x0 [= <-]; try done]
        |]).
  all: close_files.
Qed.

Lemma write_body_extends (sk sym fmt : string) (p : Payload) (st : WriterState)
    (w : World) :
  is_columnar fmt = false ->
  files_extend (files w)
    (files (snd (snd (write_body oracle args sk sym p fmt (st, w))))).
Proof.
  intros Hc. destruct (is_line fmt) eqn:Hfmt.
  2:{ rewrite write_body_unknown by done. apply files_extend_refl. }
  destruct st as [bf pt h l wr hd].
  destruct (is_line_cases fmt Hfmt) as [-> | ->]; unfold write_body;
    destruct h as [h|]; destruct l as [n|]; destruct wr as [x|];
    destruct hd as [hs|]; walk_writer;
    repeat first [apply files_extend_refl
                 |eapply files_extend_trans; [|by apply files_extend_effect]].
Qed.

Lemma appends_ret {A} (a : A) : appends (ret a).
Proof. intros s. apply files_extend_refl. Qed.

Lemma appends_raise {A} (e : Exn) : appends (raise (A := A) e).
Proof. intros s. apply files_extend_refl. Qed.

Lemma appends_bind {A B} (m : M FS A) (k : A -> M FS B) :
  appends m -> (forall a, appends (k a)) -> appends (bind m k).
Proof.
  intros Hm Hk s. unfold bind. pose proof (Hm s) as H1.
  destruct (m s) as [[a|e] s1]; simpl in *; [|done].
  eapply files_extend_trans; [exact H1|apply Hk].
Qed.

Lemma appends_try {A} (m : M FS A) (h : Exn -> M FS A) :
  appends m -> (forall e, appends (h e)) -> appends (try_except m h).
Proof.
  intros Hm Hh s. unfold try_except. pose proof (Hm s) as H1.
  destruct (m s) as [[a|e] s1]; simpl in *; [done|].
  eapply files_extend_trans; [exact H1|apply Hh].
Qed.

Lemma appends_io (c : IOCall) :
  match c with WriteTable _ _ _ => False | _ => True end ->
  appends (fs_io oracle c).
Proof.
  intros Hc [d w]. unfold fs_io, io. simpl.
  destruct (oracle _ _); simpl; [apply files_extend_refl|by apply files_extend_effect].
Qed.

Lemma appends_log (e : Event) : appends (fs_log e).
Proof. intros [d w]. apply files_extend_refl. Qed.

Lemma appends_write_to_file (sk sym fmt : string) (p : Payload) :
  is_columnar fmt = false -> appends (write_to_file oracle args sk sym p fmt).
Proof.
  intros Hc [d w]. unfold write_to_file. cbn [fst snd].
  set (st := default empty_state _).
  pose proof (write_body_extends sk sym fmt p st w Hc) as H.
  by destruct (write_body oracle args sk sym p fmt (st, w)) as [[[]|e] [st' w']].
Qed.

Lemma appends_write_formats (sk sym : string) (p : Payload) (fmts : list string) :
  Forall (fun fmt => is_columnar fmt = false) fmts ->
  appends (write_formats oracle args sk sym p fmts).
Proof.
  induction 1 as [|fmt fmts Hc _ IH]; simpl; [apply appends_ret|].
  apply appends_bind; [by apply appends_write_to_file|done].
Qed.

Lemma appends_console_sink (it : Item) : appends (console_sink oracle args it).
Proof.
  unfold console_sink. destruct (print args || print_only args); [|apply appends_ret].
  apply appends_try.
  - apply appends_bind; [|intros; apply appends_ret].
    destruct (silent args); [by apply appends_io|].
    apply appends_bind; [by apply appends_io|intros; by apply appends_io].
  - intros e. destruct e; try apply appends_raise.
    apply appends_bind; [apply appends_log|intros _].
    apply appends_bind; [apply appends_log|intros _]. apply appends_ret.
Qed.

Lemma appends_dispatch (redis_client : bool) (it : Item) :
  Forall (fun fmt => is_columnar fmt = false) (output args) ->
  appends (dispatch oracle args redis_client it).
Proof.
  intros Hf. unfold dispatch. apply appends_bind; [apply appends_console_sink|].
  intros [|]; [|apply appends_ret].
  apply appends_bind;
    [destruct redis_client; [by apply appends_io|apply appends_ret]|].
  intros _. apply appends_bind; [|intros; apply appends_ret].
  destruct (output args); [apply appends_ret|by apply appends_write_formats].
Qed.

(** Without a columnar format the pipeline only ever appends to files.
    Whatever the tuples, the state of the writers and the calls that
    fail, every file that exists when the dispatcher takes a tuple exists
    afterwards and begins with what it held: nothing written is removed,
    truncated or rewritten, across any number of tuples. *)
Theorem line_formats_only_append (redis_client : bool) (its : list Item)
    (p : Pipeline) :
  Forall (fun fmt => is_columnar fmt = false) (output args) ->
  files_extend (files (world p))
    (files (world (consume_all oracle args redis_client its p))).
Proof.
  intros Hf. revert p. induction its as [|it rest IH]; intros p; simpl.
  - apply files_extend_refl.
  - eapply files_extend_trans; [|apply IH].
    unfold consume. pose proof (appends_dispatch redis_client it Hf (writers p, world p)) as H.
    destruct (dispatch oracle args redis_client it (writers p, world p))
      as [[[|]|e] [ws w]]; simpl in *; try done.
    by destruct (unfinished (queue p) <=? 0).
Qed.

(** A line-format writer keeps to itself.  One call of [write_to_file]
    for a line format, whatever fails in it, leaves the state of every
    other writer as it is, only appends to files, and changes no file
    other than a part of this writer; and the state it leaves under the
    key has its handle on the file of its current part, as the state it
    found had. *)
Theorem line_writer_footprint (sk sym fmt : string) (p : Payload) (d : Writers)
    (w : World) :
  is_line fmt = true ->
  (forall st, Dict.get d (writer_key_of sk sym fmt) = Some st ->
              line_state_ok args sk sym fmt st) ->
  let r := write_to_file oracle args sk sym p fmt (d, w) in
  (forall st', Dict.get (fst (snd r)) (writer_key_of sk sym fmt) = Some st' ->
               line_state_ok args sk sym fmt st') /\
  (forall k, k <> writer_key_of sk sym fmt ->
             Dict.get (fst (snd r)) k = Dict.get d k) /\
  files_extend (files w) (files (snd (snd r))) /\
  (forall f, (forall q, f <> line_path args sk sym q fmt) ->
             files (snd (snd r)) !! f = files w !! f).
Proof.
  intros Hfmt Hd. cbv zeta. unfold write_to_file. cbn [fst snd].
  set (key := writer_key_of sk sym fmt) in *.
  assert (Hst : line_state_ok args sk sym fmt (default empty_state (Dict.get d key))).
  { destruct (Dict.get d key) as [st|] eqn:Hget; simpl; [by apply Hd|].
    split; [done|]. by intros _ x. }
  pose proof (write_body_line_footprint sk sym fmt p _ w Hfmt Hst)
    as (Hok & Hext & Hframe).
  destruct (write_body oracle args sk sym p fmt (_, w)) as [[[]|e] [st' w']];
    cbn [fst snd] in *.
  - split; [|split; [|split]]; [| |done|].
    + intros st1. rewrite dict_get_set_eq. by intros [= <-].
    + intros k Hk. by rewrite dict_get_set_ne.
    + intros f Hf. by apply Hframe.
  - destruct (Dict.get d key) as [st|] eqn:Hget;
      (split; [|split; [|split]]; [| |done|]).
    + intros st1. rewrite dict_get_set_eq. by intros [= <-].
    + intros k Hk. by rewrite dict_get_set_ne.
    + intros f Hf. by apply Hframe.
    + intros st1. by rewrite Hget.
    + done.
    + intros f Hf. by apply Hframe.
Qed.

End LineFootprint.

Lemma line_formats_only_append_witness :
  let a := mkArgs None false false false ["json"; "csv"] "data" "1m" false in
  let it := mkItem "trades" "BTCUSDT" [("price", PyRaw (JStr "1"))] in
  let old := {["data/trades_btcusdt_1.jsonl" := [JsonLine []]]} in
  let p0 := mkPipeline (mkQueue [it] 1) [] (mkWorld old []) Running [] in
  Forall (fun fmt => is_columnar fmt = false) (output a) /\
  files_extend old (files (world (consume_all no_faults a true [it] p0))).
Proof.
  intros a it old p0.
  assert (H : Forall (fun fmt => is_columnar fmt = false) (output a))
    by (repeat constructor).
  split; [exact H|].
  exact (line_formats_only_append no_faults a true [it] p0 H).
Defined.

Lemma line_writer_footprint_witness :
  let a := mkArgs None false false false ["csv"; "json"] "data" "1m" false in
  let r : Payload := [("price", PyRaw (JStr "1"))] in
  let csv := "data/trades_btcusdt_1.csv" in
  let jsonl := "data/trades_btcusdt_1.jsonl" in
  let st_csv :=
    mkState None (Some 1) (Some csv) (Some 2) (Some csv) (Some ["price"]) in
  let st_json := mkState None (Some 1) (Some jsonl) (Some 1) None None in
  let d : Writers :=
    [("trades_btcusdt_csv", st_csv); ("trades_btcusdt_json", st_json)] in
  let held := [CsvHeader ["price"]; CsvRow [PyRaw (JStr "1")]] in
  let fs : gmap string (list Chunk) :=
    <[csv := held]> (<[jsonl := [JsonLine r]]> ∅) in
  let res := write_to_file no_faults a "trades" "BTCUSDT" r "csv" (d, mkWorld fs []) in
  is_line "csv" = true /\
  line_state_ok a "trades" "BTCUSDT" "csv" st_csv /\
  Dict.get (fst (snd res)) "trades_btcusdt_json" = Some st_json /\
  (exists st', Dict.get (fst (snd res)) "trades_btcusdt_csv" = Some st' /\
               line_state_ok a "trades" "BTCUSDT" "csv" st') /\
  (exists new, files (snd (snd res)) !! csv = Some (held ++ new)) /\
  files (snd (snd res)) !! jsonl = Some [JsonLine r].
Proof.
  intros a r csv jsonl st_csv st_json d held fs res.
  assert (H1 : is_line "csv" = true) by reflexivity.
  assert (H0 : line_state_ok a "trades" "BTCUSDT" "csv" st_csv).
  { split; [by intros h [= <-]|]. by intros _ x [= <-]. }
  assert (H2 : forall st, Dict.get d (writer_key_of "trades" "BTCUSDT" "csv") = Some st ->
                          line_state_ok a "trades" "BTCUSDT" "csv" st)
    by (by intros st [= <-]).
  pose proof (line_writer_footprint no_faults a "trades" "BTCUSDT" "csv" r d
                (mkWorld fs []) H1 H2) as (Hst & Hother & Hext & Hframe).
  fold res in Hst, Hother, Hext, Hframe.
  split; [exact H1|]. split; [exact H0|].
  split; [by apply (Hother "trades_btcusdt_json")|].
  split; [eexists; split; [reflexivity|by apply Hst]|].
  split; [by apply (Hext csv held)|].
  rewrite (Hframe jsonl); [done|].
  intros q Heq. unfold line_path in Heq. vm_compute PyStr.lower in Heq.
  cbn [output_dir a String.append line_ext String.eqb Ascii.eqb] in Heq.
  injection Heq as Heq.
  apply (f_equal (PyStr.rsplit1 ".")) in Heq.
  change ("" +:+ PyStr.of_int q +:+ "." +:+ line_ext "csv")
    with (PyStr.of_int q +:+ String "." "csv") in Heq.
  rewrite rsplit1_app in Heq by done. discriminate Heq.
Defined.

(** ** The final flush: what it leaves alone *)

Section FinalFlushFrame.

Variable oracle : Oracle.
Variable args : Args.

Lemma flush_buffer_keeps (a b fmt : string) (st : WriterState) (w : World) :
  let res := flush_buffer oracle args a b fmt (st, w) in
  flushed_from (a, st) (a, fst (snd res)) /\
  exists tl,
    trace (snd (snd res)) = trace w ++ tl /\
    Forall (fun e => flush_event e = true) tl.
Proof.
  destruct st as [bf pt h l wr hd]. unfold flush_buffer, flushed_from.
  destruct bf as [[|r rows]|];
    [step_writer; repeat split; try done; exists []; by rewrite app_nil_r| |
     step_writer; repeat split; try done; exists []; by rewrite app_nil_r].
  destruct pt as [q|];
    [|step_writer; repeat split; try done; exists []; by rewrite app_nil_r].
  destruct (String.eqb fmt "parquet") eqn:E1;
    [|destruct (String.eqb fmt "orc") eqn:E2];
    step_writer; rewrite ?E1, ?E2; step_writer; repeat split; try done;
    eexists; (split; [rewrite <- ?app_assoc; simpl; reflexivity|]);
    by repeat constructor.
Qed.

Lemma flush_each_keeps (d : Writers) (w : World) :
  writers_ok d ->
  let r := flush_each oracle args d w in
  Forall2 flushed_from d (fst (snd r)) /\
  exists tl,
    trace (snd (snd r)) = trace w ++ tl /\
    Forall (fun e => flush_event e = true) tl.
Proof.
  intros Hd. revert w.
  induction Hd as [|[k st] d Hx Hd IH]; intros w; cbn [flush_each].
  - split; [constructor|]. exists []. by rewrite app_nil_r.
  - destruct Hx as (Hkey & Hbuf). cbn [fst snd] in *.
    destruct (PyStr.endswith k "parquet" || PyStr.endswith k "orc") eqn:Hend.
    + destruct Hkey as (sk & sym & fmt & ->).
      destruct (rsplit2_three sk sym fmt) as (a & b & c & ->).
      pose proof (flush_buffer_keeps a b c st w) as ((_ & Hh & Hl & Hw & Hhd & Hsame)
                                                     & tl & Htl & Hev).
      pose proof (flush_each_ok oracle args
                    [(writer_key_of sk sym fmt, st)] w) as Hok.
      assert (Hres : fst (flush_buffer oracle args a b c (st, w)) = Ok tt).
      { pose proof (flush_buffer_effect oracle args a b c st w) as He.
        cbv zeta in He. destruct He as (_ & _ & He).
        destruct (nonempty (buffer st)) eqn:Hne; [|by rewrite He].
        destruct He as (_ & He).
        destruct (buffer st) as [bf|] eqn:Hbf; [|done].
        destruct Hbuf as ((q & Hq) & _); [done|]. rewrite Hq in He.
        by destruct He as (? & _). }
      clear Hok.
      destruct (flush_buffer oracle args a b c (st, w)) as [r [st' w']].
      cbn [fst snd] in *. subst r.
      destruct (IH w') as (Hf & tl' & Htl' & Hev'). cbn [fst snd].
      split.
      * constructor; [|done]. repeat split; try done.
        intros Hne. specialize (Hsame Hne). by injection Hsame as ->.
      * exists (tl ++ tl'). rewrite Htl', Htl, <- app_assoc. split; [done|].
        by apply Forall_app.
    + destruct (IH w) as (Hf & tl & Htl & Hev). cbn [fst snd]. split; [|by exists tl].
      constructor; [|done]. by repeat split.
Qed.

Lemma flush_each_idle (o : Oracle) (d : Writers) (w : World) :
  writers_ok d -> no_pending_rows d ->
  flush_each o args d w = (Ok tt, (d, w)).
Proof.
  intros Hd Hnp. revert w.
  induction Hd as [|[k st] d Hx Hd IH]; intros w; cbn [flush_each]; [done|].
  apply Forall_cons in Hnp as [Hst Hnp]. cbn [snd] in Hst.
  destruct Hx as (Hkey & _). cbn [fst] in Hkey.
  destruct (PyStr.endswith k "parquet" || PyStr.endswith k "orc").
  - destruct Hkey as (sk & sym & fmt & ->).
    destruct (rsplit2_three sk sym fmt) as (a & b & c & ->).
    rewrite flush_buffer_nothing by done. by rewrite IH.
  - by rewrite IH.
Qed.

(** The final flush leaves the line-format writers alone.  On a writer
    map in order and whatever fails, [flush_all_buffers] returns
    normally, keeps the keys in their order, keeps every handle, line
    count, row writer and header as they are, so that no open part is
    closed, leaves every state without buffered rows untouched, and makes
    no call other than columnar writes. *)
Theorem final_flush_closes_nothing (d : Writers) (w : World) :
  writers_ok d ->
  let r := flush_all_buffers oracle args (d, w) in
  fst r = Ok tt /\
  Forall2 flushed_from d (fst (snd r)) /\
  exists tl,
    trace (snd (snd r)) = trace w ++ tl /\
    Forall (fun e => flush_event e = true) tl.
Proof.
  intros Hd. cbv zeta.
  unfold flush_all_buffers, bind, fs_log, log, modify. cbn [fst snd].
  destruct (flush_each_ok oracle args d (record (LogInfo MsgCleanupStart) w) Hd)
    as (Hr & _ & _).
  destruct (flush_each_keeps d (record (LogInfo MsgCleanupStart) w) Hd)
    as (Hf & tl & Htl & Hev).
  destruct (flush_each oracle args d _) as [r [d' w']]. cbn [fst snd] in *.
  subst r. cbn [fst snd]. split; [done|]. split; [done|].
  exists ([LogInfo MsgCleanupStart] ++ tl ++ [LogInfo MsgCleanupDone]).
  unfold record in *. cbn [trace] in *. rewrite Htl, <- !app_assoc.
  split; [done|]. apply Forall_app. split; [by repeat constructor|].
  apply Forall_app. split; [done|by repeat constructor].
Qed.

(** Flushing twice is flushing once.  After one [flush_all_buffers] on
    a writer map in order, whether its writes succeeded or failed, a
    second one writes nothing: it returns normally, leaves the writer map
    and the file system as they are, and only adds its two log records,
    whatever its own calls would do. *)
Theorem final_flush_once_is_enough (oracle' : Oracle) (d : Writers) (w : World) :
  writers_ok d ->
  let r1 := flush_all_buffers oracle args (d, w) in
  let r2 := flush_all_buffers oracle' args (snd r1) in
  r2 =
  (Ok tt,
   (fst (snd r1),
    mkWorld (files (snd (snd r1)))
      (trace (snd (snd r1)) ++ [LogInfo MsgCleanupStart; LogInfo MsgCleanupDone]))).
Proof.
  intros Hd. cbv zeta.
  assert (H1 : writers_ok (fst (snd (flush_all_buffers oracle args (d, w)))) /\
               no_pending_rows (fst (snd (flush_all_buffers oracle args (d, w))))).
  { split; [|by apply flush_all_buffers_ok].
    by apply (quiet_flush_all_buffers oracle args (d, w)). }
  destruct (flush_all_buffers oracle args (d, w)) as [r [d1 w1]].
  cbn [fst snd] in *. destruct H1 as [Hok Hnp].
  unfold flush_all_buffers, bind, fs_log, log, modify. cbn [fst snd].
  rewrite (flush_each_idle oracle' d1 _ Hok Hnp). cbn [fst snd].
  unfold record. cbn [files trace]. by rewrite <- app_assoc.
Qed.

End FinalFlushFrame.

Lemma final_flush_closes_nothing_witness :
  let a := mkArgs None false false false ["csv"; "parquet"] "data" "1m" false in
  let row : Payload := [("price", PyRaw (JStr "1"))] in
  let f := "data/trades_btcusdt_1.csv" in
  let d : Writers :=
    [(writer_key_of "trades" "BTCUSDT" "csv",
      mkState None (Some 1) (Some f) (Some 2) (Some f) (Some ["price"]));
     (writer_key_of "trades" "BTCUSDT" "parquet",
      mkState (Some [row]) (Some 0) None None None None)] in
  let r := flush_all_buffers no_faults a (d, mkWorld ∅ []) in
  fst r = Ok tt /\ Forall2 flushed_from d (fst (snd r)).
Proof.
  intros a row f d r.
  assert (Hd : writers_ok d).
  { apply Forall_cons; split; [|apply Forall_cons; split; [|constructor]].
    - split; [by exists "trades", "BTCUSDT", "csv"|].
      intros [x Hx]. discriminate Hx.
    - split; [by exists "trades", "BTCUSDT", "parquet"|].
      intros _. split; [by eexists|]. by exists "trades", "BTCUSDT", "parquet". }
  pose proof (final_flush_closes_nothing no_faults a d (mkWorld ∅ []) Hd)
    as (H1 & H2 & _).
  split; [exact H1|exact H2].
Defined.

Lemma final_flush_once_is_enough_witness :
  let a := mkArgs None false false false ["parquet"] "data" "1m" false in
  let disk_full : Oracle :=
    mkOracle (fun _ c => match c with WriteTable _ _ _ => true | _ => false end)
      (fun _ => false) in
  let row : Payload := [("price", PyRaw (JStr "1"))] in
  let d : Writers :=
    [(writer_key_of "trades" "BTCUSDT" "parquet",
      mkState (Some [row]) (Some 0) None None None None)] in
  let r1 := flush_all_buffers disk_full a (d, mkWorld ∅ []) in
  let r2 := flush_all_buffers no_faults a (snd r1) in
  fst r2 = Ok tt /\ files (snd (snd r2)) = files (snd (snd r1)).
Proof.
  intros a disk_full row d r1 r2.
  assert (Hd : writers_ok d).
  { apply Forall_cons; split; [|constructor].
    split; [by exists "trades", "BTCUSDT", "parquet"|].
    intros _. split; [by eexists|]. by exists "trades", "BTCUSDT", "parquet". }
  pose proof (final_flush_once_is_enough disk_full a no_faults d (mkWorld ∅ []) Hd)
    as H.
  cbv zeta in H. unfold r2, r1. rewrite H. split; reflexivity.
Defined.

(** ** A run over the files of an earlier run *)

Section Restart.

Variable args : Args.
Variable sk sym : string.

(** Every run numbers the parts of a writer from 1, whatever the output
    directory already holds.  The first record of a line-format writer is
    appended to the part-1 file an earlier run left there, for the
    delimited-text format behind a header of its own; the rows of a
    columnar writer, flushed at shutdown, replace the part-1 file of the
    earlier run, whose content is lost. *)
Theorem restart_appends_or_replaces (fs0 : gmap string (list Chunk))
    (tr0 : list Event) (p : Payload) (ps : list Payload) (fmt : string) :
  is_columnar fmt = true ->
  Z.of_nat (length (p :: ps)) < BATCH_SIZE_FOR_COLUMNAR ->
  let w0 := mkWorld fs0 tr0 in
  let j1 := line_path args sk sym 1 "json" in
  let c1 := line_path args sk sym 1 "csv" in
  let t1 := columnar_path args sk sym 1 fmt in
  let buffered := write_all no_faults args sk sym fmt (p :: ps) ([], w0) in
  files (snd (snd (write_all no_faults args sk sym "json" [p] ([], w0)))) =
    append_to j1 [JsonLine p] fs0 /\
  files (snd (snd (write_all no_faults args sk sym "csv" [p] ([], w0)))) =
    append_to c1 [CsvHeader (keys p); csv_row (keys p) p] fs0 /\
  files (snd (snd buffered)) = fs0 /\
  files (snd (snd (flush_all_buffers no_faults args (snd buffered)))) =
    <[t1 := [Table fmt (p :: ps)]]> fs0.
Proof.
  intros Hfmt Hlen w0 j1 c1 t1 buffered.
  split; [|split].
  - erewrite write_all_from_empty;
      [|cbn [write_seq]; unfold bind;
        rewrite (write_json_closed args sk sym empty_state w0 p eq_refl);
        reflexivity].
    reflexivity.
  - erewrite write_all_from_empty;
      [|cbn [write_seq]; unfold bind;
        rewrite (write_csv_closed args sk sym empty_state w0 p eq_refl);
        reflexivity].
    reflexivity.
  - assert (Hb : buffered =
                 (Ok tt,
                  ([(writer_key_of sk sym fmt,
                     mkState (Some (p :: ps)) (Some 0) None None None None)], w0))).
    { unfold buffered. apply write_all_from_empty.
      cbn [write_seq]. unfold bind. rewrite write_columnar by done.
      cbn [buffer part handle lines writer header default from_option empty_state
           app length id].
      replace (Z.of_nat 1 >=? BATCH_SIZE_FOR_COLUMNAR) with false by done.
      erewrite (write_seq_columnar_fill args sk sym no_faults fmt ps _ w0 [p] Hfmt);
        [done|done|]. simpl length in *. lia. }
    rewrite Hb. cbn [fst snd files]. split; [done|].
    unfold flush_all_buffers, bind, fs_log, log, modify. cbn [fst snd].
    rewrite flush_each_single by done.
    erewrite (flush_buffer_rows args sk sym no_faults fmt _ _ p ps 0 Hfmt);
      [|reflexivity|reflexivity].
    reflexivity.
Qed.

End Restart.

Lemma restart_appends_or_replaces_witness :
  let a := mkArgs None false false false ["parquet"] "data" "1m" false in
  let row : Payload := [("price", PyRaw (JStr "1"))] in
  let earlier : Payload := [("price", PyRaw (JStr "0"))] in
  let f := columnar_path a "trades" "BTCUSDT" 1 "parquet" in
  let fs0 : gmap string (list Chunk) := {[f := [Table "parquet" [earlier; earlier]]]} in
  let buffered :=
    write_all no_faults a "trades" "BTCUSDT" "parquet" [row] ([], mkWorld fs0 []) in
  fs0 !! f = Some [Table "parquet" [earlier; earlier]] /\
  files (snd (snd (flush_all_buffers no_faults a (snd buffered)))) !! f =
    Some [Table "parquet" [row]].
Proof.
  intros a row earlier f fs0 buffered.
  assert (H1 : is_columnar "parquet" = true) by reflexivity.
  assert (H2 : Z.of_nat (length [row]) < BATCH_SIZE_FOR_COLUMNAR)
    by (unfold BATCH_SIZE_FOR_COLUMNAR; simpl; lia).
  pose proof (restart_appends_or_replaces a "trades" "BTCUSDT" fs0 [] row []
                "parquet" H1 H2) as (_ & _ & _ & H).
  split; [apply lookup_singleton_eq|].
  unfold buffered. rewrite H. apply lookup_insert_eq.
Defined.

(** ** Writer keys and part files *)

(** [flush_all_buffers] takes the stream key, the symbol and the format
    of a writer back out of its key.  For a format without underscore, as
    the four known ones are, it gets the format back, together with a
    stream key and a symbol that give the part paths of the writer, even
    when an underscore in the symbol or in the stream key makes the split
    fall elsewhere; and when the lower-cased symbol has no underscore it
    gets back the stream key and the lower-cased symbol themselves. *)
Theorem writer_key_round_trip (sk sym fmt : string) :
  PyStr.rfind "_" fmt = None ->
  (exists a b,
     PyStr.rsplit2 "_" (writer_key_of sk sym fmt) = [a; b; fmt] /\
     forall args p,
       columnar_path args a b p fmt = columnar_path args sk sym p fmt) /\
  (PyStr.rfind "_" (PyStr.lower sym) = None ->
   PyStr.rsplit2 "_" (writer_key_of sk sym fmt) = [sk; PyStr.lower sym; fmt]).
Proof.
  intros Hfmt. split.
  - destruct (rsplit2_writer_key sk sym fmt Hfmt) as (a & b & Hs & Hab).
    exists a, b. split; [done|]. intros args p. by apply columnar_path_split.
  - intros Hsym. unfold writer_key_of, PyStr.rsplit2.
    replace (sk +:+ "_" +:+ PyStr.lower sym +:+ "_" +:+ fmt)
      with ((sk +:+ String "_" (PyStr.lower sym)) +:+ String "_" fmt)
      by (by rewrite !string_app_assoc).
    rewrite rsplit1_app by done. by rewrite rsplit1_app.
Qed.

Lemma writer_key_round_trip_witness :
  PyStr.rsplit2 "_" (writer_key_of "order-book" "BTCUSDT" "parquet") =
  ["order-book"; "btcusdt"; "parquet"].
Proof.
  assert (H1 : PyStr.rfind "_" "parquet" = None) by reflexivity.
  assert (H2 : PyStr.rfind "_" (PyStr.lower "BTCUSDT") = None) by reflexivity.
  pose proof (writer_key_round_trip "order-book" "BTCUSDT" "parquet" H1) as [_ H].
  exact (H H2).
Defined.

(** No two writers share a file.  Among the part files of the four
    known formats, the paths of two parts are the same only for the same
    part number of the same format under the same writer key, whatever
    the stream keys, the symbols and the output directory are. *)
Theorem part_files_are_disjoint (args : Args) (sk sym fmt sk' sym' fmt' : string)
    (q q' : Z) :
  known_format fmt = true -> known_format fmt' = true ->
  part_path args sk sym fmt q = part_path args sk' sym' fmt' q' ->
  fmt = fmt' /\ q = q' /\ writer_key_of sk sym fmt = writer_key_of sk' sym' fmt'.
Proof. apply part_path_owner. Qed.

Lemma part_files_are_disjoint_witness :
  let a := mkArgs None false false false ["json"; "csv"] "data" "1m" false in
  "json" = "json" /\ 1 = 1 /\
  writer_key_of "trades" "BTCUSDT" "json" = writer_key_of "trades" "btcusdt" "json".
Proof.
  intros a.
  assert (H1 : known_format "json" = true) by reflexivity.
  assert (H2 : part_path a "trades" "BTCUSDT" "json" 1 =
               part_path a "trades" "btcusdt" "json" 1) by reflexivity.
  exact (part_files_are_disjoint a "trades" "BTCUSDT" "json" "trades" "btcusdt"
           "json" 1 1 H1 H1 H2).
Defined.

(** ** The console sink: a closed pipe *)

Section ClosedPipe.

Variable oracle : Oracle.
Variable args : Args.
Variable redis_client : bool.

Lemma dispatch_after_console (it : Item) (s s' : FS) (x : IterExit) :
  (let! _ := (if redis_client
              then fs_io oracle (Xadd (redis_stream_name it) (item_payload it))
              else ret tt) in
   let! _ := (match output args with
              | [] => ret tt
              | fmts =>
                  write_formats oracle args (item_stream it) (item_symbol it)
                    (item_payload it) fmts
              end) in
   ret Continue) s = (Ok x, s') ->
  x = Continue.
Proof.
  unfold bind, ret.
  destruct ((if redis_client
             then fs_io oracle (Xadd (redis_stream_name it) (item_payload it))
             else fun s0 => (Ok tt, s0)) s) as [[[]|e] s1]; [|done].
  destruct (output args) as [|fmt fmts]; [by intros [= <- _]|].
  destruct (write_formats oracle args (item_stream it) (item_symbol it)
              (item_payload it) (fmt :: fmts) s1) as [[[]|e] s2]; [|done].
  by intros [= <- _].
Qed.

(** The console sink, by its outcome.  It touches neither the writer
    map nor a file.  The prints that succeeded come first in what it adds
    to the trace, two at most; when a print raises, the sink breaks out of
    the loop exactly when the pipe is closed, after the log record and the
    cancellation of the other tasks, and lets any other exception go. *)
Lemma console_sink_cases (it : Item) (s : FS) :
  let r := console_sink oracle args it s in
  fst (snd r) = fst s /\ files (snd (snd r)) = files (snd s) /\
  exists pre,
    (pre = [] \/ exists c0, pre = [Did (PrintCall c0)] \/
                 exists c1, pre = [Did (PrintCall c0); Did (PrintCall c1)]) /\
    match fst r with
    | Ok Continue => trace (snd (snd r)) = trace (snd s) ++ pre
    | Ok Break =>
        print args || print_only args = true /\
        (pre = [] \/ exists c0, pre = [Did (PrintCall c0)]) /\
        exists c,
          trace (snd (snd r)) =
            trace (snd s) ++
              pre ++ [Failed (PrintCall c); LogInfo MsgPipeClosed; CancelAllTasks] /\
          oracle (length (trace (snd s) ++ pre)) (PrintCall c) = true /\
          pipe_closed oracle (length (trace (snd s) ++ pre)) = true
    | Raise e =>
        print args || print_only args = true /\
        (pre = [] \/ exists c0, pre = [Did (PrintCall c0)]) /\
        exists c,
          trace (snd (snd r)) = trace (snd s) ++ pre ++ [Failed (PrintCall c)] /\
          e = IOFailure (PrintCall c) /\
          oracle (length (trace (snd s) ++ pre)) (PrintCall c) = true /\
          pipe_closed oracle (length (trace (snd s) ++ pre)) = false
    end.
Proof.
  destruct s as [d w]. cbv zeta. unfold console_sink.
  destruct (print args || print_only args) eqn:Hpr.
  2:{ unfold ret. cbn [fst snd]. repeat split.
      exists []. rewrite app_nil_r. by split; [left|]. }
  unfold bind, try_except, fs_io, fs_log, io, log, modify, ret, raise, failure,
    record.
  destruct (silent args); cbn [fst snd].
  - destruct (raises oracle (length (trace w)) _) eqn:Ho1; cbn [fst snd].
    + destruct (pipe_closed oracle (length (trace w))) eqn:Hb1;
        cbn [fst snd files trace]; repeat split;
        exists []; rewrite ?app_nil_r; (split; [by left|]);
        (split; [done|]); (split; [by left|]);
        eexists; rewrite <- ?app_assoc; repeat split; done.
    + cbn [fst snd files trace effect]. repeat split.
      eexists [_]. split; [|done]. right. eexists. by left.
  - destruct (raises oracle (length (trace w)) _) eqn:Ho1; cbn [fst snd].
    + destruct (pipe_closed oracle (length (trace w))) eqn:Hb1;
        cbn [fst snd files trace]; repeat split;
        exists []; rewrite ?app_nil_r; (split; [by left|]);
        (split; [done|]); (split; [by left|]);
        eexists; rewrite <- ?app_assoc; repeat split; done.
    + cbn [fst snd files trace effect].
      destruct (raises oracle (length (trace w ++ _)) _) eqn:Ho2; cbn [fst snd].
      * destruct (pipe_closed oracle (length (trace w ++ _))) eqn:Hb2;
          cbn [fst snd files trace]; repeat split;
          eexists [_]; (split; [right; eexists; by left|]);
          (split; [done|]); (split; [right; by eexists|]);
          eexists; rewrite <- ?app_assoc; repeat split; done.
      * cbn [fst snd files trace effect]. repeat split.
        eexists [_; _]. rewrite <- app_assoc. split; [|done].
        right. eexists. right. by eexists.
Qed.

(** A print that raises.  When the pipe is closed (the failing print
    raises [BrokenPipeError]) the run ends there: the tuple in hand
    reaches neither Redis nor a file and is never marked done; the writer
    map and the files stay as they are; the trace gains at most one print
    that succeeded, the print that failed, the log record and the
    cancellation of every other task; the producers are cancelled, the
    dispatcher finishes with the rest of the queue unprocessed, and a
    [join] in progress is abandoned.  Any other exception of a print is
    not caught, and the console sink raises for no other cause: the pass
    leaves the loop with the exception, the trace having gained at most
    one print that succeeded and the print that failed; nothing is logged
    and no task is cancelled; the dispatcher task ends with the exception,
    the tuple unmarked, and a [join] in progress waits for ever. *)
Theorem closed_pipe_ends_the_run (it : Item) (rest : list Item) (p : Pipeline) :
  let p' := consume oracle args redis_client it rest p in
  (forall ws w,
     dispatch oracle args redis_client it (writers p, world p) = (Ok Break, (ws, w)) ->
     print args || print_only args = true /\
     ws = writers p /\ files w = files (world p) /\
     (exists pre c,
        trace w =
          trace (world p) ++
            pre ++ [Failed (PrintCall c); LogInfo MsgPipeClosed; CancelAllTasks] /\
        (pre = [] \/ exists c0, pre = [Did (PrintCall c0)]) /\
        pipe_closed oracle (length (trace (world p) ++ pre)) = true) /\
     p' =
       mkPipeline (mkQueue rest (unfinished (queue p))) ws w Finished
         (map cancel (producers p)) /\
     (consumer p = Running -> 0 < unfinished (queue p) ->
      join_loop oracle args redis_client (it :: rest) p = (MainCancelled, p'))) /\
  (forall e ws w,
     console_sink oracle args it (writers p, world p) = (Raise e, (ws, w)) ->
     dispatch oracle args redis_client it (writers p, world p) = (Raise e, (ws, w)) /\
     print args || print_only args = true /\
     ws = writers p /\ files w = files (world p) /\
     (exists pre c,
        e = IOFailure (PrintCall c) /\
        trace w = trace (world p) ++ pre ++ [Failed (PrintCall c)] /\
        (pre = [] \/ exists c0, pre = [Did (PrintCall c0)]) /\
        pipe_closed oracle (length (trace (world p) ++ pre)) = false) /\
     p' =
       mkPipeline (mkQueue rest (unfinished (queue p))) ws w (Crashed e)
         (producers p) /\
     (consumer p = Running -> 0 < unfinished (queue p) ->
      join_loop oracle args redis_client (it :: rest) p = (Hung, p'))).
Proof.
  intros p'.
  pose proof (console_sink_cases it (writers p, world p)) as Hc.
  cbv zeta in Hc. cbn [fst snd] in Hc. destruct Hc as (Hd & Hf & pre & Hpre & Hc).
  split.
  - intros ws w Hdisp.
    assert (Hp' : p' = mkPipeline (mkQueue rest (unfinished (queue p))) ws w Finished
                         (map cancel (producers p))).
    { unfold p', consume. by rewrite Hdisp. }
    assert (Hjoin : consumer p = Running -> 0 < unfinished (queue p) ->
                    join_loop oracle args redis_client (it :: rest) p =
                    (MainCancelled, p')).
    { intros Hrun Hpos. rewrite join_loop_waiting by done.
      fold p'. by rewrite Hp'. }
    revert Hdisp. unfold dispatch. unfold bind at 1.
    destruct (console_sink oracle args it (writers p, world p))
      as [[[|]|e] [d1 w1]]; cbn [fst snd] in *.
    + intros Hd'. by apply dispatch_after_console in Hd'.
    + unfold ret. intros [= <- <-].
      destruct Hc as (Hpr & Hshort & c & Htr & _ & Hb).
      repeat split; try done. by exists pre, c.
    + done.
  - intros e ws w Hcon.
    assert (Hdisp : dispatch oracle args redis_client it (writers p, world p) =
                    (Raise e, (ws, w))).
    { unfold dispatch, bind. by rewrite Hcon. }
    assert (Hp' : p' = mkPipeline (mkQueue rest (unfinished (queue p))) ws w (Crashed e)
                         (producers p)).
    { unfold p', consume. by rewrite Hdisp. }
    assert (Hjoin : consumer p = Running -> 0 < unfinished (queue p) ->
                    join_loop oracle args redis_client (it :: rest) p = (Hung, p')).
    { intros Hrun Hpos. rewrite join_loop_waiting by done.
      fold p'. rewrite Hp'. cbn [consumer].
      apply join_loop_dead; [done|by cbn]. }
    rewrite Hcon in Hd, Hf, Hc. cbn [fst snd] in *.
    destruct Hc as (Hpr & Hshort & c & Htr & He & _ & Hb).
    repeat split; try done. by exists pre, c.
Qed.

End ClosedPipe.

Lemma closed_pipe_ends_the_run_witness :
  let a := mkArgs None true false true ["json"] "data" "1m" false in
  let prints_fail (closed : bool) : Oracle :=
    mkOracle (fun _ c => match c with PrintCall _ => true | _ => false end)
      (fun _ => closed) in
  let t1 := mkItem "trades" "BTCUSDT" [("price", PyRaw (JStr "1"))] in
  let t2 := mkItem "trades" "BTCUSDT" [("price", PyRaw (JStr "2"))] in
  let p0 := mkPipeline (mkQueue [t1; t2] 2) [] (mkWorld ∅ []) Running [Running] in
  let call := PrintCall (PrintEnvelope "trades" "BTCUSDT" [("price", PyRaw (JStr "1"))]) in
  consume (prints_fail true) a true t1 [t2] p0 =
  mkPipeline (mkQueue [t2] 2) []
    (mkWorld ∅ [Failed call; LogInfo MsgPipeClosed; CancelAllTasks])
    Finished [Cancelled] /\
  consume (prints_fail false) a true t1 [t2] p0 =
  mkPipeline (mkQueue [t2] 2) [] (mkWorld ∅ [Failed call])
    (Crashed (IOFailure call)) [Running].
Proof.
  intros a prints_fail t1 t2 p0 call.
  assert (H1 : dispatch (prints_fail true) a true t1 (writers p0, world p0) =
               (Ok Break,
                ([], mkWorld ∅ [Failed call; LogInfo MsgPipeClosed; CancelAllTasks])))
    by reflexivity.
  assert (H2 : console_sink (prints_fail false) a t1 (writers p0, world p0) =
               (Raise (IOFailure call), ([], mkWorld ∅ [Failed call])))
    by reflexivity.
  pose proof (closed_pipe_ends_the_run (prints_fail true) a true t1 [t2] p0) as T1.
  pose proof (closed_pipe_ends_the_run (prints_fail false) a true t1 [t2] p0) as T2.
  cbv zeta in T1, T2.
  destruct T1 as [T1 _]. destruct T2 as [_ T2].
  destruct (T1 _ _ H1) as (_ & _ & _ & _ & Hp1 & _).
  destruct (T2 _ _ _ H2) as (_ & _ & _ & _ & _ & Hp2 & _).
  split; [exact Hp1|exact Hp2].
Defined.

(** ** The order of the sinks, and delivery to Redis *)

Section SinkOrder.

Variable oracle : Oracle.
Variable args : Args.

Lemma adds_only_ret {A} (P : Event -> bool) (a : A) : adds_only P (ret a).
Proof. intros s. exists []. by rewrite app_nil_r. Qed.

Lemma adds_only_raise {A} (P : Event -> bool) (e : Exn) :
  adds_only P (raise (A := A) e).
Proof. intros s. exists []. by rewrite app_nil_r. Qed.

Lemma adds_only_bind {A B} (P : Event -> bool) (m : M FS A) (k : A -> M FS B) :
  adds_only P m -> (forall a, adds_only P (k a)) -> adds_only P (bind m k).
Proof.
  intros Hm Hk s. unfold bind. destruct (Hm s) as (tl & Htl & Hev).
  destruct (m s) as [[a|e] s1]; simpl in *; [|by exists tl].
  destruct (Hk a s1) as (tl' & Htl' & Hev').
  exists (tl ++ tl'). rewrite Htl', Htl, <- app_assoc. split; [done|].
  by apply Forall_app.
Qed.

Lemma adds_only_try {A} (P : Event -> bool) (m : M FS A) (h : Exn -> M FS A) :
  adds_only P m -> (forall e, adds_only P (h e)) -> adds_only P (try_except m h).
Proof.
  intros Hm Hh s. unfold try_except. destruct (Hm s) as (tl & Htl & Hev).
  destruct (m s) as [[a|e] s1]; simpl in *; [by exists tl|].
  destruct (Hh e s1) as (tl' & Htl' & Hev').
  exists (tl ++ tl'). rewrite Htl', Htl, <- app_assoc. split; [done|].
  by apply Forall_app.
Qed.

Lemma adds_only_io (P : Event -> bool) (c : IOCall) :
  P (Did c) = true -> P (Failed c) = true -> adds_only P (fs_io oracle c).
Proof.
  intros H1 H2 [d w]. unfold fs_io, io. simpl.
  destruct (oracle _ _); simpl; eexists [_]; by repeat constructor.
Qed.

Lemma adds_only_log (P : Event -> bool) (e : Event) :
  P e = true -> adds_only P (fs_log e).
Proof. intros He [d w]. exists [e]. by repeat constructor. Qed.

Lemma flush_buffer_file_events (a b fmt : string) (st : WriterState) (w : World) :
  exists tl,
    trace (snd (snd (flush_buffer oracle args a b fmt (st, w)))) = trace w ++ tl /\
    Forall (fun e => file_event e = true) tl.
Proof.
  destruct st as [bf pt h l wr hd]. unfold flush_buffer.
  destruct bf as [[|r rows]|];
    [step_writer; exists []; by rewrite app_nil_r| |
     step_writer; exists []; by rewrite app_nil_r].
  destruct pt as [q|]; [|step_writer; exists []; by rewrite app_nil_r].
  destruct (String.eqb fmt "parquet") eqn:E1;
    [|destruct (String.eqb fmt "orc") eqn:E2];
    step_writer; rewrite ?E1, ?E2; step_writer;
    eexists; (split; [rewrite <- ?app_assoc; simpl; reflexivity|]);
    by repeat constructor.
Qed.

Lemma write_body_file_events (sk sym fmt : string) (p : Payload)
    (st : WriterState) (w : World) :
  exists tl,
    trace (snd (snd (write_body oracle args sk sym p fmt (st, w)))) =
      trace w ++ tl /\
    Forall (fun e => file_event e = true) tl.
Proof.
  destruct (is_columnar fmt) eqn:Hc.
  - rewrite write_columnar by done. cbv zeta.
    destruct (_ >=? _); [apply flush_buffer_file_events|].
    exists []. by rewrite app_nil_r.
  - destruct st as [bf pt h l wr hd]. unfold write_body. rewrite Hc.
    destruct (is_line fmt) eqn:Hl; [|exists []; by rewrite app_nil_r].
    destruct (is_line_cases fmt Hl) as [-> | ->];
      destruct h as [h|]; destruct l as [n|]; destruct wr as [x|];
      destruct hd as [hs|]; walk_writer;
      try (exists []; by rewrite app_nil_r);
      (eexists; split; [rewrite <- ?app_assoc; simpl; reflexivity|];
       by repeat constructor).
Qed.

Lemma adds_only_write_to_file (sk sym fmt : string) (p : Payload) :
  adds_only file_event (write_to_file oracle args sk sym p fmt).
Proof.
  intros [d w]. unfold write_to_file. cbn [fst snd].
  set (st := default empty_state _).
  destruct (write_body_file_events sk sym fmt p st w) as (tl & Htl & Hev).
  destruct (write_body oracle args sk sym p fmt (st, w)) as [[[]|e] [st' w']];
    by exists tl.
Qed.

Lemma adds_only_write_formats (sk sym : string) (p : Payload) (fmts : list string) :
  adds_only file_event (write_formats oracle args sk sym p fmts).
Proof.
  induction fmts as [|fmt fmts IH]; simpl; [apply adds_only_ret|].
  apply adds_only_bind; [apply adds_only_write_to_file|done].
Qed.

Lemma adds_only_console_sink (it : Item) :
  adds_only console_event (console_sink oracle args it).
Proof.
  unfold console_sink.
  destruct (print args || print_only args); [|apply adds_only_ret].
  apply adds_only_try.
  - apply adds_only_bind; [|intros; apply adds_only_ret].
    destruct (silent args); [by apply adds_only_io|].
    apply adds_only_bind; [by apply adds_only_io|intros; by apply adds_only_io].
  - intros e. destruct e; try apply adds_only_raise.
    apply adds_only_bind; [by apply adds_only_log|intros _].
    apply adds_only_bind; [by apply adds_only_log|intros _]. apply adds_only_ret.
Qed.

(** One pass of the dispatcher serves the sinks in a fixed order: the
    console, then Redis, then the files.  Whatever the outcome, the
    events it adds are console events, then at most one Redis append,
    done or failed, then events of the file sink; without a client there
    is no append; and a pass that ends normally with a client made
    exactly one append, of the tuple's payload to the stream named after
    its stream key and lower-cased symbol, and it succeeded. *)
Theorem sinks_are_served_in_order (redis_client : bool) (it : Item) (s : FS) :
  let r := dispatch oracle args redis_client it s in
  let call := Xadd (redis_stream_name it) (item_payload it) in
  exists tc tr tf,
    trace (snd (snd r)) = trace (snd s) ++ tc ++ tr ++ tf /\
    Forall (fun e => console_event e = true) tc /\
    Forall (fun e => file_event e = true) tf /\
    (tr = [] \/ redis_client = true /\ (tr = [Did call] \/ tr = [Failed call])) /\
    (fst r = Ok Continue -> tr = if redis_client then [Did call] else []).
Proof.
  intros r call. unfold r, dispatch, bind, ret. clear r. subst call.
  set (call := Xadd (redis_stream_name it) (item_payload it)).
  destruct (adds_only_console_sink it s) as (tc & Htc & Hc).
  destruct (console_sink oracle args it s) as [[[|]|e] s1]; cbn [fst snd] in *.
  2,3: (exists tc, [], []; rewrite !app_nil_r; cbn [fst snd];
        repeat split; try done; by left).
  destruct s1 as [d1 w1]. cbn [fst snd] in *.
  assert (Hfiles : forall s2 : FS,
            let rf :=
              match output args with
              | [] => fun s0 : FS => (Ok tt, s0)
              | fmts =>
                  write_formats oracle args (item_stream it) (item_symbol it)
                    (item_payload it) fmts
              end s2 in
            exists tf,
              trace (snd (snd rf)) = trace (snd s2) ++ tf /\
              Forall (fun e => file_event e = true) tf).
  { intros s2. destruct (output args) as [|fmt fmts].
    - exists []. by rewrite app_nil_r.
    - apply adds_only_write_formats. }
  destruct redis_client.
  - unfold fs_io, io. cbn [fst snd].
    destruct (oracle (length (trace w1)) call) eqn:Ho; cbn [fst snd].
    + exists tc, [Failed call], []. unfold record. cbn [trace].
      rewrite Htc, <- !app_assoc. repeat split; try done. right. auto.
    + match goal with
      | |- context [match ?m ?s2 with _ => _ end] =>
          destruct (Hfiles s2) as (tf & Htf & Hfe); cbv zeta in Htf;
          change (trace (snd (snd (m s2))) = trace (snd s2) ++ tf) in Htf;
          destruct (m s2) as [[[]|e] s3]
      end; cbn [fst snd trace] in *;
        exists tc, [Did call], tf; rewrite Htf, Htc, <- !app_assoc;
        repeat split; try done; right; auto.
  - match goal with
    | |- context [match ?m ?s2 with _ => _ end] =>
        destruct (Hfiles s2) as (tf & Htf & Hfe); cbv zeta in Htf;
        change (trace (snd (snd (m s2))) = trace (snd s2) ++ tf) in Htf;
        destruct (m s2) as [[[]|e] s3]
    end; cbn [fst snd trace] in *;
      exists tc, [], tf; rewrite Htf, Htc, <- ?app_assoc; repeat split; try done;
      try (by left).
Qed.

End SinkOrder.

Section RedisDelivery.

Variable oracle : Oracle.
Variable args : Args.

Lemma appended_to_redis_app (a b : list Event) :
  appended_to_redis (a ++ b) = appended_to_redis a ++ appended_to_redis b.
Proof. apply omap_app. Qed.

Lemma marked_done_app (a b : list Event) :
  marked_done (a ++ b) = (marked_done a + marked_done b)%nat.
Proof. unfold marked_done. by rewrite List.filter_app, length_app. Qed.

Lemma sink_events_redis (P : Event -> bool) (tl : list Event) :
  (forall e, P e = true ->
             appended_to_redis [e] = [] /\ marked_done [e] = 0%nat) ->
  Forall (fun e => P e = true) tl ->
  appended_to_redis tl = [] /\ marked_done tl = 0%nat.
Proof.
  intros HP. induction 1 as [|e tl He _ [IH1 IH2]]; [done|].
  change (e :: tl) with ([e] ++ tl).
  rewrite appended_to_redis_app, marked_done_app, IH1, IH2.
  by destruct (HP e He) as [-> ->].
Qed.

Lemma console_events_redis (tl : list Event) :
  Forall (fun e => console_event e = true) tl ->
  appended_to_redis tl = [] /\ marked_done tl = 0%nat.
Proof.
  apply sink_events_redis. intros [[]|[]|[]|[]| | | | | |]; try done.
Qed.

Lemma file_events_redis (tl : list Event) :
  Forall (fun e => file_event e = true) tl ->
  appended_to_redis tl = [] /\ marked_done tl = 0%nat.
Proof.
  apply sink_events_redis. intros [[]|[]|[]|[]| | | | | |]; try done.
Qed.

Lemma dispatch_clean_appends (it : Item) (s s' : FS) :
  dispatch oracle args true it s = (Ok Continue, s') ->
  exists tl,
    trace (snd s') = trace (snd s) ++ tl /\
    appended_to_redis tl = [(redis_stream_name it, item_payload it)] /\
    marked_done tl = 0%nat.
Proof.
  unfold dispatch, bind, ret.
  destruct (adds_only_console_sink oracle args it s) as (tc & Htc & Hc).
  destruct (console_events_redis tc Hc) as [Hc1 Hc2].
  destruct (console_sink oracle args it s) as [[[|]|e] [d1 w1]];
    cbn [fst snd] in *; [|done..].
  unfold fs_io, io. cbn [fst snd].
  destruct (oracle (length (trace w1)) _); cbn [fst snd]; [done|].
  destruct (output args) as [|fmt fmts].
  - intros [= <-]. cbn [snd trace]. eexists (tc ++ [_]).
    rewrite Htc, <- app_assoc, appended_to_redis_app, marked_done_app, Hc1, Hc2.
    done.
  - match goal with
    | |- context [write_formats ?o ?a ?sk ?sym ?p ?f ?s2] =>
        destruct (adds_only_write_formats o a sk sym p f s2) as (tf & Htf & Hf);
        destruct (write_formats o a sk sym p f s2) as [[[]|e] s3]
    end; [|done].
    destruct (file_events_redis tf Hf) as [Hf1 Hf2].
    intros [= <-]. cbn [fst snd trace] in *. eexists (tc ++ [_] ++ tf).
    rewrite Htf, Htc, <- !app_assoc.
    rewrite !appended_to_redis_app, !marked_done_app, Hc1, Hc2, Hf1, Hf2.
    done.
Qed.

Lemma consume_all_clean (its : list Item) (p : Pipeline) :
  Z.of_nat (length its) <= unfinished (queue p) ->
  dispatches_cleanly oracle args true its p ->
  exists tl,
    trace (world (consume_all oracle args true its p)) = trace (world p) ++ tl /\
    appended_to_redis tl =
      map (fun it => (redis_stream_name it, item_payload it)) its /\
    marked_done tl = length its /\
    unfinished (queue (consume_all oracle args true its p)) =
      unfinished (queue p) - Z.of_nat (length its) /\
    (its <> [] -> consumer (consume_all oracle args true its p) = Running).
Proof.
  revert p. induction its as [|it rest IH]; intros p Hlen Hclean.
  - exists []. rewrite app_nil_r. simpl. repeat split; try done. lia.
  - cbn [consume_all dispatches_cleanly] in *.
    destruct (dispatch oracle args true it (writers p, world p))
      as [[[|]|e] [ws w]] eqn:Hd; try done.
    destruct (dispatch_clean_appends it _ _ Hd) as (t1 & Ht1 & Ha1 & Hm1).
    cbn [fst snd] in Ht1.
    assert (Hc : consume oracle args true it rest p =
                 mkPipeline (mkQueue rest (unfinished (queue p) - 1)) ws
                   (record TaskDone w) Running (producers p)).
    { unfold consume. rewrite Hd.
      replace (unfinished (queue p) <=? 0) with false; [done|].
      symmetry. apply Z.leb_gt. simpl length in Hlen. lia. }
    rewrite Hc in Hclean |- *.
    assert (Hlen' : Z.of_nat (length rest) <=
                    unfinished
                      (queue
                         (mkPipeline (mkQueue rest (unfinished (queue p) - 1)) ws
                            (record TaskDone w) Running (producers p)))).
    { simpl length in Hlen. cbn [queue unfinished]. lia. }
    destruct (IH _ Hlen' Hclean) as (t2 & Ht2 & Ha2 & Hm2 & Hu2 & Hr2).
    cbn [world queue unfinished trace record] in *.
    exists (t1 ++ [TaskDone] ++ t2).
    rewrite Ht2, Ht1, <- !app_assoc.
    rewrite !appended_to_redis_app, !marked_done_app, Ha1, Ha2, Hm1, Hm2.
    repeat split; try done.
    + rewrite Hu2. simpl length. lia.
    + intros _. destruct rest as [|it' rest']; [done|]. by apply Hr2.
Qed.

(** Redis receives every tuple once, in queue order.  When no sink
    raises on the tuples [its], the dispatcher appends to Redis exactly
    one entry per tuple, in the order of the queue, each to the stream
    named after the stream key and the lower-cased symbol of the tuple
    and with the tuple's payload as fields; it marks each tuple done
    once, and leaves the count of unfinished items lower by their
    number. *)
Theorem redis_receives_each_tuple_once (its : list Item) (p : Pipeline) :
  Z.of_nat (length its) <= unfinished (queue p) ->
  dispatches_cleanly oracle args true its p ->
  let p' := consume_all oracle args true its p in
  let added := events_since (world p) (world p') in
  appended_to_redis added =
    map (fun it => (redis_stream_name it, item_payload it)) its /\
  marked_done added = length its /\
  unfinished (queue p') = unfinished (queue p) - Z.of_nat (length its).
Proof.
  intros Hlen Hclean p' added.
  destruct (consume_all_clean its p Hlen Hclean) as (tl & Htl & Ha & Hm & Hu & _).
  unfold added, events_since, p'. rewrite Htl, drop_app_length. done.
Qed.

End RedisDelivery.

Lemma redis_receives_each_tuple_once_witness :
  let a := mkArgs None false false false ["json"] "data" "1m" false in
  let t1 := mkItem "trades" "BTCUSDT" [("price", PyRaw (JStr "1"))] in
  let t2 := mkItem "ticker" "ETHUSDT" [("last_price", PyRaw (JStr "2"))] in
  let p0 := mkPipeline (mkQueue [t1; t2] 2) [] (mkWorld ∅ []) Running [] in
  let p' := consume_all no_faults a true [t1; t2] p0 in
  appended_to_redis (events_since (world p0) (world p')) =
  [("binance:trades:btcusdt", [("price", PyRaw (JStr "1"))]);
   ("binance:ticker:ethusdt", [("last_price", PyRaw (JStr "2"))])].
Proof.
  intros a t1 t2 p0 p'.
  assert (H1 : Z.of_nat (length [t1; t2]) <= unfinished (queue p0))
    by (simpl; lia).
  assert (H2 : dispatches_cleanly no_faults a true [t1; t2] p0)
    by (vm_compute; exact I).
  pose proof (redis_receives_each_tuple_once no_faults a [t1; t2] p0 H1 H2)
    as (H & _ & _).
  exact H.
Defined.
